(** * Cortex: project-scoped memory store

    A shallow embedding of the two core subsystems of Cortex,

    - [context.ts]: the project context resolver ([getProjectId],
      [detectProjectId], [findGitRoot], [findPackageJson], [hashPath],
      [hashString]);
    - [storage.ts]: the [MemoryStore] class on top of one SQLite table
      ([add], [get], [search], [list], [delete], [clear], [stats],
      [getAllProjects], [rowToMemory]);

    of what is built on them (the tool handler of the MCP server, the tool
    scanner, and the store and the webview of the VS Code extension), and
    of the runtime services they call: [JSON.stringify]
    and [JSON.parse], SHA-256, the POSIX flavour of [path.resolve] and
    [path.join], [fs.existsSync] and [fs.readFileSync], and the fragment of
    SQL the store issues (INSERT with its CHECK constraint, SELECT ... WHERE
    ... ORDER BY ... LIMIT, DELETE, COUNT, GROUP BY, and the LIKE operator).

    Conventions of the model.  Strings are byte strings: a JavaScript string
    is identified with its UTF-8 encoding, which SQLite's LIKE reads
    character by character, and case folding is the ASCII one (which is
    also what LIKE does).  JavaScript numbers are integers.  A call that may throw returns an [outcome]; a call that
    changes the database returns its outcome together with the database
    after it; the module-level cache of context.ts and the file system are
    passed in.  The definitions come first, the facts after them, and the
    tests of the repository are replayed on the model at the end. *)

From Stdlib Require Import String Ascii ZArith List Bool Lia.
From Stdlib Require Import DecimalString DecimalN DecimalFacts.
From Stdlib Require Import Sorted Permutation.
From Stdlib Require OrderedTypeEx.
From stdpp Require Import base option list gmap strings.

Set Warnings "-register-all".

Open Scope string_scope.
Open Scope list_scope.
Open Scope Z_scope.
Open Scope stdpp_scope.

(** ** Outcomes of a JavaScript call *)

(** What a call can throw.  [SQLiteError] carries the message of
    SQLite. *)
Inductive js_error : Type :=
| SyntaxError                    (* JSON.parse on malformed text *)
| TypeError                      (* property access on null, conversion of an object *)
| FsError (code : string)        (* readFileSync: ENOENT, EISDIR, EACCES *)
| SQLiteError (message : string).

(** The [name] of an exception, which tells the class it was made from: the
    errors of [node:fs] are plain [Error]s with a [code], the error of
    [bun:sqlite] is its own [SQLiteError]. *)
Definition error_name (e : js_error) : string :=
  match e with
  | SyntaxError => "SyntaxError"
  | TypeError => "TypeError"
  | FsError _ => "Error"
  | SQLiteError _ => "SQLiteError"
  end.

(** A call returns a value, throws, or (for a loop cut off by its fuel) does
    not come back. *)
Inductive outcome (A : Type) : Type :=
| Returns (a : A)
| Throws (e : js_error)
| Diverges.
Arguments Returns {A} a.
Arguments Throws {A} e.
Arguments Diverges {A}.

Definition obind {A B} (m : outcome A) (k : A -> outcome B) : outcome B :=
  match m with
  | Returns a => k a
  | Throws e => Throws e
  | Diverges => Diverges
  end.

Definition omap {A B} (f : A -> B) (m : outcome A) : outcome B :=
  obind m (fun a => Returns (f a)).

Notation "'let*' x ':=' m 'in' k" := (obind m (fun x => k))
  (at level 10, x pattern, m at level 100, k at level 200).

(** [xs.map(f)] where [f] may throw: the first exception aborts the map. *)
Fixpoint omapM {A B} (f : A -> outcome B) (l : list A) : outcome (list B) :=
  match l with
  | [] => Returns []
  | x :: xs => let* y := f x in let* ys := omapM f xs in Returns (y :: ys)
  end.

(** ** Characters and strings *)

Definition dquote : ascii := ascii_of_nat 34.
Definition backslash : ascii := ascii_of_nat 92.
Definition slash : ascii := "/"%char.

Definition char_code (c : ascii) : N := N_of_ascii c.

(** [String.prototype.toLowerCase], on ASCII letters. *)
Definition lower_char (c : ascii) : ascii :=
  let n := char_code c in
  if ((65 <=? n) && (n <=? 90))%N then ascii_of_N (n + 32) else c.

Fixpoint map_string (f : ascii -> ascii) (s : string) : string :=
  match s with
  | EmptyString => EmptyString
  | String c r => String (f c) (map_string f r)
  end.

Definition toLowerCase (s : string) : string := map_string lower_char s.

(** A JavaScript string used as a condition: only the empty string is
    falsy. *)
Definition truthy_string (s : string) : bool := negb (String.eqb s "").

(** [a || b] on an optional string ([undefined]/[null] is [None]). *)
Definition or_string (a : option string) (b : option string) : option string :=
  match a with
  | Some s => if truthy_string s then Some s else b
  | None => b
  end.

(** [str.startsWith(p)]; returns the rest on success. *)
Fixpoint strip_prefix (p s : string) : option string :=
  match p, s with
  | EmptyString, _ => Some s
  | String a p', String b s' => if Ascii.eqb a b then strip_prefix p' s' else None
  | String _ _, EmptyString => None
  end.

Fixpoint join_with (sep : string) (l : list string) : string :=
  match l with
  | [] => ""
  | [x] => x
  | x :: xs => x +:+ sep +:+ join_with sep xs
  end.

(** ** JSON values, [JSON.stringify] and [JSON.parse]

    Numbers: an integer literal is [JNum] (exact for the integers a double
    holds exactly); a literal with a fraction or an exponent is kept as its
    lexeme in [JReal] (its floating-point value is outside the model).  An
    object is the list of its entries in textual order; the order in which
    JavaScript enumerates integer-like keys is not modelled, deep equality
    does not see it. *)

Inductive json : Type :=
| JNull
| JBool (b : bool)
| JNum (z : Z)
| JReal (lexeme : string)
| JStr (s : string)
| JArr (items : list json)
| JObj (entries : list (string * json)).

(** JavaScript truthiness of a value. *)
Definition truthy (v : json) : bool :=
  match v with
  | JNull => false
  | JBool b => b
  | JNum z => negb (z =? 0)
  | JReal _ => true
  | JStr s => truthy_string s
  | JArr _ | JObj _ => true
  end.

Definition hex_digit (n : N) : ascii :=
  if (n <? 10)%N then ascii_of_N (48 + n) else ascii_of_N (87 + n).

(** The escape [JSON.stringify] writes for one character of a string. *)
Definition escape_char (c : ascii) : string :=
  let n := char_code c in
  if (n =? 34)%N then String backslash (String dquote "")
  else if (n =? 92)%N then String backslash (String backslash "")
  else if (n =? 8)%N then String backslash "b"
  else if (n =? 9)%N then String backslash "t"
  else if (n =? 10)%N then String backslash "n"
  else if (n =? 12)%N then String backslash "f"
  else if (n =? 13)%N then String backslash "r"
  else if (n <? 32)%N then
    String backslash (String "u" (String "0" (String "0"
      (String (hex_digit (n / 16)) (String (hex_digit (n mod 16)) "")))))
  else String c "".

Fixpoint escape_string (s : string) : string :=
  match s with
  | EmptyString => ""
  | String c r => escape_char c +:+ escape_string r
  end.

Definition quote (s : string) : string :=
  String dquote (escape_string s +:+ String dquote "").

Definition print_N (n : N) : string := NilEmpty.string_of_uint (N.to_uint n).

Definition print_Z (z : Z) : string :=
  if z <? 0 then String "-" (print_N (Z.abs_N z)) else print_N (Z.abs_N z).

Fixpoint JSON_stringify (v : json) : string :=
  match v with
  | JNull => "null"
  | JBool true => "true"
  | JBool false => "false"
  | JNum z => print_Z z
  | JReal lexeme => lexeme
  | JStr s => quote s
  | JArr items =>
      "[" +:+ join_with "," (List.map JSON_stringify items) +:+ "]"
  | JObj entries =>
      "{" +:+ join_with ","
        (List.map (fun kv => quote (fst kv) +:+ ":" +:+ JSON_stringify (snd kv)) entries)
      +:+ "}"
  end.

Definition is_ws (c : ascii) : bool :=
  let n := char_code c in
  ((n =? 32) || (n =? 9) || (n =? 10) || (n =? 13))%N.

Fixpoint skip_ws (s : string) : string :=
  match s with
  | String c r => if is_ws c then skip_ws r else s
  | EmptyString => s
  end.

Definition is_digit (c : ascii) : bool :=
  let n := char_code c in ((48 <=? n) && (n <=? 57))%N.

Definition hex_value (c : ascii) : option N :=
  let n := char_code c in
  if ((48 <=? n) && (n <=? 57))%N then Some (n - 48)%N
  else if ((97 <=? n) && (n <=? 102))%N then Some (n - 87)%N
  else if ((65 <=? n) && (n <=? 70))%N then Some (n - 55)%N
  else None.

(** The longest prefix of decimal digits, as a [Decimal.uint]. *)
Fixpoint span_digits (s : string) : Decimal.uint * string :=
  match s with
  | String c r =>
      if is_digit c then
        let '(u, r') := span_digits r in
        match uint_of_char c (Some u) with
        | Some u' => (u', r')
        | None => (Decimal.Nil, s)
        end
      else (Decimal.Nil, s)
  | EmptyString => (Decimal.Nil, s)
  end.

Definition is_nil (u : Decimal.uint) : bool :=
  match u with Decimal.Nil => true | _ => false end.

(** An integer part may not start with a superfluous zero. *)
Definition leading_zero (u : Decimal.uint) : bool :=
  match u with
  | Decimal.D0 u' => negb (is_nil u')
  | _ => false
  end.

(** The optional fraction of a number: its lexeme and the rest. *)
Definition parse_frac (s : string) : option (string * string) :=
  match s with
  | String "." r =>
      let '(u, r') := span_digits r in
      if is_nil u then None
      else Some (String "." (NilEmpty.string_of_uint u), r')
  | _ => Some ("", s)
  end.

Definition parse_sign (s : string) : string * string :=
  match s with
  | String "+" r => ("+", r)
  | String "-" r => ("-", r)
  | _ => ("", s)
  end.

(** The optional exponent of a number: its lexeme and the rest. *)
Definition parse_exp (s : string) : option (string * string) :=
  match s with
  | String c r =>
      if (Ascii.eqb c "e" || Ascii.eqb c "E")%bool then
        let '(sg, r1) := parse_sign r in
        let '(u, r2) := span_digits r1 in
        if is_nil u then None
        else Some (String c (sg +:+ NilEmpty.string_of_uint u), r2)
      else Some ("", s)
  | EmptyString => Some ("", s)
  end.

Definition parse_number (s : string) : option (json * string) :=
  let '(neg, s1) :=
    match s with
    | String "-" r => (true, r)
    | _ => (false, s)
    end in
  let '(u, s2) := span_digits s1 in
  if (is_nil u || leading_zero u)%bool then None
  else
    match parse_frac s2 with
    | None => None
    | Some (fr, s3) =>
        match parse_exp s3 with
        | None => None
        | Some (ex, s4) =>
            if (String.eqb fr "" && String.eqb ex "")%bool then
              let n := Z.of_N (N.of_uint u) in
              Some (JNum (if neg then - n else n), s4)
            else
              Some (JReal ((if neg then "-" else "") +:+
                           NilEmpty.string_of_uint u +:+ fr +:+ ex), s4)
        end
    end.

(** UTF-8 encoding of a code point of the basic plane; an escaped
    surrogate becomes U+FFFD (escaped surrogate pairs are not recombined). *)
Definition utf8_encode (cp : N) : string :=
  let b (n : N) := ascii_of_N n in
  if (cp <? 128)%N then String (b cp) ""
  else if (cp <? 2048)%N then
    String (b (192 + cp / 64)%N) (String (b (128 + cp mod 64)%N) "")
  else
    let cp := if ((55296 <=? cp) && (cp <=? 57343))%N then 65533%N else cp in
    String (b (224 + cp / 4096)%N)
      (String (b (128 + (cp / 64) mod 64)%N) (String (b (128 + cp mod 64)%N) "")).

Definition hex4 (a b c d : ascii) : option N :=
  match hex_value a, hex_value b, hex_value c, hex_value d with
  | Some x, Some y, Some z, Some w => Some (((x * 16 + y) * 16 + z) * 16 + w)%N
  | _, _, _, _ => None
  end.

(** The character a one-letter escape stands for. *)
Definition unescape_char (e : ascii) : option ascii :=
  let n := char_code e in
  if (n =? 34)%N then Some dquote
  else if (n =? 92)%N then Some backslash
  else if (n =? 47)%N then Some slash
  else if (n =? 98)%N then Some (ascii_of_N 8)
  else if (n =? 116)%N then Some (ascii_of_N 9)
  else if (n =? 110)%N then Some (ascii_of_N 10)
  else if (n =? 102)%N then Some (ascii_of_N 12)
  else if (n =? 114)%N then Some (ascii_of_N 13)
  else None.

(** The characters of a string literal after its opening quote, up to and
    including the closing quote. *)
Fixpoint parse_string_body (s : string) : option (string * string) :=
  match s with
  | EmptyString => None
  | String c r =>
      if Ascii.eqb c dquote then Some ("", r)
      else if Ascii.eqb c backslash then
        match r with
        | EmptyString => None
        | String e r1 =>
            if Ascii.eqb e "u" then
              match r1 with
              | String h1 (String h2 (String h3 (String h4 r2))) =>
                  match hex4 h1 h2 h3 h4 with
                  | Some cp =>
                      match parse_string_body r2 with
                      | Some (t, r3) => Some (utf8_encode cp +:+ t, r3)
                      | None => None
                      end
                  | None => None
                  end
              | _ => None
              end
            else
              match unescape_char e with
              | Some ch =>
                  match parse_string_body r1 with
                  | Some (t, r2) => Some (String ch t, r2)
                  | None => None
                  end
              | None => None
              end
        end
      else if (char_code c <? 32)%N then None
      else
        match parse_string_body r with
        | Some (t, r1) => Some (String c t, r1)
        | None => None
        end
  end.

(** [obj[k] = v]: an existing key keeps its place and takes the new value. *)
Fixpoint obj_set (k : string) (v : json) (l : list (string * json)) : list (string * json) :=
  match l with
  | [] => [(k, v)]
  | (k', v') :: l' =>
      if String.eqb k k' then (k, v) :: l' else (k', v') :: obj_set k v l'
  end.

Definition obj_of_entries (l : list (string * json)) : list (string * json) :=
  fold_left (fun acc kv => obj_set (fst kv) (snd kv) acc) l [].

(** Recursive descent; every call spends one unit of [fuel]. *)
Fixpoint parse_value (fuel : nat) (s : string) : option (json * string) :=
  match fuel with
  | O => None
  | S f =>
      match s with
      | EmptyString => None
      | String c r =>
          if Ascii.eqb c dquote then
            match parse_string_body r with
            | Some (t, r1) => Some (JStr t, r1)
            | None => None
            end
          else if Ascii.eqb c "[" then
            let r1 := skip_ws r in
            match strip_prefix "]" r1 with
            | Some r2 => Some (JArr [], r2)
            | None =>
                match parse_elements f r1 with
                | Some (vs, r2) => Some (JArr vs, r2)
                | None => None
                end
            end
          else if Ascii.eqb c "{" then
            let r1 := skip_ws r in
            match strip_prefix "}" r1 with
            | Some r2 => Some (JObj [], r2)
            | None =>
                match parse_members f r1 with
                | Some (kvs, r2) => Some (JObj (obj_of_entries kvs), r2)
                | None => None
                end
            end
          else
            match strip_prefix "null" s, strip_prefix "true" s, strip_prefix "false" s with
            | Some r1, _, _ => Some (JNull, r1)
            | _, Some r1, _ => Some (JBool true, r1)
            | _, _, Some r1 => Some (JBool false, r1)
            | None, None, None => parse_number s
            end
      end
  end
with parse_elements (fuel : nat) (s : string) : option (list json * string) :=
  match fuel with
  | O => None
  | S f =>
      match parse_value f (skip_ws s) with
      | Some (v, r) =>
          match skip_ws r with
          | String c r1 =>
              if Ascii.eqb c "," then
                match parse_elements f r1 with
                | Some (vs, r2) => Some (v :: vs, r2)
                | None => None
                end
              else if Ascii.eqb c "]" then Some ([v], r1)
              else None
          | EmptyString => None
          end
      | None => None
      end
  end
with parse_members (fuel : nat) (s : string) : option (list (string * json) * string) :=
  match fuel with
  | O => None
  | S f =>
      match skip_ws s with
      | String c r =>
          if Ascii.eqb c dquote then
            match parse_string_body r with
            | Some (k, r1) =>
                match strip_prefix ":" (skip_ws r1) with
                | Some r2 =>
                    match parse_value f (skip_ws r2) with
                    | Some (v, r3) =>
                        match skip_ws r3 with
                        | String d r4 =>
                            if Ascii.eqb d "," then
                              match parse_members f r4 with
                              | Some (kvs, r5) => Some ((k, v) :: kvs, r5)
                              | None => None
                              end
                            else if Ascii.eqb d "}" then Some ([(k, v)], r4)
                            else None
                        | EmptyString => None
                        end
                    | None => None
                    end
                | None => None
                end
            | None => None
            end
          else None
      | EmptyString => None
      end
  end.

(** [JSON.parse(text)]: one value between optional white space; anything
    else is a [SyntaxError]. *)
Definition JSON_parse (text : string) : outcome json :=
  match parse_value (2 * String.length text + 2) (skip_ws text) with
  | Some (v, r) =>
      match skip_ws r with
      | EmptyString => Returns v
      | _ => Throws SyntaxError
      end
  | None => Throws SyntaxError
  end.

(** The string a value turns into inside a template literal.  An object is
    converted by its [toString]: for an object that [JSON.parse] made this
    is the method of [Object.prototype], unless the object has a key
    [toString] of its own.  The value of such a key is no function, and
    [valueOf] gives no primitive value either, so the conversion throws a
    TypeError.  An array joins what its elements turn into. *)
Fixpoint js_to_string (v : json) : outcome string :=
  match v with
  | JNull => Returns "null"
  | JBool true => Returns "true"
  | JBool false => Returns "false"
  | JNum z => Returns (print_Z z)
  | JReal lexeme => Returns lexeme
  | JStr s => Returns s
  | JArr items =>
      omap (join_with ",")
        (omapM (fun x => match x with JNull => Returns "" | _ => js_to_string x end) items)
  | JObj entries =>
      if existsb (fun kv => String.eqb (fst kv) "toString") entries
      then Throws TypeError
      else Returns "[object Object]"
  end.

(** [value.key] on a parsed value: reading a property of [null] throws, a
    missing property is [undefined]; a later duplicate has already replaced
    an earlier one in [obj_of_entries]. *)
Definition get_property (v : json) (key : string) : outcome (option json) :=
  match v with
  | JNull => Throws TypeError
  | JObj entries =>
      Returns (option_map snd (List.find (fun kv => String.eqb (fst kv) key) entries))
  | _ => Returns None
  end.

(** ** SHA-256 ([createHash('sha256').update(s).digest('hex')])

    FIPS 180-4 on 32-bit words held in [N]. *)

Module SHA256.
Local Open Scope N_scope.

Definition w32 (x : N) : N := x mod 4294967296.
Definition add32 (x y : N) : N := w32 (x + y).
Definition rotr (n x : N) : N := w32 (N.lor (N.shiftr x n) (N.shiftl x (32 - n))).
Definition not32 (x : N) : N := 4294967295 - x.

Definition Ch (x y z : N) : N := N.lxor (N.land x y) (N.land (not32 x) z).
Definition Maj (x y z : N) : N :=
  N.lxor (N.lxor (N.land x y) (N.land x z)) (N.land y z).
Definition Sigma0 (x : N) : N := N.lxor (N.lxor (rotr 2 x) (rotr 13 x)) (rotr 22 x).
Definition Sigma1 (x : N) : N := N.lxor (N.lxor (rotr 6 x) (rotr 11 x)) (rotr 25 x).
Definition sigma0 (x : N) : N := N.lxor (N.lxor (rotr 7 x) (rotr 18 x)) (N.shiftr x 3).
Definition sigma1 (x : N) : N := N.lxor (N.lxor (rotr 17 x) (rotr 19 x)) (N.shiftr x 10).

Definition K : list N := [
    1116352408; 1899447441; 3049323471; 3921009573;
    961987163; 1508970993; 2453635748; 2870763221;
    3624381080; 310598401; 607225278; 1426881987;
    1925078388; 2162078206; 2614888103; 3248222580;
    3835390401; 4022224774; 264347078; 604807628;
    770255983; 1249150122; 1555081692; 1996064986;
    2554220882; 2821834349; 2952996808; 3210313671;
    3336571891; 3584528711; 113926993; 338241895;
    666307205; 773529912; 1294757372; 1396182291;
    1695183700; 1986661051; 2177026350; 2456956037;
    2730485921; 2820302411; 3259730800; 3345764771;
    3516065817; 3600352804; 4094571909; 275423344;
    430227734; 506948616; 659060556; 883997877;
    958139571; 1322822218; 1537002063; 1747873779;
    1955562222; 2024104815; 2227730452; 2361852424;
    2428436474; 2756734187; 3204031479; 3329325298 ].

(** The eight working words. *)
Record state : Type := mk {
  a : N; b : N; c : N; d : N; e : N; f : N; g : N; h : N
}.

Definition H0 : state :=
  mk 1779033703 3144134277 1013904242 2773480762
     1359893119 2600822924 528734635 1541459225.

Fixpoint bytes_of (s : string) : list N :=
  match s with
  | EmptyString => []
  | String ch r => N_of_ascii ch :: bytes_of r
  end.

(** Big-endian bytes of [x], [n] of them. *)
Fixpoint be_bytes (n : nat) (x : N) : list N :=
  match n with
  | O => []
  | S k => (N.shiftr x (8 * N.of_nat k)) mod 256 :: be_bytes k x
  end.

(** Message padding: a one bit, zeros up to 56 modulo 64, the bit length. *)
Definition pad (msg : list N) : list N :=
  let len := N.of_nat (length msg) in
  let zeros := N.to_nat ((119 - len mod 64) mod 64) in
  msg ++ [128] ++ repeat 0 zeros ++ be_bytes 8 (8 * len).

Fixpoint words_of (n : nat) (bytes : list N) : list N :=
  match n with
  | O => []
  | S k =>
      match bytes with
      | b0 :: b1 :: b2 :: b3 :: rest =>
          (((b0 * 256 + b1) * 256 + b2) * 256 + b3) :: words_of k rest
      | _ => []
      end
  end.

(** The message schedule, latest word first. *)
Fixpoint schedule (n : nat) (w : list N) : list N :=
  match n with
  | O => w
  | S k =>
      let x :=
        add32 (add32 (sigma1 (nth 1 w 0)) (nth 6 w 0))
              (add32 (sigma0 (nth 14 w 0)) (nth 15 w 0)) in
      schedule k (x :: w)
  end.

Definition round (s : state) (kw : N * N) : state :=
  let t1 :=
    add32 (add32 (add32 (h s) (Sigma1 (e s))) (Ch (e s) (f s) (g s)))
          (add32 (fst kw) (snd kw)) in
  let t2 := add32 (Sigma0 (a s)) (Maj (a s) (b s) (c s)) in
  mk (add32 t1 t2) (a s) (b s) (c s) (add32 (d s) t1) (e s) (f s) (g s).

Definition compress (s : state) (block : list N) : state :=
  let w := rev (schedule 48 (rev (words_of 16 block))) in
  let r := fold_left round (combine K w) s in
  mk (add32 (a s) (a r)) (add32 (b s) (b r)) (add32 (c s) (c r)) (add32 (d s) (d r))
     (add32 (e s) (e r)) (add32 (f s) (f r)) (add32 (g s) (g r)) (add32 (h s) (h r)).

Fixpoint blocks (n : nat) (s : state) (bytes : list N) : state :=
  match n with
  | O => s
  | S k => blocks k (compress s (firstn 64 bytes)) (skipn 64 bytes)
  end.

Definition digest (msg : string) : state :=
  let bytes := pad (bytes_of msg) in
  blocks (length bytes / 64) H0 bytes.

Definition hex8 (x : N) (rest : string) : string :=
  String (hex_digit ((x / 268435456) mod 16))
  (String (hex_digit ((x / 16777216) mod 16))
  (String (hex_digit ((x / 1048576) mod 16))
  (String (hex_digit ((x / 65536) mod 16))
  (String (hex_digit ((x / 4096) mod 16))
  (String (hex_digit ((x / 256) mod 16))
  (String (hex_digit ((x / 16) mod 16))
  (String (hex_digit (x mod 16)) rest))))))).

Definition hex (msg : string) : string :=
  let s := digest msg in
  hex8 (a s) (hex8 (b s) (hex8 (c s) (hex8 (d s)
    (hex8 (e s) (hex8 (f s) (hex8 (g s) (hex8 (h s) ""))))))).

End SHA256.

(** ** POSIX [path]: [normalizeString], [normalize], [join], [resolve] *)

Fixpoint split_on (sep : ascii) (s : string) : list string :=
  match s with
  | EmptyString => [""]
  | String c r =>
      if Ascii.eqb c sep then "" :: split_on sep r
      else
        match split_on sep r with
        | x :: xs => String c x :: xs
        | [] => [String c ""]
        end
  end.

(** The segment stack of [normalizeString]: empty and [.] segments are
    dropped, [..] pops the last segment (or, above the start of a relative
    path, is kept when [allowAboveRoot]). The stack is kept innermost
    first. *)
Fixpoint normalize_segments (allowAboveRoot : bool) (stack segs : list string) : list string :=
  match segs with
  | [] => rev stack
  | seg :: rest =>
      if (String.eqb seg "" || String.eqb seg ".")%bool then
        normalize_segments allowAboveRoot stack rest
      else if String.eqb seg ".." then
        match stack with
        | [] =>
            normalize_segments allowAboveRoot (if allowAboveRoot then [".."] else []) rest
        | top :: stack' =>
            if String.eqb top ".." then
              normalize_segments allowAboveRoot
                (if allowAboveRoot then ".." :: stack else stack) rest
            else normalize_segments allowAboveRoot stack' rest
        end
      else normalize_segments allowAboveRoot (seg :: stack) rest
  end.

Definition normalizeString (path : string) (allowAboveRoot : bool) : string :=
  join_with "/" (normalize_segments allowAboveRoot [] (split_on slash path)).

Definition isAbsolute (path : string) : bool :=
  match path with
  | String c _ => Ascii.eqb c slash
  | EmptyString => false
  end.

Fixpoint ends_with_slash (path : string) : bool :=
  match path with
  | EmptyString => false
  | String c EmptyString => Ascii.eqb c slash
  | String _ r => ends_with_slash r
  end.

Definition normalize (path : string) : string :=
  if String.eqb path "" then "."
  else
    let trailingSeparator := ends_with_slash path in
    let p := normalizeString path (negb (isAbsolute path)) in
    if String.eqb p "" then
      if isAbsolute path then "/" else if trailingSeparator then "./" else "."
    else
      let p := if trailingSeparator then p +:+ "/" else p in
      if isAbsolute path then "/" +:+ p else p.

(** [path.join(...args)]. *)
Definition join (args : list string) : string :=
  match List.filter truthy_string args with
  | [] => "."
  | parts => normalize (join_with "/" parts)
  end.

(** The state of the process that the code reads: its working directory
    ([process.cwd()]), which is an absolute path. *)
Class Process := {
  process_cwd : string;
  process_cwd_absolute : isAbsolute process_cwd = true
}.

Section Resolver.
Context `{Process}.

(** The right-to-left loop of [path.resolve]: arguments are prepended until
    an absolute one is met; the working directory is the last resort. *)
Fixpoint resolve_loop (rev_args : list string) (resolvedPath : string) : string * bool :=
  match rev_args with
  | [] =>
      if String.eqb process_cwd "" then (resolvedPath, false)
      else (process_cwd +:+ "/" +:+ resolvedPath, isAbsolute process_cwd)
  | path :: rest =>
      if String.eqb path "" then resolve_loop rest resolvedPath
      else
        let resolvedPath := path +:+ "/" +:+ resolvedPath in
        if isAbsolute path then (resolvedPath, true) else resolve_loop rest resolvedPath
  end.

(** [path.resolve(...args)]. *)
Definition resolve (args : list string) : string :=
  let '(resolvedPath, resolvedAbsolute) := resolve_loop (rev args) "" in
  let resolvedPath := normalizeString resolvedPath (negb resolvedAbsolute) in
  if resolvedAbsolute then "/" +:+ resolvedPath
  else if String.eqb resolvedPath "" then "." else resolvedPath.

(** ** The file system seen by [existsSync] and [readFileSync]

    A finite map from absolute paths to what is there.  [NoAccess] is an
    entry that can be seen but not read. *)
Inductive fsnode : Type :=
| Dir
| File (content : string)
| NoAccess.

Definition existsSync (fs : gmap string fsnode) (path : string) : bool :=
  match fs !! path with
  | Some _ => true
  | None => false
  end.

Definition readFileSync (fs : gmap string fsnode) (path : string) : outcome string :=
  match fs !! path with
  | Some (File content) => Returns content
  | Some Dir => Throws (FsError "EISDIR")
  | Some NoAccess => Throws (FsError "EACCES")
  | None => Throws (FsError "ENOENT")
  end.

(** ** context.ts *)

Definition hashString (input : string) : string :=
  substring 0 16 (SHA256.hex input).

Definition replace_backslashes (s : string) : string :=
  map_string (fun c => if Ascii.eqb c backslash then slash else c) s.

Definition hashPath (path : string) : string :=
  let normalized := replace_backslashes (toLowerCase (resolve [path])) in
  hashString normalized.

(** The [while (currentPath !== root)] loop of [findGitRoot] and
    [findPackageJson]; [found] tells what to return for a hit. *)
Fixpoint find_up (fuel : nat) (fs : gmap string fsnode) (marker : string)
    (found : string -> string -> string) (root currentPath : string)
    : outcome (option string) :=
  match fuel with
  | O => Diverges
  | S fuel' =>
      if negb (String.eqb currentPath root) then
        let markerPath := join [currentPath; marker] in
        if existsSync fs markerPath then Returns (Some (found currentPath markerPath))
        else find_up fuel' fs marker found root (resolve [currentPath; ".."])
      else Returns None
  end.

Definition findGitRoot (fs : gmap string fsnode) (startPath : string) : outcome (option string) :=
  let currentPath := resolve [startPath] in
  let root := resolve ["/"] in
  find_up (S (String.length currentPath)) fs ".git"
    (fun currentPath gitPath => currentPath) root currentPath.

Definition findPackageJson (fs : gmap string fsnode) (startPath : string) : outcome (option string) :=
  let currentPath := resolve [startPath] in
  let root := resolve ["/"] in
  find_up (S (String.length currentPath)) fs "package.json"
    (fun currentPath packagePath => packagePath) root currentPath.

(** A path or [null] used as a condition. *)
Definition truthy_path (p : option string) : option string :=
  match p with
  | Some s => if truthy_string s then Some s else None
  | None => None
  end.

(** [packageJson.name || 'unknown'] inside the template literal. *)
Definition name_or (dflt : string) (name : option json) : outcome string :=
  match name with
  | Some v => if truthy v then js_to_string v else Returns dflt
  | None => Returns dflt
  end.

(** The string that [detectProjectId] feeds to SHA-256. *)
Definition detectProjectId_input (fs : gmap string fsnode) (cwd : string) : outcome string :=
  let* gitRoot := findGitRoot fs cwd in
  match truthy_path gitRoot with
  | Some gitRoot =>
      Returns (replace_backslashes (toLowerCase (resolve [gitRoot])))
  | None =>
      let* packageJsonPath := findPackageJson fs cwd in
      match truthy_path packageJsonPath with
      | Some packageJsonPath =>
          let* text := readFileSync fs packageJsonPath in
          let* packageJson := JSON_parse text in
          let* name := get_property packageJson "name" in
          let* shown := name_or "unknown" name in
          Returns (shown +:+ ":" +:+ packageJsonPath)
      | None =>
          Returns (replace_backslashes (toLowerCase (resolve [resolve [cwd]])))
      end
  end.

Definition detectProjectId (fs : gmap string fsnode) (cwd : string) : outcome string :=
  let* gitRoot := findGitRoot fs cwd in
  match truthy_path gitRoot with
  | Some gitRoot => Returns (hashPath gitRoot)
  | None =>
      let* packageJsonPath := findPackageJson fs cwd in
      match truthy_path packageJsonPath with
      | Some packageJsonPath =>
          let* text := readFileSync fs packageJsonPath in
          let* packageJson := JSON_parse text in
          let* name := get_property packageJson "name" in
          let* shown := name_or "unknown" name in
          let identifier := shown +:+ ":" +:+ packageJsonPath in
          Returns (hashString identifier)
      | None => Returns (hashPath (resolve [cwd]))
      end
  end.

(** [getProjectId(cwd = process.cwd())] with the module-level
    [projectIdCache] threaded through: the result and the cache after the
    call.  A call that throws leaves the cache as it was. *)
Definition getProjectId (cache : gmap string string) (fs : gmap string fsnode)
    (cwd : option string) : outcome (string * gmap string string) :=
  let cwd := default process_cwd cwd in
  match truthy_path (cache !! cwd) with
  | Some cached => Returns (cached, cache)
  | None =>
      let* projectId := detectProjectId fs cwd in
      Returns (projectId, <[cwd := projectId]> cache)
  end.

Definition clearProjectCache (cache : gmap string string) : gmap string string := ∅.

(** [s.split(/[/\\]/).pop()]: the part after the last separator. *)
Fixpoint last_component (acc s : string) : string :=
  match s with
  | EmptyString => acc
  | String c r =>
      if (Ascii.eqb c slash || Ascii.eqb c backslash)%bool then last_component "" r
      else last_component (acc +:+ String c "") r
  end.

(** The [try { ... } catch { }] around the manifest read of
    [getProjectName]: an exception is dropped, a loop that does not return
    is not. *)
Definition try_catch {A} (body : outcome A) (handler : outcome A) : outcome A :=
  match body with
  | Throws _ => handler
  | other => other
  end.

Definition getProjectName (fs : gmap string fsnode) (cwd : option string) : outcome json :=
  let cwd := default process_cwd cwd in
  let* packageJsonPath := findPackageJson fs cwd in
  let* fromManifest :=
    match truthy_path packageJsonPath with
    | Some packageJsonPath =>
        try_catch
          (let* text := readFileSync fs packageJsonPath in
           let* packageJson := JSON_parse text in
           let* name := get_property packageJson "name" in
           Returns (match name with
                    | Some v => if truthy v then Some v else None
                    | None => None
                    end))
          (Returns None)
    | None => Returns None
    end in
  match fromManifest with
  | Some name => Returns name
  | None =>
      let* gitRoot := findGitRoot fs cwd in
      match truthy_path gitRoot with
      | Some gitRoot =>
          Returns (let n := last_component "" gitRoot in
                   JStr (if truthy_string n then n else "unknown-project"))
      | None =>
          Returns (let n := last_component "" cwd in
                   JStr (if truthy_string n then n else "unknown-project"))
      end
  end.

End Resolver.

(** ** The [memories] table

    One row of the table ([DatabaseRow]) and the object handed to and
    returned by the store ([Memory]). *)

Module DatabaseRow.
Record t : Type := mk {
  id : Z;
  project_id : option string;
  content : string;
  type : string;
  source : string;
  tags : option string;
  metadata : option string;
  created_at : string;
  updated_at : string
}.
End DatabaseRow.

Module Memory.
Record t : Type := mk {
  id : option Z;
  projectId : option string;
  content : string;
  type : string;
  source : string;
  tags : option json;
  metadata : option json;
  createdAt : option string;
  updatedAt : option string
}.
End Memory.

(** The database file: the rows in rowid order and the AUTOINCREMENT
    high-water mark kept in [sqlite_sequence]. *)
Record Database : Type := {
  rows : list DatabaseRow.t;
  seq : Z
}.

Definition empty_db : Database := {| rows := []; seq := 0 |}.

Record MemoryStoreOptions : Type := {
  opt_dbPath : option string;
  opt_projectId : option string;
  opt_globalMode : option bool
}.

(** The fields of a [MemoryStore] instance other than its connection; the
    database the connection points at is passed to every operation, so that
    several instances can work on one file. *)
Record MemoryStore : Type := {
  projectId : option string;
  globalMode : bool
}.

Record QueryOptions : Type := {
  opt_type : option string;
  opt_limit : option Z
}.

Definition no_options : QueryOptions := {| opt_type := None; opt_limit := None |}.

Record Stats : Type := {
  total : nat;
  byType : gmap string nat;
  stats_projectId : option string
}.

(** *** SQL *)

(** The CHECK constraint of the [type] column:
    [type IN ('fact', 'decision', 'code', 'config', 'note')]. *)
Definition memory_types : list string :=
  ["fact"; "decision"; "code"; "config"; "note"].

Definition type_check (t : string) : bool :=
  existsb (String.eqb t) memory_types.

(** The message of SQLite for a row that fails the CHECK: the text of the
    constraint as the schema has it. *)
Definition check_failed : string :=
  "CHECK constraint failed: type IN ('fact', 'decision', 'code', 'config', 'note')".

(** The texts of SQLite are UTF-8, and its [LIKE] reads them character by
    character ([sqlite3Utf8Read]): a byte from [C0] on begins a character
    that goes on with the bytes from [80] to [BF] that follow it, and every
    other byte is a character by itself. *)
Definition is_lead (c : ascii) : bool := (192 <=? char_code c)%N.

Definition is_continuation (c : ascii) : bool :=
  ((128 <=? char_code c) && (char_code c <? 192))%N.

Fixpoint skip_continuation (s : string) : string :=
  match s with
  | EmptyString => EmptyString
  | String c rest => if is_continuation c then skip_continuation rest else s
  end.

(** What is left of a text after its first character [c]. *)
Definition after_char (c : ascii) (rest : string) : string :=
  if is_lead c then skip_continuation rest else rest.

(** [test] holds of the text from one of its characters on, or of the
    empty text at its end; [inside] tells that the bytes before belong to
    a character of several bytes. *)
Fixpoint at_some_character (test : string -> bool) (inside : bool) (s : string) : bool :=
  match s with
  | EmptyString => test EmptyString
  | String d s' =>
      if (inside && is_continuation d)%bool then at_some_character test true s'
      else (test s || at_some_character test (is_lead d) s')%bool
  end.

(** SQLite's [LIKE]: [%] matches any run of characters, [_] any one
    character, and any other character matches itself, a letter of ASCII
    also in the other case.  (A pattern of more than 50000 bytes is an
    error of SQLite; [accepted_query] below tells the queries that it
    takes.) *)
Fixpoint like (pattern s : string) : bool :=
  match pattern with
  | EmptyString =>
      match s with EmptyString => true | String _ _ => false end
  | String c pattern' =>
      if Ascii.eqb c "%" then at_some_character (like pattern') false s
      else
        match s with
        | EmptyString => false
        | String d s' =>
            if Ascii.eqb c "_" then like pattern' (after_char d s')
            else (Ascii.eqb (lower_char c) (lower_char d) && like pattern' s')%bool
        end
  end.

(** [column = ?] on a nullable text column: NULL equals nothing. *)
Definition sql_eq (column : option string) (param : string) : bool :=
  match column with
  | Some v => String.eqb v param
  | None => false
  end.

(** [ORDER BY created_at DESC]: newest first.  SQL leaves the order of rows
    with equal time stamps open, and SQLite hands them out in the order of
    the plan it chose for the query; here the later row comes first. *)
Fixpoint insert_desc (r : DatabaseRow.t) (l : list DatabaseRow.t) : list DatabaseRow.t :=
  match l with
  | [] => [r]
  | x :: xs =>
      if String.ltb (DatabaseRow.created_at x) (DatabaseRow.created_at r)
      then r :: l
      else x :: insert_desc r xs
  end.

Definition order_by_created_at_desc (l : list DatabaseRow.t) : list DatabaseRow.t :=
  fold_right insert_desc [] l.

(** [LIMIT ?] for a bound that is an integer of 64 bits: a negative bound
    is no bound.  For a number that is no such integer SQLite raises an
    error; [accepted_limit] below tells the bounds that it takes. *)
Definition sql_limit (n : Z) (l : list DatabaseRow.t) : list DatabaseRow.t :=
  if n <? 0 then l else firstn (Z.to_nat n) l.

(** A JavaScript number used as a condition (integers only). *)
Definition truthy_number (n : Z) : bool := negb (n =? 0).

Fixpoint max_rowid (l : list DatabaseRow.t) : Z :=
  match l with
  | [] => 0
  | r :: l' => Z.max (DatabaseRow.id r) (max_rowid l')
  end.

(** The rowid AUTOINCREMENT gives to the next row. *)
Definition next_rowid (db : Database) : Z :=
  Z.max (seq db) (max_rowid (rows db)) + 1.

(** *** storage.ts *)

(** The argument of the constructor: nothing, the legacy path string, or an
    options object. *)
Inductive constructor_arg : Type :=
| NoArg
| LegacyPath (dbPath : string)
| Options (options : MemoryStoreOptions).

(** [initialize()]: every statement is CREATE ... IF NOT EXISTS, so a file
    that already holds the table is left as it is and a new file gets the
    empty table. *)
Definition initialize (file : option Database) : Database :=
  match file with
  | Some db => db
  | None => empty_db
  end.

Section Storage.
Context `{Process}.

(** [new MemoryStore(options)].  The database file found at the chosen path
    ([None] when there is none yet) is passed in; creating the default
    directory is not modelled.  [getProjectId()] is only called when the
    store is not global and no project id was given. *)
Definition new_MemoryStore (cache : gmap string string) (fs : gmap string fsnode)
    (file : option Database) (options : constructor_arg)
    : outcome (MemoryStore * Database * gmap string string) :=
  let opts :=
    match options with
    | LegacyPath p =>
        {| opt_dbPath := Some p; opt_projectId := None; opt_globalMode := None |}
    | Options o => o
    | NoArg => {| opt_dbPath := None; opt_projectId := None; opt_globalMode := None |}
    end in
  let globalMode := default false (opt_globalMode opts) in
  let* (projectId, cache) :=
    if globalMode then Returns (None, cache)
    else
      match or_string (opt_projectId opts) None with
      | Some p => Returns (Some p, cache)
      | None =>
          let* (p, cache) := getProjectId cache fs None in
          Returns (Some p, cache)
      end in
  Returns ({| projectId := projectId; globalMode := globalMode |},
           initialize file, cache).

(** [value ? JSON.stringify(value) : null]. *)
Definition stringify_or_null (value : option json) : option string :=
  match value with
  | Some v => if truthy v then Some (JSON_stringify v) else None
  | None => None
  end.

(** [add(memory)].  [now] is the value of CURRENT_TIMESTAMP.  Returns the
    outcome of the call and the database after it; the INSERT fails as a
    whole when the CHECK constraint on [type] does. *)
Definition add (this : MemoryStore) (now : string) (memory : Memory.t) (db : Database)
    : outcome Z * Database :=
  let projectId := or_string (Memory.projectId memory) (projectId this) in
  if type_check (Memory.type memory) then
    let id := next_rowid db in
    let row := {|
      DatabaseRow.id := id;
      DatabaseRow.project_id := projectId;
      DatabaseRow.content := Memory.content memory;
      DatabaseRow.type := Memory.type memory;
      DatabaseRow.source := Memory.source memory;
      DatabaseRow.tags := stringify_or_null (Memory.tags memory);
      DatabaseRow.metadata := stringify_or_null (Memory.metadata memory);
      DatabaseRow.created_at := now;
      DatabaseRow.updated_at := now
    |} in
    (Returns id, {| rows := rows db ++ [row]; seq := id |})
  else
    (Throws (SQLiteError check_failed), db).

(** [text ? JSON.parse(text) : undefined]. *)
Definition parse_or_undefined (text : option string) : outcome (option json) :=
  match text with
  | Some s => if truthy_string s then omap Some (JSON_parse s) else Returns None
  | None => Returns None
  end.

Definition rowToMemory (row : DatabaseRow.t) : outcome Memory.t :=
  let* tags := parse_or_undefined (DatabaseRow.tags row) in
  let* metadata := parse_or_undefined (DatabaseRow.metadata row) in
  Returns {|
    Memory.id := Some (DatabaseRow.id row);
    Memory.projectId := DatabaseRow.project_id row;
    Memory.content := DatabaseRow.content row;
    Memory.type := DatabaseRow.type row;
    Memory.source := DatabaseRow.source row;
    Memory.tags := tags;
    Memory.metadata := metadata;
    Memory.createdAt := Some (DatabaseRow.created_at row);
    Memory.updatedAt := Some (DatabaseRow.updated_at row)
  |}.

(** The condition [!this.globalMode && this.projectId]: the project id to
    filter on, if any. *)
Definition isolation (this : MemoryStore) : option string :=
  if globalMode this then None
  else
    match projectId this with
    | Some p => if truthy_string p then Some p else None
    | None => None
    end.

(** The clause [AND project_id = ?], added when [isolation] says so. *)
Definition in_scope (this : MemoryStore) (row : DatabaseRow.t) : bool :=
  match isolation this with
  | Some p => sql_eq (DatabaseRow.project_id row) p
  | None => true
  end.

(** The clause [AND type = ?], added when [options?.type] is truthy. *)
Definition type_clause (options : QueryOptions) (row : DatabaseRow.t) : bool :=
  match opt_type options with
  | Some t => if truthy_string t then String.eqb (DatabaseRow.type row) t else true
  | None => true
  end.

(** The clause [LIMIT ?], added when [options?.limit] is truthy. *)
Definition limit_clause (options : QueryOptions) (l : list DatabaseRow.t) : list DatabaseRow.t :=
  match opt_limit options with
  | Some n => if truthy_number n then sql_limit n l else l
  | None => l
  end.

Definition get (this : MemoryStore) (id : Z) (db : Database) : outcome (option Memory.t) :=
  let row :=
    List.find (fun r => (DatabaseRow.id r =? id) && in_scope this r)%bool (rows db) in
  match row with
  | Some row => omap Some (rowToMemory row)
  | None => Returns None
  end.

(** The rows selected by [search], before they are turned into memories. *)
Definition search_rows (this : MemoryStore) (query : string) (options : QueryOptions)
    (db : Database) : list DatabaseRow.t :=
  let where_ (r : DatabaseRow.t) :=
    (like ("%" +:+ query +:+ "%") (DatabaseRow.content r)
     && in_scope this r && type_clause options r)%bool in
  limit_clause options (order_by_created_at_desc (List.filter where_ (rows db))).

Definition search (this : MemoryStore) (query : string) (options : QueryOptions)
    (db : Database) : outcome (list Memory.t) :=
  omapM rowToMemory (search_rows this query options db).

(** The rows selected by [list]. *)
Definition list_rows (this : MemoryStore) (options : QueryOptions) (db : Database)
    : list DatabaseRow.t :=
  let where_ (r : DatabaseRow.t) := (in_scope this r && type_clause options r)%bool in
  limit_clause options (order_by_created_at_desc (List.filter where_ (rows db))).

Definition list_ (this : MemoryStore) (options : QueryOptions) (db : Database)
    : outcome (list Memory.t) :=
  omapM rowToMemory (list_rows this options db).

(** [delete(id)]: runs the DELETE and returns [true]. *)
Definition delete (this : MemoryStore) (id : Z) (db : Database) : outcome bool * Database :=
  let doomed (r : DatabaseRow.t) := ((DatabaseRow.id r =? id) && in_scope this r)%bool in
  (Returns true,
   {| rows := List.filter (fun r => negb (doomed r)) (rows db); seq := seq db |}).

Definition clear (this : MemoryStore) (db : Database) : outcome nat * Database :=
  let count := length (List.filter (in_scope this) (rows db)) in
  (Returns count,
   {| rows := List.filter (fun r => negb (in_scope this r)) (rows db); seq := seq db |}).

(** [SELECT type, COUNT( * ) ... GROUP BY type] turned into an object by
    [Object.fromEntries]. *)
Definition count_by_type (l : list DatabaseRow.t) : gmap string nat :=
  fold_right
    (fun r m => <[DatabaseRow.type r := S (default O (m !! DatabaseRow.type r))]> m)
    ∅ l.

Definition stats (this : MemoryStore) (db : Database) : outcome Stats :=
  let visible := List.filter (in_scope this) (rows db) in
  Returns {|
    total := length visible;
    byType := count_by_type visible;
    stats_projectId := or_string (projectId this) None
  |}.

(** [getProjectId()] of the store. *)
Definition MemoryStore_getProjectId (this : MemoryStore) : option string :=
  projectId this.

(** [SELECT project_id, COUNT( * ) ... WHERE project_id IS NOT NULL GROUP BY
    project_id ORDER BY count DESC]. *)
Fixpoint bump (p : string) (l : list (string * nat)) : list (string * nat) :=
  match l with
  | [] => [(p, 1%nat)]
  | (q, n) :: l' => if String.eqb p q then (q, S n) :: l' else (q, n) :: bump p l'
  end.

(** The place of a group in the result: GROUP BY hands the groups out by
    ascending [project_id], and ORDER BY count DESC keeps that order among
    groups of equal count. *)
Definition outranks (e x : string * nat) : bool :=
  ((snd x <? snd e)%nat || ((snd x =? snd e)%nat && String.ltb (fst e) (fst x)))%bool.

Fixpoint insert_by_count (e : string * nat) (l : list (string * nat)) : list (string * nat) :=
  match l with
  | [] => [e]
  | x :: xs => if outranks e x then e :: l else x :: insert_by_count e xs
  end.

Definition getAllProjects (db : Database) : list (string * nat) :=
  let groups :=
    fold_left
      (fun acc r =>
         match DatabaseRow.project_id r with
         | Some p => bump p acc
         | None => acc
         end)
      (rows db) [] in
  fold_right insert_by_count [] groups.

End Storage.

(** ** Values that survive [JSON.stringify] and [JSON.parse]

    In this model a value is JSON-serializable when it holds no [JReal] and
    no object with a repeated key.  [fuel_needed] is the recursion depth
    the parser spends on the printed value; [number_end], [value_end] and
    [value_start] describe the characters around a printed value. *)

Definition number_end (rest : string) : bool :=
  match rest with
  | EmptyString => true
  | String c _ =>
      negb (is_digit c || Ascii.eqb c "." || Ascii.eqb c "e" || Ascii.eqb c "E")%bool
  end.

(** No key occurs twice. *)
Fixpoint distinct (l : list string) : bool :=
  match l with
  | [] => true
  | k :: l' => (negb (existsb (String.eqb k) l') && distinct l')%bool
  end.

Fixpoint serializable (v : json) : bool :=
  match v with
  | JNull | JBool _ | JNum _ | JStr _ => true
  | JReal _ => false
  | JArr items => forallb serializable items
  | JObj entries =>
      (distinct (List.map fst entries) &&
       forallb (fun kv => serializable (snd kv)) entries)%bool
  end.

Fixpoint fuel_needed (v : json) : nat :=
  match v with
  | JArr items => S (fold_right (fun x n => S (Nat.max (fuel_needed x) n)) O items)
  | JObj entries =>
      S (fold_right (fun kv n => S (Nat.max (fuel_needed (snd kv)) n)) O entries)
  | _ => 1%nat
  end.

(** What may follow a value inside printed JSON. *)
Definition value_end (rest : string) : bool :=
  match rest with
  | EmptyString => true
  | String c _ => (Ascii.eqb c "," || Ascii.eqb c "]" || Ascii.eqb c "}")%bool
  end.

(** The characters a printed value can start with. *)
Definition value_start (c : ascii) : bool :=
  (is_digit c || Ascii.eqb c "-" || Ascii.eqb c dquote || Ascii.eqb c "[" ||
   Ascii.eqb c "{" || Ascii.eqb c "n" || Ascii.eqb c "t" || Ascii.eqb c "f")%bool.

(** A printed value followed by [rest] parses back to the value and [rest]. *)
Definition parses_back (v : json) : Prop :=
  serializable v = true ->
  forall (fuel : nat) (rest : string),
    (fuel_needed v <= fuel)%nat -> value_end rest = true ->
    parse_value fuel (JSON_stringify v +:+ rest) = Some (v, rest).

(** Every character of the string satisfies [P]. *)
Fixpoint all_chars (P : ascii -> Prop) (s : string) : Prop :=
  match s with
  | EmptyString => True
  | String c r => P c /\ all_chars P r
  end.

(** The shapes the [Memory] interface gives to [tags] and [metadata]: a
    list of strings or nothing; a JSON-serializable mapping or nothing. *)
Definition tag_list (tags : option json) : Prop :=
  tags = None \/ exists l : list string, tags = Some (JArr (List.map JStr l)).

Definition metadata_mapping (metadata : option json) : Prop :=
  metadata = None \/
  exists entries : list (string * json),
    metadata = Some (JObj entries) /\ serializable (JObj entries) = true.

(** ** Directories above a starting directory

    [resolve] returns [/] followed by the normalized segments joined by
    [/]; [render] writes that form.  The ancestors of a starting directory
    are the directories that the upward walk visits: the resolved directory
    itself, then each parent, the file-system root excluded.
    [ancestors_with_root] adds the root. *)

Definition render (segs : list string) : string := "/" +:+ join_with "/" segs.

Fixpoint no_slash (s : string) : bool :=
  match s with
  | EmptyString => true
  | String c r => (negb (Ascii.eqb c slash) && no_slash r)%bool
  end.

(** A segment that [normalizeString] keeps. *)
Definition clean (s : string) : Prop :=
  no_slash s = true /\ s <> "" /\ s <> "." /\ s <> "..".

Fixpoint ancestors_of_stack (stack : list string) : list string :=
  match stack with
  | [] => []
  | _ :: up => render (rev stack) :: ancestors_of_stack up
  end.

Section Ancestors.
Context `{Process}.

Definition resolved_segments (args : list string) : list string :=
  let '(resolvedPath, resolvedAbsolute) := resolve_loop (rev args) "" in
  normalize_segments (negb resolvedAbsolute) [] (split_on slash resolvedPath).

Definition ancestors (start : string) : list string :=
  ancestors_of_stack (rev (resolved_segments [start])).

Definition ancestors_with_root (start : string) : list string :=
  ancestors start ++ ["/"].

(** The cache holds only what [detectProjectId] computes in the present
    state of the file system. *)
Definition cache_coherent (fs : gmap string fsnode) (cache : gmap string string) : Prop :=
  forall (cwd projectId : string),
    cache !! cwd = Some projectId -> detectProjectId fs cwd = Returns projectId.

End Ancestors.

(** A process started in [/home/user]. *)
Definition sample_process : Process :=
  {| process_cwd := "/home/user"; process_cwd_absolute := eq_refl |}.

(** The monorepo of the specification: a Git root at [/repo] and package
    manifests in two of its packages. *)
Definition monorepo : gmap string fsnode :=
  list_to_map
    [ ("/repo/.git", Dir);
      ("/repo/packages/web/package.json",
       File (JSON_stringify (JObj [("name", JStr "web")])));
      ("/repo/packages/api/package.json",
       File (JSON_stringify (JObj [("name", JStr "api")]))) ].

(** A Git marker in the file-system root itself. *)
Definition git_at_root : gmap string fsnode :=
  list_to_map [ ("/.git", Dir) ].

(** A project without Git whose manifest is named [App]. *)
Definition manifest_project : gmap string fsnode :=
  list_to_map
    [ ("/Proj/package.json", File (JSON_stringify (JObj [("name", JStr "App")]))) ].

(** Projects without Git whose manifest cannot be used: not JSON, the JSON
    value [null], a directory in place of the file, a file that may not be
    read. *)
Definition broken_manifests : gmap string fsnode :=
  list_to_map
    [ ("/bad/package.json", File "not valid json");
      ("/null/package.json", File "null");
      ("/dir/package.json", Dir);
      ("/secret/package.json", NoAccess) ].

(** ** The search predicate in the words of the specification

    "content contains query as a case-insensitive substring": from one of
    the characters of the content on, the content starts with the query,
    letter case aside.  This is what the LIKE pattern of [search] is
    compared with below.  [starts_with_ci] sets aside the case of the
    letters of ASCII; [fold_case] also that of the letters of Latin-1,
    which UTF-8 writes as the byte [C3] and a second byte: the capital
    letters U+00C0 to U+00DE (the sign U+00D7 is none) have the second
    bytes [80] to [9E], and the small letter of each has the second byte
    that is 32 higher. *)

Fixpoint starts_with_ci (q s : string) : bool :=
  match q, s with
  | EmptyString, _ => true
  | String a q', String b s' =>
      (Ascii.eqb (lower_char a) (lower_char b) && starts_with_ci q' s')%bool
  | String _ _, EmptyString => false
  end.

Definition contains_ci (s q : string) : bool :=
  at_some_character (starts_with_ci q) false s.

Definition latin1_capital (b : ascii) : bool :=
  ((128 <=? char_code b) && (char_code b <=? 158) && negb (char_code b =? 151))%N.

Fixpoint fold_case (s : string) : string :=
  match s with
  | EmptyString => EmptyString
  | String a rest =>
      match rest with
      | String b rest' =>
          if (Ascii.eqb a (ascii_of_nat 195) && latin1_capital b)%bool
          then String a (String (ascii_of_N (char_code b + 32)) (fold_case rest'))
          else String (lower_char a) (fold_case rest)
      | EmptyString => String (lower_char a) EmptyString
      end
  end.

(** The query holds none of the two LIKE wildcards. *)
Fixpoint no_wildcards (q : string) : bool :=
  match q with
  | EmptyString => true
  | String c q' =>
      (negb (Ascii.eqb c "%") && negb (Ascii.eqb c "_") && no_wildcards q')%bool
  end.

(** ** Sample data (from storage.test.ts and context.test.ts) *)

Definition store_of (p : string) : MemoryStore :=
  {| projectId := Some p; globalMode := false |}.

Definition global_store : MemoryStore :=
  {| projectId := None; globalMode := true |}.

Definition sample_memory (content type : string) : Memory.t := {|
  Memory.id := None;
  Memory.projectId := None;
  Memory.content := content;
  Memory.type := type;
  Memory.source := "test";
  Memory.tags := None;
  Memory.metadata := None;
  Memory.createdAt := None;
  Memory.updatedAt := None
|}.

Definition with_projectId (p : string) (m : Memory.t) : Memory.t := {|
  Memory.id := Memory.id m;
  Memory.projectId := Some p;
  Memory.content := Memory.content m;
  Memory.type := Memory.type m;
  Memory.source := Memory.source m;
  Memory.tags := Memory.tags m;
  Memory.metadata := Memory.metadata m;
  Memory.createdAt := Memory.createdAt m;
  Memory.updatedAt := Memory.updatedAt m
|}.

Definition with_tags (tags metadata : option json) (m : Memory.t) : Memory.t := {|
  Memory.id := Memory.id m;
  Memory.projectId := Memory.projectId m;
  Memory.content := Memory.content m;
  Memory.type := Memory.type m;
  Memory.source := Memory.source m;
  Memory.tags := tags;
  Memory.metadata := metadata;
  Memory.createdAt := Memory.createdAt m;
  Memory.updatedAt := Memory.updatedAt m
|}.

(** The database after a list of [add] calls, each with its store and its
    time stamp; a call that throws leaves the database as it is. *)
Fixpoint after_adds (calls : list (MemoryStore * string * Memory.t)) (db : Database)
    : Database :=
  match calls with
  | [] => db
  | (this, now, memory) :: rest => after_adds rest (snd (add this now memory db))
  end.

(** The database of the search tests. *)
Definition search_fixture : Database :=
  after_adds
    [ (store_of "test-project-1", "2025-12-01 10:00:00",
       sample_memory "TypeScript is great" "fact");
      (store_of "test-project-1", "2025-12-01 10:00:01",
       sample_memory "I like JavaScript" "note");
      (store_of "test-project-1", "2025-12-01 10:00:02",
       sample_memory "abc" "fact") ]
    empty_db.

(** The database of the search tests of storage.test.ts, with one memory of
    another project. *)
Definition test_search_db : Database :=
  after_adds
    [ (store_of "test-project-1", "2025-12-01 10:00:00",
       sample_memory "TypeScript is awesome" "fact");
      (store_of "test-project-1", "2025-12-01 10:00:01",
       sample_memory "Use TypeScript for type safety" "decision");
      (store_of "test-project-1", "2025-12-01 10:00:02",
       sample_memory "JavaScript is flexible" "fact");
      (store_of "test-project-2", "2025-12-01 10:00:03",
       sample_memory "TypeScript in project 2" "fact") ]
    empty_db.

(** Two memories of project A and one of project B. *)
Definition test_clear_db : Database :=
  after_adds
    [ (store_of "project-A", "2025-12-01 10:00:00", sample_memory "A1" "fact");
      (store_of "project-B", "2025-12-01 10:00:01", sample_memory "B1" "fact");
      (store_of "project-A", "2025-12-01 10:00:02", sample_memory "A2" "note") ]
    empty_db.

(** A project without Git, its manifest two levels above a nested folder. *)
Definition nested_project : gmap string fsnode :=
  list_to_map
    [ ("/tmp/cortex-test/package.json",
       File (JSON_stringify (JObj [("name", JStr "parent-project");
                                   ("version", JStr "1.0.0")]))) ].

(** ** Orders, histories and counts

    What the facts about the store further below are stated with: the
    order of a result, a sequence of writing calls and the database it
    leaves, what an instance can observe, and the counts behind [stats]
    and [getAllProjects]. *)

(** [a] is not older than [b]: the order [ORDER BY created_at DESC] asks
    for.  Time stamps are compared as SQLite compares text, byte by
    byte. *)
Definition newer_or_equal (a b : DatabaseRow.t) : Prop :=
  String.ltb (DatabaseRow.created_at a) (DatabaseRow.created_at b) = false.

(** The same order on the memories handed out. *)
Definition newest_first (ms : list Memory.t) : Prop :=
  StronglySorted
    (fun a b => exists x y, Memory.createdAt a = Some x /\ Memory.createdAt b = Some y /\
                            String.ltb x y = false) ms.

(** One call that writes to the table, through any instance. *)
Inductive call : Type :=
| Add (this : MemoryStore) (now : string) (memory : Memory.t)
| Delete (this : MemoryStore) (id : Z)
| Clear (this : MemoryStore).

Definition run_call (db : Database) (c : call) : Database :=
  match c with
  | Add this now memory => snd (add this now memory db)
  | Delete this id => snd (delete this id db)
  | Clear this => snd (clear this db)
  end.

(** The database after a sequence of calls, the first one first. *)
Definition run (calls : list call) (db : Database) : Database :=
  fold_left run_call calls db.

(** The two instances filter on different project ids. *)
Definition separate (this that : MemoryStore) : Prop :=
  exists p q : string, isolation this = Some p /\ isolation that = Some q /\ p <> q.

(** The instance observes the same in both databases. *)
Definition same_view (that : MemoryStore) (db db' : Database) : Prop :=
  (forall i, get that i db' = get that i db) /\
  (forall q o, search that q o db' = search that q o db) /\
  (forall o, list_ that o db' = list_ that o db) /\
  stats that db' = stats that db.

(** The number of rows of a type, and of a project. *)
Definition rows_of_type (t : string) (l : list DatabaseRow.t) : nat :=
  length (List.filter (fun r => String.eqb (DatabaseRow.type r) t) l).

Definition rows_of_project (p : string) (l : list DatabaseRow.t) : nat :=
  length (List.filter (fun r => sql_eq (DatabaseRow.project_id r) p) l).

(** [project_id IS NOT NULL]. *)
Definition has_project (r : DatabaseRow.t) : bool :=
  match DatabaseRow.project_id r with Some _ => true | None => false end.

(** The sum of the counts of a [byType] object. *)
Definition sum_of_counts (m : gmap string nat) : nat :=
  map_fold (fun _ n acc => (n + acc)%nat) O m.

(** The count listed for a project id, [0] when it is not listed. *)
Fixpoint count_of (q : string) (l : list (string * nat)) : nat :=
  match l with
  | [] => O
  | (k, n) :: l' => if String.eqb q k then n else count_of q l'
  end.

(** [ORDER BY count DESC]. *)
Definition by_count_desc (a b : string * nat) : Prop := (snd b <= snd a)%nat.

(** Rowid order. *)
Definition by_rowid (a b : DatabaseRow.t) : Prop := DatabaseRow.id a < DatabaseRow.id b.

(** The row that [add] inserts under the id [id]. *)
Definition inserted_row (this : MemoryStore) (now : string) (memory : Memory.t)
    (id : Z) : DatabaseRow.t := {|
  DatabaseRow.id := id;
  DatabaseRow.project_id := or_string (Memory.projectId memory) (projectId this);
  DatabaseRow.content := Memory.content memory;
  DatabaseRow.type := Memory.type memory;
  DatabaseRow.source := Memory.source memory;
  DatabaseRow.tags := stringify_or_null (Memory.tags memory);
  DatabaseRow.metadata := stringify_or_null (Memory.metadata memory);
  DatabaseRow.created_at := now;
  DatabaseRow.updated_at := now
|}.

(** The memory that comes back for it. *)
Definition stored_memory (this : MemoryStore) (now : string) (memory : Memory.t)
    (id : Z) : Memory.t := {|
  Memory.id := Some id;
  Memory.projectId := or_string (Memory.projectId memory) (projectId this);
  Memory.content := Memory.content memory;
  Memory.type := Memory.type memory;
  Memory.source := Memory.source memory;
  Memory.tags := Memory.tags memory;
  Memory.metadata := Memory.metadata memory;
  Memory.createdAt := Some now;
  Memory.updatedAt := Some now
|}.

(** The row was inserted by one of the calls and is as that call wrote
    it. *)
Definition written_by (calls : list call) (r : DatabaseRow.t) : Prop :=
  exists (this : MemoryStore) (now : string) (memory : Memory.t),
    In (Add this now memory) calls /\
    type_check (Memory.type memory) = true /\
    r = inserted_row this now memory (DatabaseRow.id r).

(** A value of [tags] or [metadata] that the model prints and parses
    back: absent, or serializable. *)
Definition storable (value : option json) : bool :=
  match value with
  | Some v => serializable v
  | None => true
  end.

Definition well_shaped (c : call) : bool :=
  match c with
  | Add _ _ memory => (storable (Memory.tags memory) && storable (Memory.metadata memory))%bool
  | _ => true
  end.

(** A table that another program has written to: the [tags] of its
    second row are not JSON. *)
Definition foreign_table : Database := {|
  rows :=
    [ inserted_row (store_of "test-project-1") "2025-12-01 10:00:00"
        (sample_memory "written by the store" "fact") 1;
      {| DatabaseRow.id := 2;
         DatabaseRow.project_id := Some "test-project-1";
         DatabaseRow.content := "written by hand";
         DatabaseRow.type := "note";
         DatabaseRow.source := "sqlite3";
         DatabaseRow.tags := Some "a,b";
         DatabaseRow.metadata := None;
         DatabaseRow.created_at := "2025-12-01 10:00:01";
         DatabaseRow.updated_at := "2025-12-01 10:00:01" |} ];
  seq := 2
|}.

(** ** Outcomes of the resolver *)


(** Reading the [name] of a manifest, as [detectProjectId] does it. *)
Definition manifest_name (fs : gmap string fsnode) (packageJsonPath : string)
    : outcome (option json) :=
  let* text := readFileSync fs packageJsonPath in
  let* packageJson := JSON_parse text in
  get_property packageJson "name".

(** A manifest whose name is an object with a key [toString]. *)
Definition name_object_project : gmap string fsnode :=
  list_to_map
    [ ("/obj/package.json",
       File (JSON_stringify (JObj [("name", JObj [("toString", JNum 1)])]))) ].

(** The arguments that SQLite accepts in the two queries: a LIMIT that is
    an integer of 64 bits (a number between [-2^63] and [2^63]), and a LIKE
    pattern of at most 50000 bytes; for a limit with a fraction or out of
    that range, and for a longer pattern, the statement raises an error.
    [search] and [list] are the calls with arguments that SQLite
    accepts. *)
Definition accepted_limit (options : QueryOptions) : bool :=
  match opt_limit options with
  | Some n => ((- 2 ^ 63 <? n) && (n <? 2 ^ 63))%bool
  | None => true
  end.

Definition accepted_query (query : string) : bool :=
  (N.of_nat (String.length ("%" +:+ query +:+ "%")) <=? 50000)%N.

(** ** mcp-server.ts

    The handler of [CallToolRequestSchema].  A request is taken at the
    types of the input schemas that the server publishes for its tools
    (the casts of the handler name the same types); a tool name that is
    none of the four is [Call_other].  The handler works on the one
    instance made when the module is loaded, here [this].  The message of
    an error that the store throws is a text of the runtime; the model
    takes it as a parameter, [message]. *)

Definition newline : string := String (ascii_of_nat 10) "".

Record SearchArguments : Type := {
  search_query : string;
  search_type : option string;
  search_limit : option Z
}.

Record AddArguments : Type := {
  add_content : string;
  add_type : string;
  add_source : string;
  add_tags : option (list string)
}.

Record ListArguments : Type := {
  list_type : option string;
  list_limit : option Z
}.

Inductive CallToolRequest : Type :=
| Call_cortex_search (args : option SearchArguments)
| Call_cortex_add (args : option AddArguments)
| Call_cortex_list (args : option ListArguments)
| Call_cortex_stats
| Call_other (name : string).

(** The [content[0].text] and the [isError] of a result; a result without
    [isError] has [false]. *)
Record CallToolResult : Type := {
  result_text : string;
  isError : bool
}.

(** What the [catch] of the handler can receive: an [Error] that the
    handler made itself, or what the store threw. *)
Inductive thrown : Type :=
| HandlerError (message : string)
| StoreError (e : js_error).

(** [(n as number) || dflt]. *)
Definition number_or (n : option Z) (dflt : Z) : Z :=
  match n with
  | Some n => if truthy_number n then n else dflt
  | None => dflt
  end.

(** A count or an index inside a template literal. *)
Definition print_nat (n : nat) : string := print_N (N.of_nat n).

(** A memory of the search result and of the listing. *)
Definition search_entry (i : nat) (m : Memory.t) : string :=
  print_nat (i + 1) +:+ ". [" +:+ Memory.type m +:+ "] " +:+ Memory.content m +:+ newline +:+
  "   Source: " +:+ Memory.source m +:+ newline +:+
  "   Created: " +:+ default "undefined" (Memory.createdAt m).

Definition list_entry (i : nat) (m : Memory.t) : string :=
  print_nat (i + 1) +:+ ". [" +:+ Memory.type m +:+ "] " +:+ Memory.content m +:+ newline +:+
  "   Source: " +:+ Memory.source m.

Definition search_text (results : list Memory.t) : string :=
  if (0 <? length results)%nat then
    "Found " +:+ print_nat (length results) +:+ " memories:" +:+ newline +:+ newline +:+
    join_with (newline +:+ newline) (imap search_entry results)
  else "No memories found matching your query.".

Definition list_text (memories : list Memory.t) : string :=
  if (0 <? length memories)%nat then
    print_nat (length memories) +:+ " memories:" +:+ newline +:+ newline +:+
    join_with (newline +:+ newline) (imap list_entry memories)
  else "No memories stored yet.".

Definition add_text (id : Z) : string :=
  "✓ Memory added successfully (ID: " +:+ print_Z id +:+ ")".

(** The groups of [stats.byType] in the order in which GROUP BY hands
    them out, taken to be the order of the types. *)
Fixpoint insert_by_type (e : string * nat) (l : list (string * nat)) : list (string * nat) :=
  match l with
  | [] => [e]
  | x :: xs => if String.ltb (fst e) (fst x) then e :: l else x :: insert_by_type e xs
  end.

Definition groups_by_type (m : gmap string nat) : list (string * nat) :=
  fold_right insert_by_type [] (map_to_list m).

(** The order in which JavaScript enumerates the properties of an object:
    the array indices (canonical decimal strings below [2^32 - 1]) in
    ascending order, then the other keys in the order of their creation. *)
Definition array_index (k : string) : option N :=
  match NilEmpty.uint_of_string k with
  | Some u =>
      let n := N.of_uint u in
      if (String.eqb (print_N n) k && (n <? 4294967295)%N)%bool then Some n else None
  | None => None
  end.

Fixpoint insert_by_index {A} (i : N) (e : string * A) (l : list (N * (string * A)))
    : list (N * (string * A)) :=
  match l with
  | [] => [(i, e)]
  | x :: xs => if (i <? fst x)%N then (i, e) :: l else x :: insert_by_index i e xs
  end.

Definition own_properties {A} (created : list (string * A)) : list (string * A) :=
  let indexed :=
    fold_right
      (fun e acc =>
         match array_index (fst e) with
         | Some i => insert_by_index i e acc
         | None => acc
         end) [] created in
  List.map snd indexed ++
  List.filter (fun e => match array_index (fst e) with Some _ => false | None => true end)
    created.

(** [Object.entries(stats.byType)]. *)
Definition Object_entries (m : gmap string nat) : list (string * nat) :=
  own_properties (groups_by_type m).

Definition stats_text (s : Stats) : string :=
  let typeBreakdown :=
    join_with newline
      (List.map (fun '(type, count) => "  " +:+ type +:+ ": " +:+ print_nat count)
         (Object_entries (byType s))) in
  "📊 Cortex Memory Statistics" +:+ newline +:+ newline +:+
  "Total memories: " +:+ print_nat (total s) +:+ newline +:+ newline +:+
  "By type:" +:+ newline +:+
  (if truthy_string typeBreakdown then typeBreakdown else "  (none yet)").

Section McpServer.
Variable message : js_error -> string.

(** The result that the [catch] block builds. *)
Definition error_result (t : thrown) : CallToolResult := {|
  result_text :=
    "Error: " +:+ match t with
                  | HandlerError m => m
                  | StoreError e => message e
                  end;
  isError := true
|}.

Definition text_result (text : string) : CallToolResult :=
  {| result_text := text; isError := false |}.

(** A call of the store inside the [try]: what it returns is turned into
    the text of the result, what it throws goes to the [catch]. *)
Definition attempt {A} (call : outcome A) (text : A -> string) : outcome CallToolResult :=
  match call with
  | Returns a => Returns (text_result (text a))
  | Throws e => Returns (error_result (StoreError e))
  | Diverges => Diverges
  end.

(** The options that [cortex_search] and [cortex_list] hand to the
    store. *)
Definition search_options (args : SearchArguments) : QueryOptions :=
  {| opt_type := search_type args; opt_limit := Some (number_or (search_limit args) 10) |}.

Definition list_options (args : option ListArguments) : QueryOptions :=
  {| opt_type := args ≫= list_type;
     opt_limit := Some (number_or (args ≫= list_limit) 20) |}.

(** The object that [cortex_add] hands to [add]. *)
Definition add_memory (args : AddArguments) : Memory.t := {|
  Memory.id := None;
  Memory.projectId := None;
  Memory.content := add_content args;
  Memory.type := add_type args;
  Memory.source := add_source args;
  Memory.tags := option_map (fun tags => JArr (List.map JStr tags)) (add_tags args);
  Memory.metadata := None;
  Memory.createdAt := None;
  Memory.updatedAt := None
|}.

Definition CallTool (this : MemoryStore) (now : string) (request : CallToolRequest)
    (db : Database) : outcome CallToolResult * Database :=
  match request with
  | Call_cortex_search None =>
      (Returns (error_result (HandlerError "Missing arguments")), db)
  | Call_cortex_search (Some args) =>
      (attempt (search this (search_query args) (search_options args) db) search_text, db)
  | Call_cortex_add None =>
      (Returns (error_result (HandlerError "Missing arguments")), db)
  | Call_cortex_add (Some args) =>
      let '(id, db') := add this now (add_memory args) db in
      (attempt id add_text, db')
  | Call_cortex_list args =>
      (attempt (list_ this (list_options args) db) list_text, db)
  | Call_cortex_stats =>
      (attempt (stats this db) stats_text, db)
  | Call_other name =>
      (Returns (error_result (HandlerError ("Unknown tool: " +:+ name))), db)
  end.

(** The call of the store that a request leads to; the handler turns a
    request down by itself when it names no tool of the server or lacks
    the arguments that the tool needs. *)
Definition store_call (this : MemoryStore) (now : string) (request : CallToolRequest)
    (db : Database) : option (outcome string) :=
  match request with
  | Call_cortex_search (Some args) =>
      Some (omap search_text (search this (search_query args) (search_options args) db))
  | Call_cortex_add (Some args) =>
      Some (omap add_text (fst (add this now (add_memory args) db)))
  | Call_cortex_list args =>
      Some (omap list_text (list_ this (list_options args) db))
  | Call_cortex_stats => Some (omap stats_text (stats this db))
  | Call_cortex_search None | Call_cortex_add None | Call_other _ => None
  end.

End McpServer.

(** ** toolScanner.ts

    The scanner of the VS Code extension.  It is handed the [fsPath] of the
    workspace folder, an absolute and normalized path; the file system is
    the one of the resolver, with [readdirSync] added.  [scan] is [async]
    but awaits nothing; it is modelled by the value its promise resolves
    to.  What the scanner writes to the console is left out. *)

Module Tool.
Record t : Type := mk {
  name : string;
  command : string;
  category : string;
  source : string
}.
End Tool.

(** [categories] is a [Map]: its entries in the order in which the keys
    were first set. *)
Record ScanResult : Type := {
  tools : list Tool.t;
  categories : list (string * list Tool.t)
}.

(** [str.startsWith(p)], [str.endsWith(p)] and [str.replace(p, '')] for a
    string [p]: the first occurrence is the one removed. *)
Definition startsWith (s p : string) : bool :=
  match strip_prefix p s with Some _ => true | None => false end.

Fixpoint endsWith (s p : string) : bool :=
  (String.eqb s p ||
   match s with
   | EmptyString => false
   | String _ r => endsWith r p
   end)%bool.

Fixpoint replace_first (p s : string) : string :=
  match strip_prefix p s with
  | Some rest => rest
  | None =>
      match s with
      | EmptyString => EmptyString
      | String c r => String c (replace_first p r)
      end
  end.

(** [path.basename(path)]: the last segment that is not empty. *)
Definition basename (path : string) : string :=
  List.last (List.filter truthy_string (split_on slash path)) "".

(** The name under which [path] is an entry of the directory [dir]. *)
Definition entry_of (dir path : string) : option string :=
  match strip_prefix (if ends_with_slash dir then dir else dir +:+ "/") path with
  | Some name => if (truthy_string name && no_slash name)%bool then Some name else None
  | None => None
  end.

(** [readdirSync(dir)].  The order of a directory listing is that of the
    file system; here it is the order in which the map lists its paths. *)
Definition readdirSync (fs : gmap string fsnode) (dir : string) : outcome (list string) :=
  match fs !! dir with
  | Some Dir =>
      Returns
        (flat_map (fun entry => match entry_of dir (fst entry) with
                                | Some name => [name]
                                | None => []
                                end)
           (map_to_list fs))
  | Some (File _) => Throws (FsError "ENOTDIR")
  | Some NoAccess => Throws (FsError "EACCES")
  | None => Throws (FsError "ENOENT")
  end.

(** [entry.isDirectory()] of an entry of [dir]. *)
Definition isDirectory (fs : gmap string fsnode) (dir name : string) : bool :=
  match fs !! (if ends_with_slash dir then dir +:+ name else dir +:+ "/" +:+ name) with
  | Some Dir => true
  | _ => false
  end.

(** [scanPath || this.workspacePath]. *)
Definition path_or (a : option string) (b : string) : string :=
  match truthy_path a with
  | Some s => s
  | None => b
  end.

Definition getSubdirectories (fs : gmap string fsnode) (workspacePath : string)
    : list string :=
  let ignoreDirs :=
    ["node_modules"; ".git"; "dist"; "build"; ".vscode"; ".idea"; "coverage"] in
  match readdirSync fs workspacePath with
  | Returns entries =>
      List.filter
        (fun name =>
           (isDirectory fs workspacePath name &&
            negb (existsb (String.eqb name) ignoreDirs) &&
            negb (startsWith name "."))%bool)
        entries
  | _ => []
  end.

Definition detectPackageManager (fs : gmap string fsnode) (workspacePath : string)
    : string :=
  if (existsSync fs (join [workspacePath; "bun.lockb"]) ||
      existsSync fs (join [workspacePath; "bun.lock"]))%bool then "bun"
  else if existsSync fs (join [workspacePath; "pnpm-lock.yaml"]) then "pnpm"
  else if existsSync fs (join [workspacePath; "yarn.lock"]) then "yarn"
  else "npm".

(** [typeof v === 'object'] for a value that is not [null]. *)
Definition is_object (v : json) : bool :=
  match v with
  | JObj _ | JArr _ => true
  | _ => false
  end.

(** [Object.entries(v)] of an object or an array. *)
Definition entries_of (v : json) : list (string * json) :=
  match v with
  | JObj entries => own_properties entries
  | JArr items => imap (fun i x => (print_nat i, x)) items
  | _ => []
  end.

Definition scanNpmScripts (fs : gmap string fsnode) (workspacePath : string)
    (scanPath prefix : option string) : list Tool.t :=
  let targetPath := path_or scanPath workspacePath in
  let packagePath := join [targetPath; "package.json"] in
  if negb (existsSync fs packagePath) then []
  else
    let attempt :=
      let* content := readFileSync fs packagePath in
      let* pkg := JSON_parse content in
      let pm := detectPackageManager fs workspacePath in
      let displayPrefix :=
        match truthy_path prefix with Some p => "[" +:+ p +:+ "] " | None => "" end in
      let cdPrefix :=
        match truthy_path prefix with Some p => "cd " +:+ p +:+ " && " | None => "" end in
      let* scripts := get_property pkg "scripts" in
      Returns
        (match scripts with
         | Some scripts =>
             if (truthy scripts && is_object scripts)%bool then
               flat_map
                 (fun '(name, script) =>
                    match script with
                    | JStr _ =>
                        [ {| Tool.name := displayPrefix +:+ name;
                             Tool.command := cdPrefix +:+ pm +:+ " run " +:+ name;
                             Tool.category := "npm";
                             Tool.source :=
                               match truthy_path prefix with
                               | Some p => p +:+ "/package.json"
                               | None => "package.json"
                               end |} ]
                    | _ => []
                    end)
                 (entries_of scripts)
             else []
         | None => []
         end) in
    match attempt with
    | Returns tools => tools
    | _ => []
    end.

(** The pattern of [scanMakefile]: at the start of the line a letter or
    [_], then any letters, digits, [_] and [-], then a colon.  The name
    before the colon is the first group. *)
Definition is_letter (c : ascii) : bool :=
  let n := char_code c in
  (((65 <=? n) && (n <=? 90)) || ((97 <=? n) && (n <=? 122)))%N.

Definition target_start (c : ascii) : bool := (is_letter c || Ascii.eqb c "_")%bool.

Definition target_char (c : ascii) : bool :=
  (is_letter c || is_digit c || Ascii.eqb c "_" || Ascii.eqb c "-")%bool.

(** The longest run of target characters at the head of a string, and what
    follows it. *)
Fixpoint span_target (s : string) : string * string :=
  match s with
  | EmptyString => ("", "")
  | String c r =>
      if target_char c then
        let '(run, rest) := span_target r in (String c run, rest)
      else ("", s)
  end.

(** [line.match(pattern)]: the first group of the match, if there is one. *)
Definition match_target (line : string) : option string :=
  match line with
  | String c _ =>
      if target_start c then
        let '(run, rest) := span_target line in
        if startsWith rest ":" then Some run else None
      else None
  | EmptyString => None
  end.

Definition scanMakefile (fs : gmap string fsnode) (workspacePath : string)
    (scanPath : option string) : list Tool.t :=
  let targetPath := path_or scanPath workspacePath in
  let makefilePath := join [targetPath; "Makefile"] in
  if negb (existsSync fs makefilePath) then []
  else
    match readFileSync fs makefilePath with
    | Returns content =>
        flat_map
          (fun line =>
             match match_target line with
             | Some target =>
                 if negb (startsWith target ".") then
                   [ {| Tool.name := target;
                        Tool.command := "make " +:+ target;
                        Tool.category := "make";
                        Tool.source := "Makefile" |} ]
                 else []
             | None => []
             end)
          (split_on (ascii_of_nat 10) content)
    | _ => []
    end.

Definition scanDockerCompose (fs : gmap string fsnode) (workspacePath : string)
    (scanPath : option string) : list Tool.t :=
  let targetPath := path_or scanPath workspacePath in
  let composePaths :=
    [ join [targetPath; "docker-compose.yml"];
      join [targetPath; "docker-compose.yaml"];
      join [targetPath; "compose.yml"];
      join [targetPath; "compose.yaml"] ] in
  match truthy_path (List.find (existsSync fs) composePaths) with
  | None => []
  | Some composePath =>
      let composeFile := basename composePath in
      [ {| Tool.name := "up"; Tool.command := "docker-compose up -d";
           Tool.category := "docker"; Tool.source := composeFile |};
        {| Tool.name := "down"; Tool.command := "docker-compose down";
           Tool.category := "docker"; Tool.source := composeFile |};
        {| Tool.name := "logs"; Tool.command := "docker-compose logs -f";
           Tool.category := "docker"; Tool.source := composeFile |};
        {| Tool.name := "build"; Tool.command := "docker-compose build";
           Tool.category := "docker"; Tool.source := composeFile |} ]
  end.

(** The tool that [scanScripts] makes of a file of a script directory, if
    it makes one.  [platform] is [process.platform]. *)
Definition script_tool (platform dir file : string) : option Tool.t :=
  let scriptExtensions := [".sh"; ".ps1"; ".bat"; ".cmd"] in
  match truthy_path (List.find (endsWith file) scriptExtensions) with
  | Some ext =>
      let name := replace_first ext file in
      let isWindows := String.eqb platform "win32" in
      let prefix :=
        if String.eqb ext ".ps1" then "powershell -File "
        else if (String.eqb ext ".sh" && negb isWindows)%bool then "bash "
        else "" in
      Some {| Tool.name := name;
              Tool.command := prefix +:+ dir +:+ "/" +:+ file;
              Tool.category := "script";
              Tool.source := dir +:+ "/" +:+ file |}
  | None => None
  end.

Definition scanScripts (fs : gmap string fsnode) (platform workspacePath : string)
    (scanPath : option string) : list Tool.t :=
  let targetPath := path_or scanPath workspacePath in
  let scriptDirs := ["scripts"; "bin"; ".scripts"] in
  flat_map
    (fun dir =>
       let dirPath := join [targetPath; dir] in
       if negb (existsSync fs dirPath) then []
       else
         match readdirSync fs dirPath with
         | Returns files =>
             flat_map
               (fun file =>
                  match script_tool platform dir file with
                  | Some tool => [tool]
                  | None => []
                  end)
               files
         | _ => []
         end)
    scriptDirs.

(** [categories.set(tool.category, existing)] after [existing.push(tool)]. *)
Fixpoint categories_push (tool : Tool.t) (categories : list (string * list Tool.t))
    : list (string * list Tool.t) :=
  match categories with
  | [] => [(Tool.category tool, [tool])]
  | (key, existing) :: rest =>
      if String.eqb key (Tool.category tool) then (key, existing ++ [tool]) :: rest
      else (key, existing) :: categories_push tool rest
  end.

Definition scan (fs : gmap string fsnode) (platform workspacePath : string) : ScanResult :=
  let npmTools := scanNpmScripts fs workspacePath (Some workspacePath) None in
  let makeTools := scanMakefile fs workspacePath (Some workspacePath) in
  let dockerTools := scanDockerCompose fs workspacePath (Some workspacePath) in
  let scriptTools := scanScripts fs platform workspacePath (Some workspacePath) in
  let subDirs := getSubdirectories fs workspacePath in
  let tools :=
    npmTools ++ makeTools ++ dockerTools ++ scriptTools ++
    flat_map
      (fun subDir =>
         scanNpmScripts fs workspacePath (Some (join [workspacePath; subDir])) (Some subDir))
      subDirs in
  {| tools := tools;
     categories := fold_left (fun categories tool => categories_push tool categories) tools [] |}.

(** The workspace of the integration test of toolScanner.test.ts, with a
    package of its own in a subdirectory. *)
Definition tool_workspace : gmap string fsnode :=
  list_to_map
    [ ("/ws", Dir);
      ("/ws/package.json", File (JSON_stringify (JObj [("scripts", JObj [("build", JStr "tsc")])])));
      ("/ws/Makefile", File ("all:" +:+ newline +:+ "CC:=gcc" +:+ newline +:+ ".PHONY: all"));
      ("/ws/docker-compose.yml", File "version: 3");
      ("/ws/scripts", Dir);
      ("/ws/scripts/deploy.sh", File "#!/bin/bash");
      ("/ws/scripts/my.shell.sh", File "#!/bin/bash");
      ("/ws/web", Dir);
      ("/ws/web/package.json",
       File (JSON_stringify (JObj [("scripts", JObj [("dev", JStr "vite")])])));
      ("/ws/yarn.lock", File "");
      ("/ws/node_modules", Dir);
      ("/ws/node_modules/package.json", File "{}") ].

(** A name that the pattern of [scanMakefile] accepts before the colon. *)
Fixpoint all_target_chars (s : string) : bool :=
  match s with
  | EmptyString => true
  | String c r => (target_char c && all_target_chars r)%bool
  end.

Definition target_name (s : string) : bool :=
  match s with
  | EmptyString => false
  | String c r => (target_start c && all_target_chars r)%bool
  end.

(** The targets that the lines of a Makefile name, in the order of the
    lines. *)
Definition targets_of (content : string) : list string :=
  flat_map
    (fun line => match match_target line with Some target => [target] | None => [] end)
    (split_on (ascii_of_nat 10) content).

(** The list that a [Map] of categories holds for a key, empty when the
    key is not set. *)
Fixpoint category_list (key : string) (categories : list (string * list Tool.t))
    : list Tool.t :=
  match categories with
  | [] => []
  | (k, l) :: rest => if String.eqb k key then l else category_list key rest
  end.

Definition of_category (key : string) (tool : Tool.t) : bool :=
  String.eqb (Tool.category tool) key.

(** [s.indexOf(p)], [None] when [p] does not occur in [s]. *)
Fixpoint indexOf (s p : string) : option nat :=
  match strip_prefix p s with
  | Some _ => Some O
  | None =>
      match s with
      | EmptyString => None
      | String _ r => option_map S (indexOf r p)
      end
  end.

Fixpoint last_char (s : string) : option ascii :=
  match s with
  | EmptyString => None
  | String c EmptyString => Some c
  | String _ r => last_char r
  end.

(** The word that [scanScripts] puts before the path of a script. *)
Definition interpreter (platform ext : string) : string :=
  if String.eqb ext ".ps1" then "powershell -File "
  else if (String.eqb ext ".sh" && negb (String.eqb platform "win32"))%bool then "bash "
  else "".

(** ** memoryWebview.ts

    [escapeHtml] replaces every ampersand, angle bracket, double quote and
    apostrophe of the text by its entity.  The five characters are ASCII,
    so the replacement acts on the bytes of the text as it acts on its code
    units. *)

Definition apostrophe : ascii := ascii_of_nat 39.

Definition escape_map (m : ascii) : option string :=
  if Ascii.eqb m "&" then Some "&amp;"
  else if Ascii.eqb m "<" then Some "&lt;"
  else if Ascii.eqb m ">" then Some "&gt;"
  else if Ascii.eqb m dquote then Some "&quot;"
  else if Ascii.eqb m apostrophe then Some "&#039;"
  else None.

Fixpoint escapeHtml (text : string) : string :=
  match text with
  | EmptyString => EmptyString
  | String c rest => default (String c "") (escape_map c) +:+ escapeHtml rest
  end.

(** A character that is left as it is. *)
Definition plain_char (c : ascii) : Prop := escape_map c = None.

(** A character that opens or closes markup: a tag or a quoted attribute
    value. *)
Definition markup_char (c : ascii) : bool :=
  (Ascii.eqb c "<" || Ascii.eqb c ">" || Ascii.eqb c dquote || Ascii.eqb c apostrophe)%bool.

(** ** storage.ts of the VS Code extension

    The extension has a [MemoryStore] of its own, on sql.js: the database
    is a copy in memory ([this.db]), read from the file when the store is
    made and written back whole by [saveToFile] after every change.  The
    file is passed to every operation that can write it and comes back as
    it is after the call.  Both stores open [~/.cortex/memories.db] by
    default, so the table is taken as the core store makes it.  The
    statements of the extension name no [project_id]: a row that it
    inserts has none (as has every row of a table that the extension made
    itself, which lacks the column), and its [Memory] has no [projectId]
    (here: [None]).  Every method awaits [initPromise] first; the model
    takes the store after that promise is fulfilled. *)

(** Why a promise of the store is rejected:
    [new Error('Database not initialized')], or what sql.js or [JSON.parse]
    threw. *)
Inductive rejection : Type :=
| NotInitialized
| Thrown (e : js_error).

Inductive promise (A : Type) : Type :=
| Resolved (a : A)
| Rejected (reason : rejection)
| Unsettled.
Arguments Resolved {A} a.
Arguments Rejected {A} reason.
Arguments Unsettled {A}.

(** The promise of an [async] method whose body has the given outcome. *)
Definition settle {A} (body : outcome A) : promise A :=
  match body with
  | Returns a => Resolved a
  | Throws e => Rejected (Thrown e)
  | Diverges => Unsettled
  end.

Module Extension.

Record MemoryStore : Type := {
  db : option Database
}.

(** [saveToFile()]: nothing without a database, else the file becomes the
    copy in memory. *)
Definition saveToFile (this : MemoryStore) (file : option Database) : option Database :=
  match db this with
  | Some d => Some d
  | None => file
  end.

(** [new MemoryStore()] with its [initialize()]: the file is loaded if
    there is one, the statements are CREATE ... IF NOT EXISTS, and the
    database is saved at once. *)
Definition new_MemoryStore (file : option Database) : MemoryStore * option Database :=
  let this :=
    {| db := Some match file with
                  | Some d => d
                  | None => empty_db
                  end |} in
  (this, saveToFile this file).

(** [ensureInitialized()], giving the database to the rest of the
    method. *)
Definition ensureInitialized (this : MemoryStore) : promise Database :=
  match db this with
  | Some d => Resolved d
  | None => Rejected NotInitialized
  end.

(** [add(memory)]; [now] is the value of CURRENT_TIMESTAMP.  A failing
    INSERT is thrown by [run], before [saveToFile]. *)
Definition add (this : MemoryStore) (now : string) (memory : Memory.t)
    (file : option Database) : promise Z * MemoryStore * option Database :=
  match ensureInitialized this with
  | Resolved d =>
      if type_check (Memory.type memory) then
        let id := next_rowid d in
        let row := {|
          DatabaseRow.id := id;
          DatabaseRow.project_id := None;
          DatabaseRow.content := Memory.content memory;
          DatabaseRow.type := Memory.type memory;
          DatabaseRow.source := Memory.source memory;
          DatabaseRow.tags := stringify_or_null (Memory.tags memory);
          DatabaseRow.metadata := stringify_or_null (Memory.metadata memory);
          DatabaseRow.created_at := now;
          DatabaseRow.updated_at := now
        |} in
        let this := {| db := Some {| rows := rows d ++ [row]; seq := id |} |} in
        (Resolved id, this, saveToFile this file)
      else
        (Rejected (Thrown (SQLiteError check_failed)), this, file)
  | Rejected reason => (Rejected reason, this, file)
  | Unsettled => (Unsettled, this, file)
  end.

Definition rowToMemory (row : DatabaseRow.t) : outcome Memory.t :=
  let* tags := parse_or_undefined (DatabaseRow.tags row) in
  let* metadata := parse_or_undefined (DatabaseRow.metadata row) in
  Returns {|
    Memory.id := Some (DatabaseRow.id row);
    Memory.projectId := None;
    Memory.content := DatabaseRow.content row;
    Memory.type := DatabaseRow.type row;
    Memory.source := DatabaseRow.source row;
    Memory.tags := tags;
    Memory.metadata := metadata;
    Memory.createdAt := Some (DatabaseRow.created_at row);
    Memory.updatedAt := Some (DatabaseRow.updated_at row)
  |}.

Definition get (this : MemoryStore) (id : Z) : promise (option Memory.t) :=
  match ensureInitialized this with
  | Resolved d =>
      match List.find (fun r => DatabaseRow.id r =? id) (rows d) with
      | Some row => settle (omap Some (rowToMemory row))
      | None => Resolved None
      end
  | Rejected reason => Rejected reason
  | Unsettled => Unsettled
  end.

Definition search (this : MemoryStore) (query : string) (options : QueryOptions)
    : promise (list Memory.t) :=
  match ensureInitialized this with
  | Resolved d =>
      let where_ (r : DatabaseRow.t) :=
        (like ("%" +:+ query +:+ "%") (DatabaseRow.content r) && type_clause options r)%bool in
      settle (omapM rowToMemory
                (limit_clause options
                   (order_by_created_at_desc (List.filter where_ (rows d)))))
  | Rejected reason => Rejected reason
  | Unsettled => Unsettled
  end.

Definition list_ (this : MemoryStore) (options : QueryOptions) : promise (list Memory.t) :=
  match ensureInitialized this with
  | Resolved d =>
      settle (omapM rowToMemory
                (limit_clause options
                   (order_by_created_at_desc (List.filter (type_clause options) (rows d)))))
  | Rejected reason => Rejected reason
  | Unsettled => Unsettled
  end.

Definition delete (this : MemoryStore) (id : Z) (file : option Database)
    : promise bool * MemoryStore * option Database :=
  match ensureInitialized this with
  | Resolved d =>
      let this :=
        {| db := Some {| rows := List.filter (fun r => negb (DatabaseRow.id r =? id)) (rows d);
                         seq := seq d |} |} in
      (Resolved true, this, saveToFile this file)
  | Rejected reason => (Rejected reason, this, file)
  | Unsettled => (Unsettled, this, file)
  end.

Definition clear (this : MemoryStore) (file : option Database)
    : promise nat * MemoryStore * option Database :=
  match ensureInitialized this with
  | Resolved d =>
      let count := length (rows d) in
      let this := {| db := Some {| rows := []; seq := seq d |} |} in
      (Resolved count, this, saveToFile this file)
  | Rejected reason => (Rejected reason, this, file)
  | Unsettled => (Unsettled, this, file)
  end.

(** [stats()]: the total and the object [byType]. *)
Definition stats (this : MemoryStore) : promise (nat * gmap string nat) :=
  match ensureInitialized this with
  | Resolved d => Resolved (length (rows d), count_by_type (rows d))
  | Rejected reason => Rejected reason
  | Unsettled => Unsettled
  end.

(** [close()]: saves and forgets the database. *)
Definition close (this : MemoryStore) (file : option Database) : MemoryStore * option Database :=
  match db this with
  | Some d => ({| db := None |}, saveToFile this file)
  | None => (this, file)
  end.

End Extension.

(** A memory as the extension hands it out: without a project. *)
Definition without_projectId (m : Memory.t) : Memory.t := {|
  Memory.id := Memory.id m;
  Memory.projectId := None;
  Memory.content := Memory.content m;
  Memory.type := Memory.type m;
  Memory.source := Memory.source m;
  Memory.tags := Memory.tags m;
  Memory.metadata := Memory.metadata m;
  Memory.createdAt := Memory.createdAt m;
  Memory.updatedAt := Memory.updatedAt m
|}.

(** The changes the extension can make to its database and the file. *)
Inductive write : Type :=
| WriteAdd (now : string) (memory : Memory.t)
| WriteDelete (id : Z)
| WriteClear
| WriteClose.

Definition run_write (this : Extension.MemoryStore) (w : write) (file : option Database)
    : Extension.MemoryStore * option Database :=
  match w with
  | WriteAdd now memory =>
      let '(_, this, file) := Extension.add this now memory file in (this, file)
  | WriteDelete id =>
      let '(_, this, file) := Extension.delete this id file in (this, file)
  | WriteClear =>
      let '(_, this, file) := Extension.clear this file in (this, file)
  | WriteClose => Extension.close this file
  end.

(** A change that goes through: every one but an [add] that the CHECK
    constraint rejects. *)
Definition accepted (w : write) : bool :=
  match w with
  | WriteAdd _ memory => type_check (Memory.type memory)
  | _ => true
  end.

(** * Facts about the store *)

Lemma type_check_spec (t : string) : type_check t = true <-> In t memory_types.
Proof.
  unfold type_check. rewrite existsb_exists. split.
  - intros (x & Hin & Heq). apply String.eqb_eq in Heq. now subst.
  - intros Hin. exists t. split; [assumption | apply String.eqb_refl].
Qed.

Lemma insert_desc_In (r x : DatabaseRow.t) (l : list DatabaseRow.t) :
  In x (insert_desc r l) <-> x = r \/ In x l.
Proof.
  induction l as [|y l IH]; simpl.
  - intuition.
  - destruct (String.ltb _ _); simpl; rewrite ?IH; intuition.
Qed.

Lemma order_by_In (x : DatabaseRow.t) (l : list DatabaseRow.t) :
  In x (order_by_created_at_desc l) <-> In x l.
Proof.
  unfold order_by_created_at_desc.
  induction l as [|y l IH]; simpl; [tauto|].
  rewrite insert_desc_In, IH. intuition.
Qed.

Lemma insert_desc_length (r : DatabaseRow.t) (l : list DatabaseRow.t) :
  length (insert_desc r l) = S (length l).
Proof.
  induction l as [|y l IH]; simpl; [reflexivity|].
  destruct (String.ltb _ _); simpl; [reflexivity | now rewrite IH].
Qed.

Lemma order_by_length (l : list DatabaseRow.t) :
  length (order_by_created_at_desc l) = length l.
Proof.
  unfold order_by_created_at_desc.
  induction l as [|y l IH]; simpl; [reflexivity|].
  now rewrite insert_desc_length, IH.
Qed.

Lemma omapM_Returns {A B} (f : A -> outcome B) (l : list A) (ys : list B) :
  omapM f l = Returns ys ->
  forall y, In y ys <-> exists x, In x l /\ f x = Returns y.
Proof.
  revert ys. induction l as [|x l IH]; simpl; intros ys Hm y.
  - inversion Hm; subst. simpl. split; [tauto | intros (? & [] & _)].
  - destruct (f x) as [b| |] eqn:Hfx; simpl in Hm; try discriminate.
    destruct (omapM f l) as [bs| |] eqn:Hl; simpl in Hm; try discriminate.
    inversion Hm; subst. simpl. rewrite (IH bs eq_refl y). split.
    + intros [->|(x' & Hin & Hx')]; [exists x; auto | exists x'; auto].
    + intros (x' & [->|Hin] & Hx'); [left; congruence | right; eauto].
Qed.

(** C3 (as amended). Validation boundary of [add]: a memory whose type is
    not one of fact, decision, code, config, note makes [add] raise the
    error of the database, an [SQLiteError] with the message of the CHECK
    constraint of the type column on which the INSERT fails, and leaves the
    database as it was: no row is inserted. *)
Theorem add_rejects_unknown_type (this : MemoryStore) (now : string)
    (memory : Memory.t) (db : Database) :
  ~ In (Memory.type memory) memory_types ->
  add this now memory db = (Throws (SQLiteError check_failed), db) /\
  error_name (SQLiteError check_failed) = "SQLiteError".
Proof.
  intros Hbad. split; [|reflexivity]. unfold add.
  destruct (type_check (Memory.type memory)) eqn:Hc; [|reflexivity].
  apply type_check_spec in Hc. contradiction.
Qed.

Lemma add_rejects_unknown_type_witness :
  ~ In "invalid-type" memory_types /\
  add (store_of "test-project-1") "2025-12-01 10:00:00"
      (sample_memory "Test" "invalid-type") empty_db =
    (Throws (SQLiteError check_failed), empty_db).
Proof.
  split.
  - simpl. intuition discriminate.
  - apply (add_rejects_unknown_type (store_of "test-project-1")
             "2025-12-01 10:00:00" (sample_memory "Test" "invalid-type") empty_db).
    simpl. intuition discriminate.
Defined.

(** C3 (as stated) fails: the exception that [add] raises for the type
    [invalid-type] is no [ValidationError]; the code has no such class. *)
Lemma validation_error_counterexample :
  exists e : js_error,
    add (store_of "test-project-1") "2025-12-01 10:00:00"
        (sample_memory "Test" "invalid-type") empty_db = (Throws e, empty_db) /\
    error_name e <> "ValidationError".
Proof. eexists. split; [reflexivity | discriminate]. Qed.



(** C7 (code as written). Deleting an id that is not in the store: the call
    returns [true] and the database is unchanged. *)
Theorem delete_of_missing_id_returns_true :
  delete (store_of "test-project-1") 99999 empty_db = (Returns true, empty_db).
Proof. reflexivity. Qed.

Lemma delete_always_true (this : MemoryStore) (id : Z) (db : Database) :
  fst (delete this id db) = Returns true.
Proof. reflexivity. Qed.

(** *** Project isolation *)

Lemma isolation_projectId (this : MemoryStore) (p : string) :
  isolation this = Some p -> projectId this = Some p /\ p <> "" /\ globalMode this = false.
Proof.
  unfold isolation. destruct (globalMode this); [discriminate|].
  destruct (projectId this) as [q|]; [|discriminate].
  unfold truthy_string. destruct (String.eqb_spec q ""); simpl; [discriminate|].
  intros [= ->]. auto.
Qed.

Lemma in_scope_isolated (this : MemoryStore) (p : string) (r : DatabaseRow.t) :
  isolation this = Some p -> in_scope this r = sql_eq (DatabaseRow.project_id r) p.
Proof. intros Hi. unfold in_scope. now rewrite Hi. Qed.

Lemma in_scope_foreign (this : MemoryStore) (p1 p2 : string) (r : DatabaseRow.t) :
  p1 <> p2 -> isolation this = Some p2 -> DatabaseRow.project_id r = Some p1 ->
  in_scope this r = false.
Proof.
  intros Hne Hi Hr. rewrite (in_scope_isolated this p2 r Hi), Hr. simpl.
  now apply String.eqb_neq.
Qed.

Lemma filter_without {A} (f : A -> bool) (before after : list A) (x : A) :
  f x = false -> List.filter f (before ++ x :: after) = List.filter f (before ++ after).
Proof.
  intros Hx. rewrite !List.filter_app. simpl. now rewrite Hx.
Qed.

Lemma find_without {A} (f : A -> bool) (before after : list A) (x : A) :
  f x = false -> List.find f (before ++ x :: after) = List.find f (before ++ after).
Proof.
  intros Hx. induction before as [|y l IH]; simpl.
  - now rewrite Hx.
  - now rewrite IH.
Qed.

Lemma firstn_incl {A} (n : nat) (l : list A) (x : A) : In x (firstn n l) -> In x l.
Proof.
  revert l. induction n as [|n IH]; intros [|y l]; simpl; try tauto.
  intros [->|Hin]; auto.
Qed.

Lemma limit_clause_In (o : QueryOptions) (l : list DatabaseRow.t) (r : DatabaseRow.t) :
  In r (limit_clause o l) -> In r l.
Proof.
  unfold limit_clause, sql_limit. destruct (opt_limit o) as [n|]; [|auto].
  destruct (truthy_number n); [|auto].
  destruct (n <? 0); [auto|]. apply firstn_incl.
Qed.

Lemma search_rows_in_scope (this : MemoryStore) q o db (r : DatabaseRow.t) :
  In r (search_rows this q o db) ->
  In r (rows db) /\
  like ("%" +:+ q +:+ "%") (DatabaseRow.content r) = true /\
  in_scope this r = true /\ type_clause o r = true.
Proof.
  unfold search_rows. intros Hin. apply limit_clause_In in Hin.
  apply (proj1 (order_by_In _ _)) in Hin. apply (proj1 (List.filter_In _ _ _)) in Hin as [Hin Hw].
  apply andb_prop in Hw as [Hw Ht]. apply andb_prop in Hw as [Hl Hs]. auto.
Qed.

Lemma list_rows_in_scope (this : MemoryStore) o db (r : DatabaseRow.t) :
  In r (list_rows this o db) ->
  In r (rows db) /\ in_scope this r = true /\ type_clause o r = true.
Proof.
  unfold list_rows. intros Hin. apply limit_clause_In in Hin.
  apply (proj1 (order_by_In _ _)) in Hin. apply (proj1 (List.filter_In _ _ _)) in Hin as [Hin Hw].
  apply andb_prop in Hw as [Hs Ht]. auto.
Qed.

(** The no-interference core of isolation: a row of another project can be
    taken out of the database without any read through the store seeing a
    difference. *)
Lemma foreign_row_unobservable (this : MemoryStore) (row : DatabaseRow.t)
    (before after : list DatabaseRow.t) (sq : Z) :
  in_scope this row = false ->
  let with_row := {| rows := before ++ row :: after; seq := sq |} in
  let without := {| rows := before ++ after; seq := sq |} in
  (forall i, get this i with_row = get this i without) /\
  (forall q o, search this q o with_row = search this q o without) /\
  (forall o, list_ this o with_row = list_ this o without) /\
  stats this with_row = stats this without /\
  (forall q o, ~ In row (search_rows this q o with_row)) /\
  (forall o, ~ In row (list_rows this o with_row)).
Proof.
  intros Hout. cbv zeta. repeat split.
  - intros i. unfold get. simpl. rewrite find_without; [reflexivity|].
    rewrite Hout. apply andb_false_r.
  - intros q o. unfold search, search_rows. simpl.
    rewrite filter_without; [reflexivity|].
    rewrite Hout. now rewrite andb_false_r.
  - intros o. unfold list_, list_rows. simpl.
    rewrite filter_without; [reflexivity|]. now rewrite Hout.
  - unfold stats. simpl. now rewrite filter_without.
  - intros q o Hin. apply search_rows_in_scope in Hin as (_ & _ & Hs & _). congruence.
  - intros o Hin. apply list_rows_in_scope in Hin as (_ & Hs & _). congruence.
Qed.

(** C1 (as amended). Project isolation, for p1 <> p2: a memory that [add]
    stores through an instance scoped to p1 -- the call carrying no project
    id of its own, or an empty one, or p1 itself -- gets p1 as its project,
    and in every state of the database that holds its row, a non-global
    instance scoped to p2 never selects the row in [search] or [list], and
    [get], [search], [list] and [stats] through that instance answer exactly
    as they do on the database without the row. *)
Theorem project_isolation (p1 p2 : string) (this1 this2 : MemoryStore)
    (now : string) (memory : Memory.t) (db : Database) :
  p1 <> p2 ->
  isolation this1 = Some p1 ->
  isolation this2 = Some p2 ->
  (Memory.projectId memory = None \/ Memory.projectId memory = Some "" \/
   Memory.projectId memory = Some p1) ->
  In (Memory.type memory) memory_types ->
  exists (id : Z) (row : DatabaseRow.t),
    add this1 now memory db =
      (Returns id, {| rows := rows db ++ [row]; seq := id |}) /\
    DatabaseRow.id row = id /\
    DatabaseRow.project_id row = Some p1 /\
    forall (before after : list DatabaseRow.t) (sq : Z),
      let with_row := {| rows := before ++ row :: after; seq := sq |} in
      let without := {| rows := before ++ after; seq := sq |} in
      (forall i, get this2 i with_row = get this2 i without) /\
      (forall q o, search this2 q o with_row = search this2 q o without) /\
      (forall o, list_ this2 o with_row = list_ this2 o without) /\
      stats this2 with_row = stats this2 without /\
      (forall q o, ~ In row (search_rows this2 q o with_row)) /\
      (forall o, ~ In row (list_rows this2 o with_row)).
Proof.
  intros Hne H1 H2 Hown Hty.
  apply isolation_projectId in H1 as (Hp1 & Hp1ne & _).
  apply type_check_spec in Hty.
  unfold add. rewrite Hty, Hp1.
  eexists _, _. split; [reflexivity|]. split; [reflexivity|].
  assert (Hproj : or_string (Memory.projectId memory) (Some p1) = Some p1).
  { destruct Hown as [-> | [-> | ->]]; simpl; try reflexivity.
    unfold truthy_string. destruct (String.eqb_spec p1 ""); [contradiction | reflexivity]. }
  split; [exact Hproj|].
  intros before after sq. apply foreign_row_unobservable.
  apply (in_scope_foreign this2 p1 p2); [exact Hne | exact H2 | exact Hproj].
Qed.

Lemma project_isolation_witness :
  exists (id : Z) (row : DatabaseRow.t),
    add (store_of "project-1") "2025-12-01 10:00:00"
        (sample_memory "Project 1 memory" "fact") empty_db =
      (Returns id, {| rows := rows empty_db ++ [row]; seq := id |}) /\
    DatabaseRow.id row = id /\
    DatabaseRow.project_id row = Some "project-1" /\
    forall (before after : list DatabaseRow.t) (sq : Z),
      let with_row := {| rows := before ++ row :: after; seq := sq |} in
      let without := {| rows := before ++ after; seq := sq |} in
      (forall i, get (store_of "project-2") i with_row = get (store_of "project-2") i without) /\
      (forall q o, search (store_of "project-2") q o with_row =
                   search (store_of "project-2") q o without) /\
      (forall o, list_ (store_of "project-2") o with_row =
                 list_ (store_of "project-2") o without) /\
      stats (store_of "project-2") with_row = stats (store_of "project-2") without /\
      (forall q o, ~ In row (search_rows (store_of "project-2") q o with_row)) /\
      (forall o, ~ In row (list_rows (store_of "project-2") o with_row)).
Proof.
  apply (project_isolation "project-1" "project-2"
           (store_of "project-1") (store_of "project-2")
           "2025-12-01 10:00:00" (sample_memory "Project 1 memory" "fact") empty_db).
  - discriminate.
  - reflexivity.
  - reflexivity.
  - left. reflexivity.
  - simpl. auto.
Defined.

(** C1 (as stated) fails: a memory added through the instance scoped to
    project-1, the call naming project-2 as its project, is returned by
    [get], [search] and [list] and counted by [stats] of the instance scoped
    to project-2. *)
Lemma isolation_counterexample :
  let this1 := store_of "project-1" in
  let this2 := store_of "project-2" in
  let memory := with_projectId "project-2" (sample_memory "Fixture" "fact") in
  let db := snd (add this1 "2025-12-01 10:00:00" memory empty_db) in
  isolation this1 = Some "project-1" /\
  isolation this2 = Some "project-2" /\
  fst (add this1 "2025-12-01 10:00:00" memory empty_db) = Returns 1 /\
  omap (option_map Memory.content) (get this2 1 db) = Returns (Some "Fixture") /\
  omap (List.map Memory.id) (search this2 "" no_options db) = Returns [Some 1] /\
  omap (List.map Memory.id) (list_ this2 no_options db) = Returns [Some 1] /\
  omap total (stats this2 db) = Returns 1%nat.
Proof. vm_compute. repeat split. Qed.

(** *** The global view *)

Lemma bump_keys (p q : string) (l : list (string * nat)) :
  In p (List.map fst (bump q l)) <-> p = q \/ In p (List.map fst l).
Proof.
  induction l as [|[k n] l IH]; simpl.
  - intuition.
  - destruct (String.eqb_spec q k) as [->|Hne]; simpl; [intuition|].
    rewrite IH. intuition.
Qed.

Lemma groups_keys (p : string) (l : list DatabaseRow.t) (acc : list (string * nat)) :
  In p (List.map fst
          (fold_left
             (fun acc r =>
                match DatabaseRow.project_id r with
                | Some p => bump p acc
                | None => acc
                end) l acc)) <->
  In p (List.map fst acc) \/ exists r, In r l /\ DatabaseRow.project_id r = Some p.
Proof.
  revert acc. induction l as [|x l IH]; intros acc; simpl.
  - split; [auto | intros [?|(? & [] & _)]; assumption].
  - rewrite IH. destruct (DatabaseRow.project_id x) as [k|] eqn:Hk.
    + rewrite bump_keys. split.
      * intros [[->|Hin]|(r & Hin & Hr)]; eauto.
      * intros [Hin|(r & [<-|Hin] & Hr)]; eauto.
        left. left. congruence.
    + split.
      * intros [Hin|(r & Hin & Hr)]; eauto.
      * intros [Hin|(r & [<-|Hin] & Hr)]; eauto. congruence.
Qed.

Lemma insert_by_count_In (e x : string * nat) (l : list (string * nat)) :
  In x (insert_by_count e l) <-> x = e \/ In x l.
Proof.
  induction l as [|y l IH]; simpl.
  - intuition.
  - destruct (outranks e y); simpl; rewrite ?IH; intuition.
Qed.

Lemma sort_by_count_In (x : string * nat) (l : list (string * nat)) :
  In x (fold_right insert_by_count [] l) <-> In x l.
Proof.
  induction l as [|y l IH]; simpl; [tauto|].
  rewrite insert_by_count_In, IH. intuition.
Qed.

(** The project ids reported by [getAllProjects] are those some row
    carries. *)
Lemma getAllProjects_present (db : Database) (p : string) :
  In p (List.map fst (getAllProjects db)) <->
  exists r, In r (rows db) /\ DatabaseRow.project_id r = Some p.
Proof.
  unfold getAllProjects. rewrite !in_map_iff. split.
  - intros ([k n] & Hk & Hin). simpl in Hk. subst k.
    apply (proj1 (sort_by_count_In _ _)) in Hin.
    assert (Hp : In p (List.map fst
                  (fold_left
                     (fun acc r =>
                        match DatabaseRow.project_id r with
                        | Some p => bump p acc
                        | None => acc
                        end) (rows db) []))).
    { apply (proj2 (in_map_iff _ _ _)). exists (p, n). auto. }
    apply (proj1 (groups_keys _ _ _)) in Hp as [[]|Hp]. exact Hp.
  - intros Hr.
    assert (Hp : In p (List.map fst
                  (fold_left
                     (fun acc r =>
                        match DatabaseRow.project_id r with
                        | Some p => bump p acc
                        | None => acc
                        end) (rows db) []))).
    { apply (proj2 (groups_keys _ _ _)). right. exact Hr. }
    apply (proj1 (in_map_iff _ _ _)) in Hp as (e & He & Hin).
    exists e. split; [exact He|]. now apply (proj2 (sort_by_count_In _ _)).
Qed.

Lemma list_rows_no_options (this : MemoryStore) (db : Database) (r : DatabaseRow.t) :
  In r (list_rows this no_options db) <-> In r (rows db) /\ in_scope this r = true.
Proof.
  unfold list_rows, no_options, limit_clause, type_clause. simpl.
  rewrite order_by_In, List.filter_In, andb_true_r. reflexivity.
Qed.

Lemma search_rows_no_options (this : MemoryStore) (q : string) (db : Database)
    (r : DatabaseRow.t) :
  In r (search_rows this q no_options db) <->
  In r (rows db) /\ like ("%" +:+ q +:+ "%") (DatabaseRow.content r) = true /\
  in_scope this r = true.
Proof.
  unfold search_rows, no_options, limit_clause, type_clause. simpl.
  rewrite order_by_In, List.filter_In, andb_true_r, andb_true_iff. reflexivity.
Qed.

Lemma in_scope_global (pid : option string) (r : DatabaseRow.t) :
  in_scope {| projectId := pid; globalMode := true |} r = true.
Proof. reflexivity. Qed.

Lemma stats_counts_listed (this : MemoryStore) (db : Database) :
  omap total (stats this db) = Returns (length (list_rows this no_options db)).
Proof.
  unfold stats, list_rows, no_options, limit_clause, type_clause. simpl.
  rewrite order_by_length. f_equal. f_equal.
  apply List.filter_ext. intros r. now rewrite andb_true_r.
Qed.

(** C5 (as amended). Global view: in every state of the store, a row is
    visible to a global-mode instance -- through [list], through [search],
    and in the total of [stats], which counts the rows [list] shows -- exactly
    when it is visible to a non-global instance scoped to one of the project
    ids present in the store, or carries no project id that an instance can
    be scoped to (NULL, which is what a global-mode instance writes, or the
    empty string). *)
Theorem global_view_is_union (pid : option string) (db : Database)
    (r : DatabaseRow.t) (q : string) :
  let global := {| projectId := pid; globalMode := true |} in
  let under_a_project (selected : MemoryStore -> list DatabaseRow.t) :=
    exists (p : string) (this : MemoryStore),
      In p (List.map fst (getAllProjects db)) /\
      isolation this = Some p /\ In r (selected this) in
  (In r (list_rows global no_options db) <->
     (In r (rows db) /\ truthy_path (DatabaseRow.project_id r) = None) \/
     under_a_project (fun this => list_rows this no_options db)) /\
  (In r (search_rows global q no_options db) <->
     (In r (rows db) /\ truthy_path (DatabaseRow.project_id r) = None /\
      like ("%" +:+ q +:+ "%") (DatabaseRow.content r) = true) \/
     under_a_project (fun this => search_rows this q no_options db)) /\
  (forall this : MemoryStore,
     omap total (stats this db) = Returns (length (list_rows this no_options db))).
Proof.
  cbv zeta. split; [|split].
  - rewrite list_rows_no_options, in_scope_global. split.
    + intros [Hin _].
      destruct (truthy_path (DatabaseRow.project_id r)) as [p|] eqn:Hp; [|auto].
      right. exists p, (store_of p).
      unfold truthy_path in Hp.
      destruct (DatabaseRow.project_id r) as [p'|] eqn:Hr; [|discriminate].
      destruct (truthy_string p') eqn:Ht; [|discriminate]. injection Hp as ->.
      split; [apply (proj2 (getAllProjects_present _ _)); eauto|].
      assert (Hi : isolation (store_of p) = Some p).
      { unfold isolation. simpl. now rewrite Ht. }
      split; [exact Hi|].
      apply (proj2 (list_rows_no_options _ _ _)). split; [exact Hin|].
      rewrite (in_scope_isolated _ p r Hi), Hr. simpl. apply String.eqb_refl.
    + intros [[Hin _]|(p & this & _ & _ & Hin)]; [auto|].
      apply (proj1 (list_rows_no_options _ _ _)) in Hin as [Hin _]. auto.
  - rewrite search_rows_no_options, in_scope_global. split.
    + intros (Hin & Hl & _).
      destruct (truthy_path (DatabaseRow.project_id r)) as [p|] eqn:Hp; [|auto].
      right. exists p, (store_of p).
      unfold truthy_path in Hp.
      destruct (DatabaseRow.project_id r) as [p'|] eqn:Hr; [|discriminate].
      destruct (truthy_string p') eqn:Ht; [|discriminate]. injection Hp as ->.
      split; [apply (proj2 (getAllProjects_present _ _)); eauto|].
      assert (Hi : isolation (store_of p) = Some p).
      { unfold isolation. simpl. now rewrite Ht. }
      split; [exact Hi|].
      apply (proj2 (search_rows_no_options _ _ _ _)). split; [exact Hin|]. split; [exact Hl|].
      rewrite (in_scope_isolated _ p r Hi), Hr. simpl. apply String.eqb_refl.
    + intros [(Hin & _ & Hl)|(p & this & _ & _ & Hin)]; [auto|].
      apply (proj1 (search_rows_no_options _ _ _ _)) in Hin as (Hin & Hl & _). auto.
  - intros this. apply stats_counts_listed.
Qed.

(** C5 (as stated) fails: after a global-mode instance has added a memory,
    the store holds no project id at all, so the union over the project ids
    present is empty, while the global view shows the memory. *)
Lemma global_superset_counterexample :
  let db := snd (add global_store "2025-12-01 10:00:00"
                   (sample_memory "Shared note" "note") empty_db) in
  getAllProjects db = [] /\
  omap (List.map Memory.content) (list_ global_store no_options db) =
    Returns ["Shared note"] /\
  omap total (stats global_store db) = Returns 1%nat /\
  forall (p : string) (this : MemoryStore),
    isolation this = Some p -> list_rows this no_options db = [].
Proof.
  cbv zeta. split; [reflexivity|]. split; [reflexivity|]. split; [reflexivity|].
  intros p this Hi. unfold list_rows. simpl.
  rewrite (in_scope_isolated this p _ Hi). reflexivity.
Qed.

(** *** LIKE and the search predicate *)

Lemma like_percent (p s : string) :
  like (String "%" p) s = at_some_character (like p) false s.
Proof. reflexivity. Qed.

Lemma at_some_character_end (test : string -> bool) (inside : bool) (s : string) :
  test "" = true -> at_some_character test inside s = true.
Proof.
  intros Hend. revert inside. induction s as [|d s IH]; intros inside; simpl.
  - exact Hend.
  - destruct (inside && is_continuation d)%bool; [apply IH|].
    rewrite IH. apply orb_true_r.
Qed.

Lemma at_some_character_ext (f g : string -> bool) (inside : bool) (s : string) :
  (forall t, f t = g t) -> at_some_character f inside s = at_some_character g inside s.
Proof.
  intros Hfg. revert inside. induction s as [|d s IH]; intros inside; simpl.
  - apply Hfg.
  - now rewrite Hfg, !IH.
Qed.

Lemma like_percent_only (s : string) : like "%" s = true.
Proof. rewrite like_percent. now apply at_some_character_end. Qed.

Lemma like_literal_prefix (q s : string) :
  no_wildcards q = true -> like (q +:+ "%") s = starts_with_ci q s.
Proof.
  revert s. induction q as [|c q IH]; intros s Hq.
  - apply like_percent_only.
  - simpl in Hq. apply andb_prop in Hq as [Hc Hq]. apply andb_prop in Hc as [Hp Hu].
    apply negb_true_iff in Hp, Hu.
    change (String c q +:+ "%") with (String c (q +:+ "%")).
    destruct s as [|d s]; simpl; rewrite Hp; [reflexivity|].
    now rewrite Hu, IH.
Qed.

Lemma like_contains (q s : string) :
  no_wildcards q = true -> like ("%" +:+ q +:+ "%") s = contains_ci s q.
Proof.
  intros Hq. change ("%" +:+ q +:+ "%") with (String "%" (q +:+ "%")).
  rewrite like_percent. apply at_some_character_ext.
  intros t. now apply like_literal_prefix.
Qed.

Lemma contains_ci_empty (s : string) : contains_ci s "" = true.
Proof. now apply at_some_character_end. Qed.

Lemma rowToMemory_fields (r : DatabaseRow.t) (m : Memory.t) :
  rowToMemory r = Returns m ->
  Memory.id m = Some (DatabaseRow.id r) /\
  Memory.projectId m = DatabaseRow.project_id r /\
  Memory.content m = DatabaseRow.content r /\
  Memory.type m = DatabaseRow.type r /\
  Memory.source m = DatabaseRow.source r.
Proof.
  unfold rowToMemory.
  destruct (parse_or_undefined (DatabaseRow.tags r)); simpl; try discriminate.
  destruct (parse_or_undefined (DatabaseRow.metadata r)); simpl; try discriminate.
  intros [= <-]. simpl. auto.
Qed.

Lemma search_rows_unlimited (this : MemoryStore) (q : string) (o : QueryOptions)
    (db : Database) (r : DatabaseRow.t) :
  opt_limit o = None \/ opt_limit o = Some 0 ->
  In r (search_rows this q o db) <->
  In r (rows db) /\ like ("%" +:+ q +:+ "%") (DatabaseRow.content r) = true /\
  in_scope this r = true /\ type_clause o r = true.
Proof.
  intros Hl. unfold search_rows.
  assert (Hlim : forall l, limit_clause o l = l).
  { intros l. unfold limit_clause. destruct Hl as [-> | ->]; reflexivity. }
  rewrite Hlim, order_by_In, List.filter_In, !andb_true_iff. tauto.
Qed.

(** C6 (as amended). Search semantics, for a call [search(query, options)]
    that returns [ms]: every returned memory comes from a row of the
    instance's scope whose content matches the LIKE pattern [%query%] (in
    which [_] stands for any one character and [%] for any run) and which
    passes the type filter; if the query holds neither [%] nor [_] and no
    nonzero limit is given, a memory is returned exactly when its row is in
    scope, passes the type filter, and its content contains the query as a
    substring, the case of the letters of ASCII aside -- so the empty query
    returns every row in scope; and with a non-empty type option every
    returned memory has exactly that type. *)
Theorem search_semantics (this : MemoryStore) (query : string) (o : QueryOptions)
    (db : Database) (ms : list Memory.t) :
  search this query o db = Returns ms ->
  (forall m, In m ms ->
     exists r, In r (rows db) /\ rowToMemory r = Returns m /\
       in_scope this r = true /\ type_clause o r = true /\
       like ("%" +:+ query +:+ "%") (Memory.content m) = true) /\
  (no_wildcards query = true ->
   opt_limit o = None \/ opt_limit o = Some 0 ->
   forall m, In m ms <->
     exists r, In r (rows db) /\ rowToMemory r = Returns m /\
       in_scope this r = true /\ type_clause o r = true /\
       contains_ci (Memory.content m) query = true) /\
  (query = "" -> opt_limit o = None \/ opt_limit o = Some 0 ->
   forall r m, In r (rows db) -> rowToMemory r = Returns m ->
     in_scope this r = true -> type_clause o r = true -> In m ms) /\
  (forall t, opt_type o = Some t -> t <> "" ->
     forall m, In m ms -> Memory.type m = t).
Proof.
  intros Hs. unfold search in Hs.
  pose proof (omapM_Returns _ _ _ Hs) as Hms.
  assert (Hall : forall m, In m ms ->
     exists r, In r (rows db) /\ rowToMemory r = Returns m /\
       in_scope this r = true /\ type_clause o r = true /\
       like ("%" +:+ query +:+ "%") (Memory.content m) = true).
  { intros m Hin. apply (proj1 (Hms m)) in Hin as (r & Hr & Hm).
    apply search_rows_in_scope in Hr as (Hin & Hl & Hsc & Ht).
    exists r. destruct (rowToMemory_fields r m Hm) as (_ & _ & Hc & _).
    rewrite Hc. auto. }
  assert (Hexact : no_wildcards query = true ->
     opt_limit o = None \/ opt_limit o = Some 0 ->
     forall m, In m ms <->
       exists r, In r (rows db) /\ rowToMemory r = Returns m /\
         in_scope this r = true /\ type_clause o r = true /\
         contains_ci (Memory.content m) query = true).
  { intros Hq Hl m. split.
    - intros Hin. destruct (Hall m Hin) as (r & H1 & H2 & H3 & H4 & H5).
      exists r. rewrite <- (like_contains query _ Hq). auto.
    - intros (r & Hin & Hm & Hsc & Ht & Hc).
      apply (proj2 (Hms m)). exists r. split; [|exact Hm].
      apply (proj2 (search_rows_unlimited this query o db r Hl)).
      destruct (rowToMemory_fields r m Hm) as (_ & _ & Hcr & _).
      rewrite <- Hcr, (like_contains query _ Hq). auto. }
  split; [exact Hall|]. split; [exact Hexact|]. split.
  - intros -> Hl r m Hin Hm Hsc Ht.
    apply (proj2 (Hexact eq_refl Hl m)). exists r.
    rewrite contains_ci_empty. auto.
  - intros t Ht Hne m Hin.
    destruct (Hall m Hin) as (r & _ & Hm & _ & Hty & _).
    destruct (rowToMemory_fields r m Hm) as (_ & _ & _ & Htype & _).
    unfold type_clause in Hty. rewrite Ht in Hty.
    unfold truthy_string in Hty. destruct (String.eqb_spec t ""); [contradiction|].
    simpl in Hty. apply String.eqb_eq in Hty. congruence.
Qed.

Lemma search_semantics_witness :
  let this := store_of "test-project-1" in
  let o := {| opt_type := Some "fact"; opt_limit := None |} in
  exists ms,
    omap (List.map Memory.content) (search this "script" o search_fixture) =
      Returns ["TypeScript is great"] /\
    search this "script" o search_fixture = Returns ms /\
    (forall m, In m ms <->
       exists r, In r (rows search_fixture) /\ rowToMemory r = Returns m /\
         in_scope this r = true /\ type_clause o r = true /\
         contains_ci (Memory.content m) "script" = true) /\
    (forall m, In m ms -> Memory.type m = "fact").
Proof.
  cbv zeta. eexists. split; [reflexivity|]. split; [reflexivity|].
  pose proof (search_semantics (store_of "test-project-1") "script"
                {| opt_type := Some "fact"; opt_limit := None |}
                search_fixture _ eq_refl) as (_ & Hexact & _ & Htype).
  split.
  - apply Hexact; [reflexivity | left; reflexivity].
  - apply (Htype "fact"); [reflexivity | discriminate].
Defined.

(** C6 (as stated) fails, in both directions.  The query [a_c] is a
    substring neither of [abc] nor of [I like JavaScript] in any letter
    case, yet [search] returns both memories, because [_] is a LIKE
    wildcard.  And the query [é] is a substring of [École] when letter case
    is set aside, yet [search] does not return that memory: LIKE sets aside
    the case of the letters of ASCII only. *)
Lemma search_counterexample :
  (contains_ci "abc" "a_c" = false /\
   omap (List.map Memory.content)
        (search (store_of "test-project-1") "a_c" no_options search_fixture) =
     Returns ["abc"; "I like JavaScript"] /\
   contains_ci "I like JavaScript" "a_c" = false) /\
  (fold_case "É" = fold_case "é" /\
   contains_ci (fold_case "École") (fold_case "é") = true /\
   search (store_of "test-project-1") "é" no_options
     (after_adds [(store_of "test-project-1", "2025-12-01 10:00:00",
                   sample_memory "École" "fact")] empty_db) = Returns []).
Proof. repeat split. Qed.

(** One character of several bytes is one character for [_]. *)
Example test_like_character :
  like "%a_c%" "aéc" = true /\ like "%a__c%" "aéc" = false /\
  like "%a__c%" "aéöc" = true /\ like "_" "€" = true.
Proof. repeat split. Qed.

(** * Facts about paths *)

Example ancestors_example :
  @ancestors sample_process "/repo/packages/../packages/web/" =
    ["/repo/packages/web"; "/repo/packages"; "/repo"].
Proof. reflexivity. Qed.

Lemma append_cons (x : ascii) (a b : string) : String x a +:+ b = String x (a +:+ b).
Proof. reflexivity. Qed.

Lemma append_empty_l (a : string) : "" +:+ a = a.
Proof. reflexivity. Qed.

Lemma append_assoc (a b c : string) : (a +:+ b) +:+ c = a +:+ (b +:+ c).
Proof.
  induction a as [|x a IH]; [reflexivity|].
  now rewrite !append_cons, IH.
Qed.

Lemma append_empty_r (a : string) : a +:+ "" = a.
Proof.
  induction a as [|x a IH]; [reflexivity|].
  now rewrite append_cons, IH.
Qed.

Lemma length_append (a b : string) :
  String.length (a +:+ b) = (String.length a + String.length b)%nat.
Proof.
  induction a as [|x a IH]; [reflexivity|].
  rewrite append_cons. simpl. now rewrite IH.
Qed.

Lemma split_on_nonempty (c : ascii) (s : string) : split_on c s <> [].
Proof.
  destruct s as [|d s]; simpl; [discriminate|].
  destruct (Ascii.eqb d c); [discriminate|].
  destruct (split_on c s); discriminate.
Qed.

Lemma split_on_app (c : ascii) (a b : string) :
  split_on c (a +:+ String c b) = split_on c a ++ split_on c b.
Proof.
  induction a as [|d a IH].
  - rewrite append_empty_l. simpl. now rewrite Ascii.eqb_refl.
  - rewrite append_cons. simpl.
    destruct (Ascii.eqb d c); [now rewrite IH|].
    rewrite IH. pose proof (split_on_nonempty c a) as Hne.
    destruct (split_on c a); [contradiction | reflexivity].
Qed.

Lemma split_on_no_slash (s : string) : no_slash s = true -> split_on slash s = [s].
Proof.
  induction s as [|d s IH]; simpl; [reflexivity|].
  intros Hs. apply andb_prop in Hs as [Hd Hs]. apply negb_true_iff in Hd.
  now rewrite Hd, IH.
Qed.

Lemma split_on_pieces (s : string) :
  Forall (fun x => no_slash x = true) (split_on slash s).
Proof.
  induction s as [|d s IH]; simpl.
  - repeat constructor.
  - destruct (Ascii.eqb d slash) eqn:Hd; [constructor; [reflexivity | exact IH]|].
    destruct (split_on slash s) as [|x xs]; [repeat constructor; simpl; now rewrite Hd|].
    inversion IH; subst. constructor; [simpl; now rewrite Hd | assumption].
Qed.

(** The segments written by [join_with] are read back by [split_on]; the
    empty list is written as the empty string, which reads as one empty
    segment. *)
Lemma split_join (segs : list string) :
  Forall clean segs ->
  split_on slash (join_with "/" segs) = match segs with [] => [""] | _ => segs end.
Proof.
  induction segs as [|x segs IH]; intros Hc; [reflexivity|].
  inversion Hc as [|? ? [Hx _] Hrest]; subst.
  destruct segs as [|y segs].
  - simpl. now apply split_on_no_slash.
  - change (join_with "/" (x :: y :: segs))
      with (x +:+ String slash (join_with "/" (y :: segs))).
    rewrite split_on_app, (split_on_no_slash x Hx), (IH Hrest). reflexivity.
Qed.

Lemma clean_eqb (s : string) :
  clean s ->
  String.eqb s "" = false /\ String.eqb s "." = false /\ String.eqb s ".." = false.
Proof.
  intros (_ & H1 & H2 & H3). repeat split; now apply String.eqb_neq.
Qed.

Lemma normalize_clean_app (a : bool) (segs stack rest : list string) :
  Forall clean segs ->
  normalize_segments a stack (segs ++ rest) =
  normalize_segments a (rev segs ++ stack) rest.
Proof.
  revert stack. induction segs as [|x segs IH]; intros stack Hc; [reflexivity|].
  inversion Hc as [|? ? Hx Hrest]; subst.
  destruct (clean_eqb x Hx) as (E1 & E2 & E3).
  simpl. rewrite E1, E2, E3. simpl. rewrite (IH _ Hrest).
  now rewrite <- app_assoc.
Qed.

(** What [normalizeString] makes of a rendered path followed by more
    segments. *)
Lemma normalize_rendered (segs rest : list string) :
  Forall clean segs ->
  normalize_segments false [] (split_on slash (join_with "/" segs) ++ rest) =
  normalize_segments false (rev segs) rest.
Proof.
  intros Hc. rewrite (split_join segs Hc). destruct segs as [|x segs].
  - reflexivity.
  - rewrite (normalize_clean_app false (x :: segs) [] rest Hc). now rewrite app_nil_r.
Qed.

Lemma normalize_keeps_clean (stack segs : list string) :
  Forall clean stack ->
  Forall (fun x => no_slash x = true) segs ->
  Forall clean (normalize_segments false stack segs).
Proof.
  revert stack. induction segs as [|x segs IH]; intros stack Hst Hsegs; simpl.
  - now apply Forall_rev.
  - inversion Hsegs as [|? ? Hx Hrest]; subst.
    destruct (String.eqb_spec x ""); simpl; [now apply IH|].
    destruct (String.eqb_spec x "."); simpl; [now apply IH|].
    destruct (String.eqb_spec x "..").
    + destruct stack as [|top stack']; [now apply IH|].
      inversion Hst; subst.
      destruct (String.eqb top ".."); now apply IH.
    + apply IH; [|assumption]. constructor; [|assumption]. repeat split; assumption.
Qed.

Lemma render_cons (segs : list string) : render segs = String slash (join_with "/" segs).
Proof. reflexivity. Qed.

Lemma render_truthy (segs : list string) : truthy_string (render segs) = true.
Proof. reflexivity. Qed.

Lemma join_with_snoc (segs : list string) (m : string) :
  segs <> [] -> join_with "/" (segs ++ [m]) = join_with "/" segs +:+ "/" +:+ m.
Proof.
  induction segs as [|x segs IH]; [contradiction|]. intros _.
  destruct segs as [|y segs]; [reflexivity|].
  change (join_with "/" ((x :: y :: segs) ++ [m]))
    with (x +:+ "/" +:+ join_with "/" ((y :: segs) ++ [m])).
  rewrite IH by discriminate.
  change (join_with "/" (x :: y :: segs)) with (x +:+ "/" +:+ join_with "/" (y :: segs)).
  now rewrite !append_assoc.
Qed.

Lemma join_with_nonempty (segs : list string) (m : string) :
  m <> "" -> join_with "/" (segs ++ [m]) <> "".
Proof.
  intros Hm. destruct segs as [|x segs]; [exact Hm|].
  rewrite join_with_snoc by discriminate.
  destruct (join_with "/" (x :: segs)); [|discriminate].
  rewrite append_empty_l. discriminate.
Qed.

Lemma ends_with_slash_app (a m : string) :
  m <> "" -> ends_with_slash (a +:+ m) = ends_with_slash m.
Proof.
  intros Hm. induction a as [|c a IH]; [reflexivity|].
  rewrite append_cons. simpl. rewrite IH.
  destruct (a +:+ m) eqn:E; [|reflexivity].
  destruct a; [rewrite append_empty_l in E; contradiction | discriminate].
Qed.

Lemma no_slash_no_trailing (m : string) : no_slash m = true -> ends_with_slash m = false.
Proof.
  induction m as [|c m IH]; [reflexivity|]. simpl.
  intros Hm. apply andb_prop in Hm as [Hc Hm]. apply negb_true_iff in Hc.
  destruct m; [exact Hc | now apply IH].
Qed.

Lemma split_rendered_then (segs : list string) (rest : string) :
  split_on slash (render segs +:+ "/" +:+ rest) =
  "" :: split_on slash (join_with "/" segs) ++ split_on slash rest.
Proof.
  rewrite render_cons, append_cons.
  change ("/" +:+ rest) with (String slash rest).
  simpl. now rewrite split_on_app.
Qed.

Lemma normalize_rendered_then (segs : list string) (rest : string) :
  Forall clean segs ->
  normalize_segments false [] (split_on slash (render segs +:+ "/" +:+ rest)) =
  normalize_segments false (rev segs) (split_on slash rest).
Proof.
  intros Hc. rewrite split_rendered_then. simpl. now apply normalize_rendered.
Qed.

Lemma length_join_with (segs : list string) :
  Forall clean segs -> (length segs <= String.length (join_with "/" segs))%nat.
Proof.
  induction segs as [|x segs IH]; intros Hc; [simpl; lia|].
  inversion Hc as [|? ? (_ & Hx & _) Hrest]; subst.
  assert (1 <= String.length x)%nat by (destruct x; [contradiction | simpl; lia]).
  destruct segs as [|y segs]; [simpl; lia|].
  change (join_with "/" (x :: y :: segs)) with (x +:+ "/" +:+ join_with "/" (y :: segs)).
  rewrite !length_append. specialize (IH Hrest). simpl in *. lia.
Qed.

(** [path.join(dir, marker)] for a resolved directory and a plain name. *)
Lemma join_rendered (segs : list string) (m : string) :
  Forall clean segs -> clean m -> join [render segs; m] = render (segs ++ [m]).
Proof.
  intros Hc Hm. pose proof Hm as (Hns & Hne & _).
  unfold join. simpl List.filter.
  assert (Htm : truthy_string m = true).
  { unfold truthy_string. now rewrite (proj2 (String.eqb_neq m "") Hne). }
  rewrite Htm.
  change (join_with "/" [render segs; m]) with (render segs +:+ "/" +:+ m).
  unfold normalize.
  assert (Habs : isAbsolute (render segs +:+ "/" +:+ m) = true) by reflexivity.
  assert (Hnonempty : String.eqb (render segs +:+ "/" +:+ m) "" = false) by reflexivity.
  rewrite Hnonempty, Habs. simpl negb.
  assert (Htrail : ends_with_slash (render segs +:+ "/" +:+ m) = false).
  { rewrite <- append_assoc, ends_with_slash_app by assumption.
    now apply no_slash_no_trailing. }
  rewrite Htrail. unfold normalizeString.
  rewrite (normalize_rendered_then segs m Hc), (split_on_no_slash m Hns).
  destruct (clean_eqb m Hm) as (E1 & E2 & E3).
  simpl normalize_segments. rewrite E1, E2, E3. simpl.
  rewrite rev_involutive.
  rewrite (proj2 (String.eqb_neq _ "") (join_with_nonempty segs m Hne)).
  reflexivity.
Qed.

Section ResolverFacts.
Context `{Process}.

Lemma resolve_loop_absolute (rev_args : list string) (acc : string) :
  snd (resolve_loop rev_args acc) = true.
Proof.
  revert acc. induction rev_args as [|path rest IH]; intros acc; simpl.
  - pose proof process_cwd_absolute as Habs.
    destruct (String.eqb_spec process_cwd "") as [E|_].
    + rewrite E in Habs. discriminate.
    + exact Habs.
  - destruct (String.eqb path ""); [apply IH|].
    destruct (isAbsolute path); [reflexivity | apply IH].
Qed.

Lemma resolve_render (args : list string) : resolve args = render (resolved_segments args).
Proof.
  unfold resolve, resolved_segments.
  pose proof (resolve_loop_absolute (rev args) "") as Habs.
  destruct (resolve_loop (rev args) "") as [rp abs]. simpl in Habs. subst abs.
  reflexivity.
Qed.

Lemma resolved_segments_clean (args : list string) : Forall clean (resolved_segments args).
Proof.
  unfold resolved_segments.
  pose proof (resolve_loop_absolute (rev args) "") as Habs.
  destruct (resolve_loop (rev args) "") as [rp abs]. simpl in Habs. subst abs.
  apply normalize_keeps_clean; [constructor | apply split_on_pieces].
Qed.

Lemma resolve_root : resolve ["/"] = "/".
Proof. reflexivity. Qed.

(** Resolving a resolved path gives it back. *)
Lemma resolve_rendered (segs : list string) :
  Forall clean segs -> resolve [render segs] = render segs.
Proof.
  intros Hc. unfold resolve. simpl rev. simpl resolve_loop.
  unfold normalizeString. cbn [negb].
  rewrite (normalize_rendered_then segs "" Hc). simpl.
  now rewrite rev_involutive.
Qed.

(** [resolve(currentPath, '..')] drops the last segment. *)
Lemma resolve_parent (stack : list string) :
  Forall clean stack ->
  resolve [render (rev stack); ".."] = render (rev (tl stack)).
Proof.
  intros Hc. unfold resolve. simpl rev at 1. simpl resolve_loop.
  unfold normalizeString. cbn [negb].
  change (render (rev stack) +:+ "/" +:+ ".." +:+ "/" +:+ "")
    with (render (rev stack) +:+ "/" +:+ "../").
  rewrite (normalize_rendered_then (rev stack) "../") by now apply Forall_rev.
  rewrite rev_involutive. simpl.
  destruct stack as [|top stack']; [reflexivity|].
  inversion Hc as [|? ? Htop _]; subst.
  destruct (clean_eqb top Htop) as (_ & _ & E3). now rewrite E3.
Qed.

Lemma render_is_root (stack : list string) :
  Forall clean stack ->
  String.eqb (render (rev stack)) "/" = match stack with [] => true | _ => false end.
Proof.
  intros Hc. destruct stack as [|top stack']; [reflexivity|].
  apply String.eqb_neq. rewrite render_cons. intros E. injection E as E.
  apply (join_with_nonempty (rev stack') top); [|exact E].
  inversion Hc as [|? ? (_ & Hne & _) _]. exact Hne.
Qed.

(** The upward walk visits the ancestors in order and stops at the first
    one that holds the marker; with fuel for one step per segment and one
    more, it always returns. *)
Lemma find_up_ancestors (fs : gmap string fsnode) (marker : string)
    (found : string -> string -> string) (stack : list string) (fuel : nat) :
  Forall clean stack ->
  (length stack < fuel)%nat ->
  find_up fuel fs marker found (resolve ["/"]) (render (rev stack)) =
  Returns
    (option_map (fun a => found a (join [a; marker]))
       (List.find (fun a => existsSync fs (join [a; marker])) (ancestors_of_stack stack))).
Proof.
  rewrite resolve_root. revert fuel.
  induction stack as [|top up IH]; intros fuel Hc Hfuel.
  - destruct fuel as [|fuel]; [simpl in Hfuel; lia | reflexivity].
  - destruct fuel as [|fuel]; [simpl in Hfuel; lia|].
    cbn [find_up]. rewrite (render_is_root (top :: up) Hc). cbn [negb].
    cbn [ancestors_of_stack List.find].
    destruct (existsSync fs (join [render (rev (top :: up)); marker])); [reflexivity|].
    rewrite (resolve_parent (top :: up) Hc). cbn [tl].
    inversion Hc; subst. apply IH; [assumption | simpl in Hfuel; lia].
Qed.

Lemma walk_fuel (start : string) :
  (length (rev (resolved_segments [start])) < S (String.length (resolve [start])))%nat.
Proof.
  rewrite resolve_render, length_rev, render_cons. simpl.
  pose proof (length_join_with _ (resolved_segments_clean [start])). lia.
Qed.

Lemma findGitRoot_ancestors (fs : gmap string fsnode) (start : string) :
  findGitRoot fs start =
  Returns (List.find (fun a => existsSync fs (join [a; ".git"])) (ancestors start)).
Proof.
  unfold findGitRoot, ancestors.
  pose proof (walk_fuel start) as Hfuel.
  rewrite resolve_render in *.
  rewrite <- (rev_involutive (resolved_segments [start])) at 2.
  rewrite find_up_ancestors;
    [| apply Forall_rev, resolved_segments_clean | exact Hfuel].
  now destruct (List.find _ _).
Qed.

Lemma findPackageJson_ancestors (fs : gmap string fsnode) (start : string) :
  findPackageJson fs start =
  Returns
    (option_map (fun a => join [a; "package.json"])
       (List.find (fun a => existsSync fs (join [a; "package.json"])) (ancestors start))).
Proof.
  unfold findPackageJson, ancestors.
  pose proof (walk_fuel start) as Hfuel.
  rewrite resolve_render in *.
  rewrite <- (rev_involutive (resolved_segments [start])) at 2.
  rewrite find_up_ancestors;
    [| apply Forall_rev, resolved_segments_clean | exact Hfuel].
  reflexivity.
Qed.

End ResolverFacts.

(** * Facts about the resolver *)

Lemma hex_digit_is_hex (n : N) :
  (n < 16)%N ->
  In (hex_digit n)
     ["0"; "1"; "2"; "3"; "4"; "5"; "6"; "7"; "8"; "9"; "a"; "b"; "c"; "d"; "e"; "f"]%char.
Proof.
  intros Hn.
  assert (Hcases : In n [0; 1; 2; 3; 4; 5; 6; 7; 8; 9; 10; 11; 12; 13; 14; 15]%N).
  { simpl. lia. }
  simpl in Hcases.
  repeat (destruct Hcases as [<-|Hcases]; [vm_compute; tauto|]). contradiction.
Qed.

(** An identifier is sixteen hexadecimal digits. *)
Lemma hashString_16_hex (input : string) :
  String.length (hashString input) = 16%nat /\
  all_chars
    (fun c => In c ["0"; "1"; "2"; "3"; "4"; "5"; "6"; "7"; "8"; "9";
                    "a"; "b"; "c"; "d"; "e"; "f"]%char)
    (hashString input).
Proof.
  unfold hashString, SHA256.hex, SHA256.hex8. cbn [substring].
  split; [reflexivity|]. cbn [all_chars].
  repeat split; apply hex_digit_is_hex; apply N.mod_lt; discriminate.
Qed.

Lemma ancestors_of_stack_rendered (stack : list string) (d : string) :
  Forall clean stack -> In d (ancestors_of_stack stack) ->
  exists segs, Forall clean segs /\ d = render segs.
Proof.
  induction stack as [|top up IH]; intros Hc Hin; [contradiction|].
  destruct Hin as [<-|Hin].
  - exists (rev (top :: up)). split; [now apply Forall_rev | reflexivity].
  - inversion Hc; subst. now apply IH.
Qed.

Section DetectionFacts.
Context `{Process}.

Lemma ancestors_rendered (start d : string) :
  In d (ancestors start) -> exists segs, Forall clean segs /\ d = render segs.
Proof.
  apply ancestors_of_stack_rendered. apply Forall_rev, resolved_segments_clean.
Qed.

(** The walks of the resolver always come back. *)
Lemma walks_return (fs : gmap string fsnode) (start : string) :
  (exists r, findGitRoot fs start = Returns r) /\
  (exists r, findPackageJson fs start = Returns r).
Proof.
  rewrite findGitRoot_ancestors, findPackageJson_ancestors. eauto.
Qed.


Lemma hashString_truthy (input : string) : truthy_string (hashString input) = true.
Proof. unfold hashString, SHA256.hex, SHA256.hex8. reflexivity. Qed.

Lemma cache_coherent_empty (fs : gmap string fsnode) : cache_coherent fs ∅.
Proof. intros cwd projectId Hl. rewrite lookup_empty in Hl. discriminate. Qed.

Lemma cache_coherent_insert (fs : gmap string fsnode) (cache : gmap string string)
    (cwd projectId : string) :
  cache_coherent fs cache -> detectProjectId fs cwd = Returns projectId ->
  cache_coherent fs (<[cwd := projectId]> cache).
Proof.
  intros Hc Hd k v Hl. destruct (decide (cwd = k)) as [->|Hne].
  - rewrite lookup_insert_eq in Hl. congruence.
  - rewrite lookup_insert_ne in Hl by assumption. now apply Hc.
Qed.

(** C8 (as amended). Git-root detection outranks manifest detection:
    whenever some directory on the way from the starting directory up to,
    but not including, the file-system root holds the [.git] marker,
    [getProjectId] -- its cache holding only identifiers resolved in the
    present state of the file system -- returns the hash of the nearest such
    directory's path, lower-cased and with backslashes turned into slashes,
    whatever package manifests there are; the cache then holds that
    identifier for the starting directory. *)
Theorem git_root_outranks_manifest (fs : gmap string fsnode)
    (cache : gmap string string) (start d : string) :
  List.find (fun a => existsSync fs (join [a; ".git"])) (ancestors start) = Some d ->
  cache_coherent fs cache ->
  detectProjectId fs start = Returns (hashPath d) /\
  (exists cache',
     getProjectId cache fs (Some start) = Returns (hashPath d, cache') /\
     cache_coherent fs cache' /\
     cache' !! start = Some (hashPath d)) /\
  hashPath d = hashString (replace_backslashes (toLowerCase d)).
Proof.
  intros Hfind Hcoh.
  assert (Hd : detectProjectId fs start = Returns (hashPath d)).
  { unfold detectProjectId. rewrite findGitRoot_ancestors, Hfind. simpl obind.
    apply find_some in Hfind as [Hin _].
    destruct (ancestors_rendered start d Hin) as (segs & _ & ->).
    reflexivity. }
  split; [exact Hd|]. split.
  - unfold getProjectId. simpl default.
    destruct (cache !! start) as [cached|] eqn:Hl.
    + pose proof (Hcoh start cached Hl) as Hcached. rewrite Hd in Hcached.
      injection Hcached as <-.
      unfold truthy_path, hashPath. rewrite hashString_truthy.
      exists cache. auto.
    + simpl truthy_path. rewrite Hd. simpl obind.
      exists (<[start := hashPath d]> cache). split; [reflexivity|]. split.
      * now apply cache_coherent_insert.
      * apply lookup_insert_eq.
  - apply find_some in Hfind as [Hin _].
    destruct (ancestors_rendered start d Hin) as (segs & Hc & ->).
    unfold hashPath. now rewrite (resolve_rendered segs Hc).
Qed.

End DetectionFacts.

(** The monorepo scenario: the two packages and the root of the repository
    resolve, one call after the other on the same cache, to the same
    identifier, the hash of [/repo]. *)
Lemma git_root_outranks_manifest_witness :
  let id := @hashPath sample_process "/repo" in
  id = "816fc349d3faebf8" /\
  exists cache1 cache2 cache3 : gmap string string,
    @getProjectId sample_process ∅ monorepo (Some "/repo/packages/web") =
      Returns (id, cache1) /\
    @getProjectId sample_process cache1 monorepo (Some "/repo/packages/api") =
      Returns (id, cache2) /\
    @getProjectId sample_process cache2 monorepo (Some "/repo") =
      Returns (id, cache3).
Proof.
  cbv zeta. split; [vm_compute; reflexivity|].
  destruct (@git_root_outranks_manifest sample_process monorepo ∅
              "/repo/packages/web" "/repo" ltac:(vm_compute; reflexivity)
              (@cache_coherent_empty sample_process monorepo))
    as (_ & (cache1 & E1 & C1 & _) & _).
  destruct (@git_root_outranks_manifest sample_process monorepo cache1
              "/repo/packages/api" "/repo" ltac:(vm_compute; reflexivity) C1)
    as (_ & (cache2 & E2 & C2 & _) & _).
  destruct (@git_root_outranks_manifest sample_process monorepo cache2
              "/repo" "/repo" ltac:(vm_compute; reflexivity) C2)
    as (_ & (cache3 & E3 & _) & _).
  exists cache1, cache2, cache3. auto.
Defined.

(** C8 (as stated) fails in two ways.  The cache: an identifier resolved
    for [/repo/packages/web] before [/repo] became a Git repository is
    returned again afterwards, although an ancestor now holds the marker.
    The root: [/] is an ancestor of [/a] and holds [.git], but the walk
    stops before probing the root, so the identifier is the hash of [/a]
    and not that of the root. *)
Lemma git_root_counterexample :
  (exists stale : gmap string string,
     @getProjectId sample_process ∅ ∅ (Some "/repo/packages/web") =
       Returns ("15d2cffc3c7f15a0", stale) /\
     List.find (fun a => existsSync monorepo (join [a; ".git"]))
       (@ancestors sample_process "/repo/packages/web") = Some "/repo" /\
     @getProjectId sample_process stale monorepo (Some "/repo/packages/web") =
       Returns ("15d2cffc3c7f15a0", stale) /\
     @hashPath sample_process "/repo" = "816fc349d3faebf8") /\
  (In "/" (@ancestors_with_root sample_process "/a") /\
   existsSync git_at_root (join ["/"; ".git"]) = true /\
   @findGitRoot sample_process git_at_root "/a" = Returns None /\
   @detectProjectId sample_process git_at_root "/a" = Returns "6a50dc8584134c7d" /\
   @hashPath sample_process "/a" = "6a50dc8584134c7d" /\
   @hashPath sample_process "/" = "8a5edab282632443").
Proof.
  split.
  - eexists. vm_compute. repeat split.
  - vm_compute. repeat split. right. left. reflexivity.
Qed.

(** C2 (code as written). A manifest that cannot be used makes
    [getProjectId] throw: text that is not JSON, the JSON value [null], a
    directory named [package.json], a manifest that may not be read.
    [getProjectName], which wraps the same read in try/catch, returns on
    each of them. *)
Theorem manifest_errors_propagate :
  @getProjectId sample_process ∅ broken_manifests (Some "/bad") = Throws SyntaxError /\
  @getProjectId sample_process ∅ broken_manifests (Some "/null") = Throws TypeError /\
  @getProjectId sample_process ∅ broken_manifests (Some "/dir") =
    Throws (FsError "EISDIR") /\
  @getProjectId sample_process ∅ broken_manifests (Some "/secret") =
    Throws (FsError "EACCES") /\
  @getProjectName sample_process broken_manifests (Some "/bad") = Returns (JStr "bad") /\
  @getProjectName sample_process broken_manifests (Some "/secret") =
    Returns (JStr "secret").
Proof. vm_compute. repeat split. Qed.

(** C9 (code as written). The identifier of a project found through its
    manifest is the hash of [name:manifestPath] as it stands: for the
    manifest [/Proj/package.json] named [App] the hashed string keeps its
    capital letters, and the identifier differs from the hash of the
    lower-cased string. *)
Theorem manifest_identifier_not_normalized :
  @detectProjectId_input sample_process manifest_project "/Proj" =
    Returns "App:/Proj/package.json" /\
  @detectProjectId sample_process manifest_project "/Proj" =
    Returns (hashString "App:/Proj/package.json") /\
  hashString "App:/Proj/package.json" = "e8f677a2be87820e" /\
  replace_backslashes (toLowerCase "App:/Proj/package.json") = "app:/proj/package.json" /\
  hashString "app:/proj/package.json" = "f014e6aca554d43d".
Proof. vm_compute. repeat split. Qed.

(** * Facts about JSON *)

Lemma parse_escaped_char (c : ascii) (t : string) :
  parse_string_body (escape_char c +:+ t) =
  match parse_string_body t with
  | Some (u, r) => Some (String c u, r)
  | None => None
  end.
Proof.
  destruct c as [[] [] [] [] [] [] [] []]; reflexivity.
Qed.

Lemma parse_escaped_string (s rest : string) :
  parse_string_body (escape_string s +:+ String dquote rest) = Some (s, rest).
Proof.
  induction s as [|c s IH].
  - reflexivity.
  - simpl escape_string. rewrite append_assoc, parse_escaped_char, IH. reflexivity.
Qed.

Lemma parse_quoted (s rest : string) :
  parse_string_body (escape_string s +:+ String dquote "" +:+ rest) = Some (s, rest).
Proof. apply parse_escaped_string. Qed.

Lemma span_digits_printed (u : Decimal.uint) (rest : string) :
  match rest with String c _ => is_digit c = false | EmptyString => True end ->
  span_digits (NilEmpty.string_of_uint u +:+ rest) = (u, rest).
Proof.
  intros Hrest. induction u; simpl NilEmpty.string_of_uint;
    rewrite ?append_cons; try (simpl span_digits; rewrite IHu; reflexivity).
  rewrite append_empty_l. destruct rest as [|c r]; [reflexivity|].
  simpl. now rewrite Hrest.
Qed.

Lemma nzhead_shape (d : Decimal.uint) :
  match Decimal.nzhead d with
  | Decimal.D0 _ => False
  | _ => True
  end.
Proof. induction d; simpl; auto. Qed.

Lemma unorm_shape (d : Decimal.uint) :
  is_nil (Decimal.unorm d) = false /\ leading_zero (Decimal.unorm d) = false.
Proof.
  unfold Decimal.unorm. pose proof (nzhead_shape d) as Hs.
  destruct (Decimal.nzhead d); simpl; auto. contradiction.
Qed.

Lemma to_uint_shape (n : N) :
  is_nil (N.to_uint n) = false /\ leading_zero (N.to_uint n) = false.
Proof.
  rewrite <- (DecimalN.Unsigned.of_to n) at 1 2.
  rewrite DecimalN.Unsigned.to_of. apply unorm_shape.
Qed.

Lemma number_end_digit (rest : string) :
  number_end rest = true ->
  match rest with String c _ => is_digit c = false | EmptyString => True end.
Proof.
  destruct rest as [|c r]; [auto|]. simpl. intros Hn.
  apply negb_true_iff in Hn. repeat (apply orb_false_elim in Hn as [Hn ?]). exact Hn.
Qed.

Lemma parse_frac_none (rest : string) :
  number_end rest = true -> parse_frac rest = Some ("", rest).
Proof.
  destruct rest as [|c r]; [reflexivity|]. simpl. intros Hn.
  apply negb_true_iff in Hn. repeat (apply orb_false_elim in Hn as [Hn ?]).
  unfold parse_frac.
  destruct c as [[] [] [] [] [] [] [] []]; try reflexivity; discriminate.
Qed.

Lemma parse_exp_none (rest : string) :
  number_end rest = true -> parse_exp rest = Some ("", rest).
Proof.
  destruct rest as [|c r]; [reflexivity|]. simpl. intros Hn.
  apply negb_true_iff in Hn. repeat (apply orb_false_elim in Hn as [Hn ?]).
  unfold parse_exp.
  match goal with H1 : Ascii.eqb c "e" = false, H2 : Ascii.eqb c "E" = false |- _ =>
    rewrite H1, H2 end.
  reflexivity.
Qed.

Lemma printed_N_first (n : N) :
  exists c r, print_N n = String c r /\ is_digit c = true.
Proof.
  unfold print_N. pose proof (to_uint_shape n) as [Hn _].
  destruct (N.to_uint n); try discriminate; simpl; eauto.
Qed.

Lemma parse_unsigned (n : N) (rest : string) :
  number_end rest = true ->
  parse_number (print_N n +:+ rest) = Some (JNum (Z.of_N n), rest).
Proof.
  intros Hend. unfold parse_number.
  destruct (printed_N_first n) as (c & r & Hp & Hc).
  assert (Hnot : match print_N n +:+ rest with
                 | String "-" r0 => (true, r0)
                 | _ => (false, print_N n +:+ rest)
                 end = (false, print_N n +:+ rest)).
  { rewrite Hp, append_cons.
    destruct c as [[] [] [] [] [] [] [] []]; try reflexivity; discriminate. }
  rewrite Hnot. unfold print_N.
  rewrite (span_digits_printed _ _ (number_end_digit rest Hend)).
  destruct (to_uint_shape n) as [-> ->]. simpl orb.
  rewrite (parse_frac_none rest Hend), (parse_exp_none rest Hend). simpl.
  now rewrite DecimalN.Unsigned.of_to.
Qed.

Lemma parse_printed_number (z : Z) (rest : string) :
  number_end rest = true ->
  parse_number (print_Z z +:+ rest) = Some (JNum z, rest).
Proof.
  intros Hend. unfold print_Z. destruct (Z.ltb_spec z 0) as [Hneg|Hpos].
  - rewrite append_cons. unfold parse_number. unfold print_N.
    rewrite (span_digits_printed _ _ (number_end_digit rest Hend)).
    destruct (to_uint_shape (Z.abs_N z)) as [-> ->]. simpl orb.
    rewrite (parse_frac_none rest Hend), (parse_exp_none rest Hend). simpl.
    rewrite DecimalN.Unsigned.of_to, N2Z.inj_abs_N. do 3 f_equal. lia.
  - rewrite (parse_unsigned _ rest Hend), N2Z.inj_abs_N. do 3 f_equal. lia.
Qed.

Lemma json_nested_ind (P : json -> Prop) :
  P JNull ->
  (forall b, P (JBool b)) ->
  (forall z, P (JNum z)) ->
  (forall x, P (JReal x)) ->
  (forall s, P (JStr s)) ->
  (forall items, Forall P items -> P (JArr items)) ->
  (forall entries, Forall (fun kv => P (snd kv)) entries -> P (JObj entries)) ->
  forall v, P v.
Proof.
  intros Hnull Hbool Hnum Hreal Hstr Harr Hobj.
  fix IH 1. intros [ | b | z | x | s | items | entries].
  - exact Hnull.
  - apply Hbool.
  - apply Hnum.
  - apply Hreal.
  - apply Hstr.
  - apply Harr. induction items as [|x xs IHxs]; constructor; [apply IH | exact IHxs].
  - apply Hobj. induction entries as [|[k x] xs IHxs]; constructor; [apply IH | exact IHxs].
Qed.

Lemma value_end_number_end (rest : string) : value_end rest = true -> number_end rest = true.
Proof.
  destruct rest as [|c r]; [reflexivity|]. simpl.
  destruct c as [[] [] [] [] [] [] [] []]; try reflexivity; discriminate.
Qed.

Lemma value_end_no_ws (rest : string) : value_end rest = true -> skip_ws rest = rest.
Proof.
  destruct rest as [|c r]; [reflexivity|]. simpl.
  destruct c as [[] [] [] [] [] [] [] []]; try reflexivity; discriminate.
Qed.

Lemma value_start_facts (c : ascii) :
  value_start c = true ->
  is_ws c = false /\ Ascii.eqb "]" c = false /\ Ascii.eqb "}" c = false.
Proof.
  destruct c as [[] [] [] [] [] [] [] []]; try discriminate; intros _; repeat split.
Qed.

Lemma printed_Z_first (z : Z) :
  exists c r, print_Z z = String c r /\ (is_digit c = true \/ c = "-"%char).
Proof.
  unfold print_Z. destruct (z <? 0); [eauto|].
  destruct (printed_N_first (Z.abs_N z)) as (c & r & -> & Hc). eauto.
Qed.

Lemma printed_first (v : json) :
  serializable v = true ->
  exists c r, JSON_stringify v = String c r /\ value_start c = true.
Proof.
  destruct v as [ | [] | z | x | s | items | entries]; simpl; try discriminate; intros _;
    try (eexists _, _; split; [reflexivity | reflexivity]).
  destruct (printed_Z_first z) as (c & r & -> & [Hc | ->]);
    eexists _, _; (split; [reflexivity|]).
  - unfold value_start. now rewrite Hc.
  - reflexivity.
Qed.

Lemma skip_ws_printed (v : json) (rest : string) :
  serializable v = true -> skip_ws (JSON_stringify v +:+ rest) = JSON_stringify v +:+ rest.
Proof.
  intros Hs. destruct (printed_first v Hs) as (c & r & -> & Hc).
  rewrite append_cons. simpl. now destruct (value_start_facts c Hc) as (-> & _).
Qed.

Lemma number_dispatch (fuel : nat) (c : ascii) (r : string) :
  is_digit c = true \/ c = "-"%char ->
  parse_value (S fuel) (String c r) = parse_number (String c r).
Proof.
  intros Hc.
  destruct c as [[] [] [] [] [] [] [] []]; try reflexivity;
    destruct Hc; discriminate.
Qed.

Lemma skip_ws_cons (c : ascii) (r : string) :
  is_ws c = false -> skip_ws (String c r) = String c r.
Proof. intros Hc. simpl. now rewrite Hc. Qed.

Lemma strip_prefix_one (c : ascii) (r : string) :
  strip_prefix (String c "") (String c r) = Some r.
Proof. simpl. now rewrite Ascii.eqb_refl. Qed.

Lemma parse_printed_elements (items : list json) :
  items <> [] ->
  Forall parses_back items ->
  forallb serializable items = true ->
  forall (fuel : nat) (rest : string),
    (fold_right (fun x n => S (Nat.max (fuel_needed x) n)) O items <= fuel)%nat ->
    parse_elements fuel
      (join_with "," (List.map JSON_stringify items) +:+ String "]" rest) =
    Some (items, rest).
Proof.
  induction items as [|x items IH]; [contradiction|]. intros _ Hall Hser fuel rest Hfuel.
  inversion Hall as [|? ? Hx Hrest]; subst.
  simpl in Hser. apply andb_prop in Hser as [Hsx Hsrest].
  simpl in Hfuel. destruct fuel as [|f]; [lia|].
  destruct items as [|y items].
  - simpl List.map. simpl join_with. cbn [parse_elements].
    rewrite (skip_ws_printed x _ Hsx).
    rewrite (Hx Hsx f (String "]" rest)) by (try reflexivity; lia).
    reflexivity.
  - change (join_with "," (List.map JSON_stringify (x :: y :: items)))
      with (JSON_stringify x +:+ "," +:+ join_with "," (List.map JSON_stringify (y :: items))).
    rewrite !append_assoc, append_cons, append_empty_l.
    cbn [parse_elements].
    rewrite (skip_ws_printed x _ Hsx).
    rewrite (Hx Hsx f) by (try reflexivity; lia).
    rewrite skip_ws_cons by reflexivity. rewrite Ascii.eqb_refl.
    rewrite (IH ltac:(discriminate) Hrest Hsrest f rest) by lia.
    reflexivity.
Qed.

Lemma parse_printed_members (entries : list (string * json)) :
  entries <> [] ->
  Forall (fun kv => parses_back (snd kv)) entries ->
  forallb (fun kv => serializable (snd kv)) entries = true ->
  forall (fuel : nat) (rest : string),
    (fold_right (fun kv n => S (Nat.max (fuel_needed (snd kv)) n)) O entries <= fuel)%nat ->
    parse_members fuel
      (join_with ","
         (List.map (fun kv => quote (fst kv) +:+ ":" +:+ JSON_stringify (snd kv)) entries)
       +:+ String "}" rest) =
    Some (entries, rest).
Proof.
  induction entries as [|[k x] entries IH]; [contradiction|].
  intros _ Hall Hser fuel rest Hfuel.
  inversion Hall as [|? ? Hx Hrest]; subst. simpl in Hx.
  simpl in Hser. apply andb_prop in Hser as [Hsx Hsrest].
  simpl in Hfuel. destruct fuel as [|f]; [lia|].
  destruct entries as [|y entries].
  - simpl List.map. simpl join_with. unfold quote.
    rewrite !append_cons, !append_assoc, !append_cons, !append_empty_l.
    cbn [parse_members]. rewrite skip_ws_cons by reflexivity. cbv beta iota.
    rewrite Ascii.eqb_refl, parse_escaped_string.
    rewrite skip_ws_cons by reflexivity. rewrite strip_prefix_one.
    rewrite (skip_ws_printed x _ Hsx).
    rewrite (Hx Hsx f (String "}" rest)) by (try reflexivity; lia).
    reflexivity.
  - change (join_with ","
              (List.map (fun kv => quote (fst kv) +:+ ":" +:+ JSON_stringify (snd kv))
                 ((k, x) :: y :: entries)))
      with ((quote k +:+ ":" +:+ JSON_stringify x) +:+ "," +:+
            join_with ","
              (List.map (fun kv => quote (fst kv) +:+ ":" +:+ JSON_stringify (snd kv))
                 (y :: entries))).
    unfold quote at 1.
    rewrite !append_cons, !append_assoc, !append_cons, !append_empty_l.
    cbn [parse_members]. rewrite skip_ws_cons by reflexivity. cbv beta iota.
    rewrite Ascii.eqb_refl, parse_escaped_string.
    rewrite skip_ws_cons by reflexivity. rewrite strip_prefix_one.
    rewrite (skip_ws_printed x _ Hsx).
    rewrite (Hx Hsx f) by (try reflexivity; lia).
    rewrite skip_ws_cons by reflexivity. rewrite Ascii.eqb_refl.
    rewrite (IH ltac:(discriminate) Hrest Hsrest f rest) by lia.
    reflexivity.
Qed.

Lemma obj_set_fresh (k : string) (v : json) (l : list (string * json)) :
  existsb (String.eqb k) (List.map fst l) = false -> obj_set k v l = l ++ [(k, v)].
Proof.
  induction l as [|[k' v'] l IH]; simpl; [reflexivity|].
  intros Hk. apply orb_false_elim in Hk as [Hk Hl]. now rewrite Hk, IH.
Qed.

Lemma existsb_app_false {A} (f : A -> bool) (l1 l2 : list A) :
  existsb f (l1 ++ l2) = false <-> existsb f l1 = false /\ existsb f l2 = false.
Proof. rewrite existsb_app. apply orb_false_iff. Qed.

Lemma distinct_app_cons (acc : list string) (k : string) (l : list string) :
  distinct (acc ++ k :: l) = true ->
  existsb (String.eqb k) acc = false /\ distinct ((acc ++ [k]) ++ l) = true.
Proof.
  induction acc as [|a acc IH]; simpl.
  - intros Hd. split; [reflexivity | exact Hd].
  - intros Hd. apply andb_prop in Hd as [Ha Hd]. apply negb_true_iff in Ha.
    destruct (IH Hd) as [Hk Hd']. rewrite existsb_app in Ha.
    apply orb_false_elim in Ha as [Ha1 Ha2]. simpl in Ha2.
    apply orb_false_elim in Ha2 as [Hak Ha2].
    split.
    + rewrite String.eqb_sym, Hak. exact Hk.
    + rewrite Hd', andb_true_r. apply negb_true_iff.
      rewrite !existsb_app. simpl. now rewrite Ha1, Hak, Ha2.
Qed.

Lemma obj_of_entries_from (l acc : list (string * json)) :
  distinct (List.map fst (acc ++ l)) = true ->
  fold_left (fun a kv => obj_set (fst kv) (snd kv) a) l acc = acc ++ l.
Proof.
  revert acc. induction l as [|[k v] l IH]; intros acc Hd; simpl.
  - now rewrite app_nil_r.
  - rewrite List.map_app in Hd. simpl in Hd.
    apply distinct_app_cons in Hd as [Hk Hd].
    rewrite (obj_set_fresh k v acc Hk).
    rewrite IH; [now rewrite <- app_assoc|].
    rewrite !List.map_app. exact Hd.
Qed.

Lemma obj_of_entries_distinct (l : list (string * json)) :
  distinct (List.map fst l) = true -> obj_of_entries l = l.
Proof. intros Hd. unfold obj_of_entries. now rewrite obj_of_entries_from. Qed.

Lemma strip_prefix_miss (a c : ascii) (p r : string) :
  Ascii.eqb a c = false -> strip_prefix (String a p) (String c r) = None.
Proof. intros Hc. simpl. now rewrite Hc. Qed.

Ltac string_norm :=
  repeat (rewrite append_cons || rewrite append_empty_l || rewrite append_assoc).

Lemma parses_back_all (v : json) : parses_back v.
Proof.
  induction v as [ | b | z | x | s | items IH | entries IH] using json_nested_ind;
    intros Hser fuel rest Hfuel Hend.
  - destruct fuel as [|f]; [simpl in Hfuel; lia | reflexivity].
  - destruct fuel as [|f]; [simpl in Hfuel; lia | destruct b; reflexivity].
  - destruct fuel as [|f]; [simpl in Hfuel; lia|].
    change (JSON_stringify (JNum z)) with (print_Z z).
    destruct (printed_Z_first z) as (c & r & Hp & Hc).
    pose proof (parse_printed_number z rest (value_end_number_end rest Hend)) as Hn.
    rewrite Hp, append_cons in *. now rewrite (number_dispatch f c _ Hc).
  - discriminate.
  - destruct fuel as [|f]; [simpl in Hfuel; lia|].
    change (JSON_stringify (JStr s)) with (quote s). unfold quote.
    string_norm.
    cbn [parse_value]. rewrite Ascii.eqb_refl. now rewrite parse_escaped_string.
  - destruct fuel as [|f]; [simpl in Hfuel; lia|].
    change (JSON_stringify (JArr items))
      with ("[" +:+ join_with "," (List.map JSON_stringify items) +:+ "]").
    string_norm.
    destruct items as [|x items]; [reflexivity|].
    cbn [parse_value]. change (Ascii.eqb "[" dquote) with false.
    rewrite Ascii.eqb_refl. cbv beta iota zeta.
    simpl in Hser. pose proof Hser as Hser'. apply andb_prop in Hser' as [Hsx _].
    assert (Hskip : forall t,
              skip_ws (join_with "," (List.map JSON_stringify (x :: items)) +:+ t) =
              join_with "," (List.map JSON_stringify (x :: items)) +:+ t /\
              strip_prefix "]"
                (join_with "," (List.map JSON_stringify (x :: items)) +:+ t) = None).
    { intros t. destruct (printed_first x Hsx) as (c & r & Hp & Hc).
      destruct (value_start_facts c Hc) as (Hws & Hb & _).
      destruct items as [|y items].
      - simpl List.map. simpl join_with. rewrite Hp, append_cons.
        now rewrite (skip_ws_cons c _ Hws), (strip_prefix_miss _ c _ _ Hb).
      - change (join_with "," (List.map JSON_stringify (x :: y :: items)))
          with (JSON_stringify x +:+ "," +:+ join_with "," (List.map JSON_stringify (y :: items))).
        rewrite Hp, !append_cons.
        now rewrite (skip_ws_cons c _ Hws), (strip_prefix_miss _ c _ _ Hb). }
    destruct (Hskip (String "]" rest)) as [-> ->].
    rewrite (parse_printed_elements (x :: items)); simpl in *; try lia; auto.
  - destruct fuel as [|f]; [simpl in Hfuel; lia|].
    change (JSON_stringify (JObj entries))
      with ("{" +:+ join_with ","
              (List.map (fun kv => quote (fst kv) +:+ ":" +:+ JSON_stringify (snd kv)) entries)
            +:+ "}").
    string_norm.
    destruct entries as [|[k x] entries]; [reflexivity|].
    cbn [parse_value]. change (Ascii.eqb "{" dquote) with false.
    change (Ascii.eqb "{" "[") with false.
    rewrite Ascii.eqb_refl. cbv beta iota zeta.
    simpl in Hser. apply andb_prop in Hser as [Hdist Hser].
    assert (Hskip : forall t,
              skip_ws (join_with ","
                (List.map (fun kv => quote (fst kv) +:+ ":" +:+ JSON_stringify (snd kv))
                   ((k, x) :: entries)) +:+ t) =
              join_with ","
                (List.map (fun kv => quote (fst kv) +:+ ":" +:+ JSON_stringify (snd kv))
                   ((k, x) :: entries)) +:+ t /\
              strip_prefix "}"
                (join_with ","
                   (List.map (fun kv => quote (fst kv) +:+ ":" +:+ JSON_stringify (snd kv))
                      ((k, x) :: entries)) +:+ t) = None).
    { intros t. destruct entries as [|y entries].
      - simpl List.map. simpl join_with. unfold quote. rewrite !append_cons.
        split; reflexivity.
      - change (join_with ","
                  (List.map (fun kv => quote (fst kv) +:+ ":" +:+ JSON_stringify (snd kv))
                     ((k, x) :: y :: entries)))
          with ((quote k +:+ ":" +:+ JSON_stringify x) +:+ "," +:+
                join_with ","
                  (List.map (fun kv => quote (fst kv) +:+ ":" +:+ JSON_stringify (snd kv))
                     (y :: entries))).
        unfold quote at 1 2. rewrite !append_cons. split; reflexivity. }
    destruct (Hskip (String "}" rest)) as [-> ->].
    rewrite (parse_printed_members ((k, x) :: entries)); simpl in *; try lia; auto;
      try discriminate.
    now rewrite (obj_of_entries_distinct ((k, x) :: entries)).
Qed.

Lemma chain_bound {A} (need : A -> nat) (str : A -> string) (l : list A) :
  Forall (fun x => need x <= 2 * String.length (str x) + 1)%nat l ->
  (fold_right (fun x n => S (Nat.max (need x) n)) O l <=
   2 * String.length (join_with "," (List.map str l)) + 2)%nat.
Proof.
  induction l as [|x l IH]; intros Hall; [simpl; lia|].
  inversion Hall as [|? ? Hx Hrest]; subst. specialize (IH Hrest).
  destruct l as [|y l].
  - simpl in *. lia.
  - change (join_with "," (List.map str (x :: y :: l)))
      with (str x +:+ "," +:+ join_with "," (List.map str (y :: l))).
    rewrite !length_append.
    change (fold_right (fun x n => S (Nat.max (need x) n)) O (x :: y :: l))
      with (S (Nat.max (need x) (fold_right (fun x n => S (Nat.max (need x) n)) O (y :: l)))).
    change (String.length ",") with 1%nat. lia.
Qed.

Lemma fuel_needed_bound (v : json) :
  (fuel_needed v <= 2 * String.length (JSON_stringify v) + 1)%nat.
Proof.
  induction v as [ | b | z | x | s | items IH | entries IH] using json_nested_ind;
    try (simpl; lia).
  - change (JSON_stringify (JArr items))
      with ("[" +:+ join_with "," (List.map JSON_stringify items) +:+ "]").
    change (fuel_needed (JArr items))
      with (S (fold_right (fun x n => S (Nat.max (fuel_needed x) n)) O items)).
    pose proof (chain_bound fuel_needed JSON_stringify items IH) as Hb.
    rewrite !length_append.
    change (String.length "[") with 1%nat. change (String.length "]") with 1%nat. lia.
  - change (JSON_stringify (JObj entries))
      with ("{" +:+ join_with ","
              (List.map (fun kv => quote (fst kv) +:+ ":" +:+ JSON_stringify (snd kv)) entries)
            +:+ "}").
    change (fuel_needed (JObj entries))
      with (S (fold_right (fun kv n => S (Nat.max (fuel_needed (snd kv)) n)) O entries)).
    assert (Hall : Forall (fun kv : string * json =>
              fuel_needed (snd kv) <=
              2 * String.length (quote (fst kv) +:+ ":" +:+ JSON_stringify (snd kv)) + 1)%nat
              entries).
    { eapply Forall_impl; [exact IH|]. intros [k x] Hx. simpl in *.
      rewrite !length_append. lia. }
    pose proof (chain_bound (fun kv : string * json => fuel_needed (snd kv))
                  (fun kv => quote (fst kv) +:+ ":" +:+ JSON_stringify (snd kv))
                  entries Hall) as Hb.
    rewrite !length_append.
    change (String.length "{") with 1%nat. change (String.length "}") with 1%nat. lia.
Qed.

(** [JSON.parse(JSON.stringify(v))] gives [v] back. *)
Theorem JSON_roundtrip (v : json) :
  serializable v = true -> JSON_parse (JSON_stringify v) = Returns v.
Proof.
  intros Hser. unfold JSON_parse.
  pose proof (skip_ws_printed v "" Hser) as Hskip. rewrite append_empty_r in Hskip.
  rewrite Hskip.
  pose proof (parses_back_all v Hser
                (2 * String.length (JSON_stringify v) + 2)%nat "") as Hp.
  rewrite append_empty_r in Hp. rewrite Hp; [reflexivity | | reflexivity].
  pose proof (fuel_needed_bound v). lia.
Qed.

Lemma stringify_truthy (v : json) :
  serializable v = true -> truthy_string (JSON_stringify v) = true.
Proof.
  intros Hser. destruct (printed_first v Hser) as (c & r & -> & _). reflexivity.
Qed.

(** * The fuel of [JSON_parse] is enough for every text *)

Lemma skip_ws_length (s : string) : (String.length (skip_ws s) <= String.length s)%nat.
Proof.
  induction s as [|c s IH]; simpl; [lia|].
  destruct (is_ws c); simpl; lia.
Qed.

Lemma strip_prefix_length (p s r : string) :
  strip_prefix p s = Some r ->
  (String.length r + String.length p = String.length s)%nat.
Proof.
  revert s. induction p as [|a p IH]; intros [|b s]; simpl; try discriminate.
  - intros [= <-]. simpl. lia.
  - intros [= <-]. simpl. lia.
  - destruct (Ascii.eqb a b); [|discriminate]. intros Hr. specialize (IH s Hr).
    simpl. lia.
Qed.

Lemma parse_string_body_length_bounded (n : nat) (s t r : string) :
  (String.length s <= n)%nat ->
  parse_string_body s = Some (t, r) -> (String.length r < String.length s)%nat.
Proof.
  revert s t r. induction n as [|n IH]; intros s t r Hn.
  - destruct s; [discriminate | simpl in Hn; lia].
  - destruct s as [|c s]; simpl; [discriminate|]. simpl in Hn.
    destruct (Ascii.eqb c dquote); [intros [= <- <-]; lia|].
    destruct (Ascii.eqb c backslash).
    + destruct s as [|e s1]; [discriminate|].
      destruct (Ascii.eqb e "u").
      * destruct s1 as [|h1 [|h2 [|h3 [|h4 s2]]]]; try discriminate.
        destruct (hex4 h1 h2 h3 h4); [|discriminate].
        destruct (parse_string_body s2) as [[t' r']|] eqn:Hb; [|discriminate].
        intros [= <- <-]. apply IH in Hb; simpl in *; lia.
      * destruct (unescape_char e); [|discriminate].
        destruct (parse_string_body s1) as [[t' r']|] eqn:Hb; [|discriminate].
        intros [= <- <-]. apply IH in Hb; simpl in *; lia.
    + destruct (char_code c <? 32)%N; [discriminate|].
      destruct (parse_string_body s) as [[t' r']|] eqn:Hb; [|discriminate].
      intros [= <- <-]. apply IH in Hb; simpl in *; lia.
Qed.

Lemma parse_string_body_length (s t r : string) :
  parse_string_body s = Some (t, r) -> (String.length r < String.length s)%nat.
Proof. apply (parse_string_body_length_bounded (String.length s)). lia. Qed.

Lemma span_digits_length (s : string) :
  (String.length (snd (span_digits s)) <= String.length s)%nat /\
  (is_nil (fst (span_digits s)) = false ->
   String.length (snd (span_digits s)) < String.length s)%nat.
Proof.
  induction s as [|c s IH]; [simpl; split; [lia | discriminate]|].
  cbn [span_digits].
  destruct (is_digit c); [|cbn [fst snd is_nil]; split; [lia | discriminate]].
  destruct (span_digits s) as [u r]. cbn [fst snd] in IH. destruct IH as [IH1 IH2].
  destruct (uint_of_char c (Some u)); cbn [fst snd is_nil String.length];
    split; intros; try discriminate; lia.
Qed.

Lemma parse_frac_length (s fr r : string) :
  parse_frac s = Some (fr, r) -> (String.length r <= String.length s)%nat.
Proof.
  unfold parse_frac. destruct s as [|c s]; [intros [= <- <-]; lia|].
  destruct (Ascii.eqb_spec c ".") as [->|Hc].
  - pose proof (span_digits_length s) as [Hl _].
    destruct (span_digits s) as [u r']. destruct (is_nil u); [discriminate|].
    intros [= <- <-]. simpl in *. lia.
  - intros Hs. assert (Hr : Some (fr, r) = Some ("", String c s)).
    { rewrite <- Hs. destruct c as [[] [] [] [] [] [] [] []]; try reflexivity.
      contradiction Hc. reflexivity. }
    injection Hr as -> ->. lia.
Qed.

Lemma parse_sign_length (s : string) :
  (String.length (snd (parse_sign s)) <= String.length s)%nat.
Proof.
  destruct s as [|c s]; [simpl; lia|].
  destruct c as [[] [] [] [] [] [] [] []]; simpl; lia.
Qed.

Lemma parse_exp_length (s ex r : string) :
  parse_exp s = Some (ex, r) -> (String.length r <= String.length s)%nat.
Proof.
  unfold parse_exp. destruct s as [|c s]; [intros [= <- <-]; lia|].
  destruct (Ascii.eqb c "e" || Ascii.eqb c "E")%bool; [|intros [= <- <-]; lia].
  pose proof (parse_sign_length s) as Hs.
  destruct (parse_sign s) as [sg r1].
  pose proof (span_digits_length r1) as [Hl _].
  destruct (span_digits r1) as [u r2]. destruct (is_nil u); [discriminate|].
  intros [= <- <-]. simpl in *. lia.
Qed.

Lemma parse_number_length (s : string) (v : json) (r : string) :
  parse_number s = Some (v, r) -> (String.length r < String.length s)%nat.
Proof.
  unfold parse_number.
  set (sign := match s with String "-" r0 => (true, r0) | _ => (false, s) end).
  assert (Hsign : (String.length (snd sign) <= String.length s)%nat).
  { subst sign. destruct s as [|c s]; [simpl; lia|].
    destruct c as [[] [] [] [] [] [] [] []]; simpl; lia. }
  destruct sign as [neg s1]. simpl in Hsign.
  pose proof (span_digits_length s1) as [_ Hl].
  destruct (span_digits s1) as [u s2]. simpl in Hl.
  destruct (is_nil u) eqn:Hn; [discriminate|]. specialize (Hl eq_refl).
  destruct (leading_zero u); [discriminate|]. simpl.
  destruct (parse_frac s2) as [[fr s3]|] eqn:Hf; [|discriminate].
  apply parse_frac_length in Hf.
  destruct (parse_exp s3) as [[ex s4]|] eqn:He; [|discriminate].
  apply parse_exp_length in He.
  destruct (String.eqb fr "" && String.eqb ex "")%bool; intros [= <- <-]; lia.
Qed.

(** A successful parse consumes input, and succeeds with the same answer
    on any fuel of at least twice the number of characters consumed (one
    more for a list of elements or members). *)
Lemma fuel_adequate (m : nat) :
  (forall s v r, parse_value m s = Some (v, r) ->
     (String.length r < String.length s)%nat /\
     forall n, (2 * (String.length s - String.length r) <= n)%nat ->
       parse_value n s = Some (v, r)) /\
  (forall s vs r, parse_elements m s = Some (vs, r) ->
     (String.length r < String.length s)%nat /\
     forall n, (2 * (String.length s - String.length r) + 1 <= n)%nat ->
       parse_elements n s = Some (vs, r)) /\
  (forall s kvs r, parse_members m s = Some (kvs, r) ->
     (String.length r < String.length s)%nat /\
     forall n, (2 * (String.length s - String.length r) + 1 <= n)%nat ->
       parse_members n s = Some (kvs, r)).
Proof.
  induction m as [|m (IHv & IHe & IHm)].
  { repeat split; intros; discriminate. }
  split; [|split].
  - intros s v r Hp. destruct s as [|c r0]; [discriminate|].
    cbn [parse_value] in Hp.
    assert (Hgoal :
      (String.length r < String.length (String c r0))%nat /\
      forall n', (2 * (String.length (String c r0) - String.length r) <= S n')%nat ->
        parse_value (S n') (String c r0) = Some (v, r)).
    { pose proof (skip_ws_length r0) as Hws.
      destruct (Ascii.eqb c dquote) eqn:Eq.
      { destruct (parse_string_body r0) as [[t r1]|] eqn:Hb; [|discriminate].
        injection Hp as <- <-. pose proof (parse_string_body_length _ _ _ Hb).
        split; [simpl; lia|]. intros n' _. cbn [parse_value]. now rewrite Eq, Hb. }
      destruct (Ascii.eqb c "[") eqn:Ea.
      { cbv zeta in Hp.
        destruct (strip_prefix "]" (skip_ws r0)) as [r2|] eqn:Hs.
        - injection Hp as <- <-. apply strip_prefix_length in Hs as Hl.
          split; [simpl in *; lia|]. intros n' _. cbn [parse_value].
          rewrite Eq, Ea. cbv zeta. now rewrite Hs.
        - destruct (parse_elements m (skip_ws r0)) as [[vs r2]|] eqn:He; [|discriminate].
          injection Hp as <- <-. destruct (IHe _ _ _ He) as [Hl Hn].
          split; [simpl; lia|]. intros n' Hn'. cbn [parse_value].
          rewrite Eq, Ea. cbv zeta. rewrite Hs.
          rewrite (Hn n') by (simpl in *; lia). reflexivity. }
      destruct (Ascii.eqb c "{") eqn:Eo.
      { cbv zeta in Hp.
        destruct (strip_prefix "}" (skip_ws r0)) as [r2|] eqn:Hs.
        - injection Hp as <- <-. apply strip_prefix_length in Hs as Hl.
          split; [simpl in *; lia|]. intros n' _. cbn [parse_value].
          rewrite Eq, Ea, Eo. cbv zeta. now rewrite Hs.
        - destruct (parse_members m (skip_ws r0)) as [[kvs r2]|] eqn:He; [|discriminate].
          injection Hp as <- <-. destruct (IHm _ _ _ He) as [Hl Hn].
          split; [simpl; lia|]. intros n' Hn'. cbn [parse_value].
          rewrite Eq, Ea, Eo. cbv zeta. rewrite Hs.
          rewrite (Hn n') by (simpl in *; lia). reflexivity. }
      assert (Hscalar : forall n',
        parse_value (S n') (String c r0) =
        match strip_prefix "null" (String c r0),
              strip_prefix "true" (String c r0),
              strip_prefix "false" (String c r0) with
        | Some r1, _, _ => Some (JNull, r1)
        | _, Some r1, _ => Some (JBool true, r1)
        | _, _, Some r1 => Some (JBool false, r1)
        | None, None, None => parse_number (String c r0)
        end).
      { intros n'. cbn [parse_value]. now rewrite Eq, Ea, Eo. }
      split.
      - destruct (strip_prefix "null" (String c r0)) as [r1|] eqn:H1.
        { injection Hp as <- <-. apply strip_prefix_length in H1. simpl in *. lia. }
        destruct (strip_prefix "true" (String c r0)) as [r1|] eqn:H2.
        { injection Hp as <- <-. apply strip_prefix_length in H2. simpl in *. lia. }
        destruct (strip_prefix "false" (String c r0)) as [r1|] eqn:H3.
        { injection Hp as <- <-. apply strip_prefix_length in H3. simpl in *. lia. }
        now apply parse_number_length in Hp.
      - intros n' _. rewrite Hscalar. exact Hp. }
    destruct Hgoal as [Hl Hn]. split; [exact Hl|].
    intros n Hge. destruct n as [|n']; [simpl in *; lia|]. now apply Hn.
  - intros s vs r Hp. cbn [parse_elements] in Hp.
    pose proof (skip_ws_length s) as Hws.
    destruct (parse_value m (skip_ws s)) as [[v r1]|] eqn:Hv; [|discriminate].
    destruct (IHv _ _ _ Hv) as [Hl1 Hn1].
    pose proof (skip_ws_length r1) as Hws1.
    destruct (skip_ws r1) as [|d r2] eqn:Hr1; [discriminate|]. simpl in Hws1.
    assert (Hgoal :
      (String.length r < String.length s)%nat /\
      forall n', (2 * (String.length s - String.length r) + 1 <= S n')%nat ->
        parse_elements (S n') s = Some (vs, r)).
    { destruct (Ascii.eqb d ",") eqn:Ec.
      - destruct (parse_elements m r2) as [[vs' r3]|] eqn:He; [|discriminate].
        injection Hp as <- <-. destruct (IHe _ _ _ He) as [Hl2 Hn2].
        split; [lia|]. intros n' Hn'. cbn [parse_elements].
        rewrite (Hn1 n') by lia. rewrite Hr1, Ec.
        rewrite (Hn2 n') by lia. reflexivity.
      - destruct (Ascii.eqb d "]") eqn:Eb; [|discriminate].
        injection Hp as <- <-. split; [lia|]. intros n' Hn'. cbn [parse_elements].
        rewrite (Hn1 n') by lia. now rewrite Hr1, Ec, Eb. }
    destruct Hgoal as [Hl Hn]. split; [exact Hl|].
    intros n Hge. destruct n as [|n']; [lia|]. now apply Hn.
  - intros s kvs r Hp. cbn [parse_members] in Hp.
    pose proof (skip_ws_length s) as Hws.
    destruct (skip_ws s) as [|c r0] eqn:Hs0; [discriminate|]. simpl in Hws.
    destruct (Ascii.eqb c dquote) eqn:Eq; [|discriminate].
    destruct (parse_string_body r0) as [[k r1]|] eqn:Hk; [|discriminate].
    pose proof (parse_string_body_length _ _ _ Hk) as Hlk.
    pose proof (skip_ws_length r1) as Hws1.
    destruct (strip_prefix ":" (skip_ws r1)) as [r2|] eqn:Hc; [|discriminate].
    apply strip_prefix_length in Hc as Hlc. simpl in Hlc.
    pose proof (skip_ws_length r2) as Hws2.
    destruct (parse_value m (skip_ws r2)) as [[v r3]|] eqn:Hv; [|discriminate].
    destruct (IHv _ _ _ Hv) as [Hl1 Hn1].
    pose proof (skip_ws_length r3) as Hws3.
    destruct (skip_ws r3) as [|d r4] eqn:Hr3; [discriminate|]. simpl in Hws3.
    assert (Hgoal :
      (String.length r < String.length s)%nat /\
      forall n', (2 * (String.length s - String.length r) + 1 <= S n')%nat ->
        parse_members (S n') s = Some (kvs, r)).
    { destruct (Ascii.eqb d ",") eqn:Ec.
      - destruct (parse_members m r4) as [[kvs' r5]|] eqn:He; [|discriminate].
        injection Hp as <- <-. destruct (IHm _ _ _ He) as [Hl2 Hn2].
        split; [lia|]. intros n' Hn'. cbn [parse_members].
        rewrite Hs0, Eq, Hk, Hc. rewrite (Hn1 n') by lia. rewrite Hr3, Ec.
        rewrite (Hn2 n') by lia. reflexivity.
      - destruct (Ascii.eqb d "}") eqn:Eb; [|discriminate].
        injection Hp as <- <-. split; [lia|]. intros n' Hn'. cbn [parse_members].
        rewrite Hs0, Eq, Hk, Hc. rewrite (Hn1 n') by lia. now rewrite Hr3, Ec, Eb. }
    destruct Hgoal as [Hl Hn]. split; [exact Hl|].
    intros n Hge. destruct n as [|n']; [lia|]. now apply Hn.
Qed.

(** [JSON_parse] does not depend on its fuel: if the text parses with any
    fuel at all, [JSON_parse] returns that value; so a [SyntaxError] of the
    model is never a shortage of fuel. *)
Theorem JSON_parse_fuel_independent (text : string) (m : nat) (v : json) (r : string) :
  parse_value m (skip_ws text) = Some (v, r) -> skip_ws r = "" ->
  JSON_parse text = Returns v.
Proof.
  intros Hp Hr. destruct (fuel_adequate m) as (Hv & _ & _).
  destruct (Hv _ _ _ Hp) as [Hl Hn]. unfold JSON_parse.
  pose proof (skip_ws_length text).
  rewrite (Hn (2 * String.length text + 2)%nat) by lia. now rewrite Hr.
Qed.

(** * Round trip of tags and metadata *)

Lemma serializable_tags (l : list string) : serializable (JArr (List.map JStr l)) = true.
Proof. simpl. induction l as [|x l IH]; simpl; auto. Qed.

Lemma parse_stringified (value : option json) :
  (forall v, value = Some v -> serializable v = true /\ truthy v = true) ->
  parse_or_undefined (stringify_or_null value) = Returns value.
Proof.
  intros Hv. destruct value as [v|]; [|reflexivity].
  destruct (Hv v eq_refl) as [Hser Htr].
  unfold stringify_or_null, parse_or_undefined.
  now rewrite Htr, (stringify_truthy v Hser), (JSON_roundtrip v Hser).
Qed.

Lemma tag_list_round_trip (tags : option json) :
  tag_list tags -> parse_or_undefined (stringify_or_null tags) = Returns tags.
Proof.
  intros Ht. apply parse_stringified. intros v ->.
  destruct Ht as [Ht | (l & Ht)]; [discriminate|].
  injection Ht as ->. split; [apply serializable_tags | reflexivity].
Qed.

Lemma metadata_round_trip (metadata : option json) :
  metadata_mapping metadata ->
  parse_or_undefined (stringify_or_null metadata) = Returns metadata.
Proof.
  intros Hm. apply parse_stringified. intros v ->.
  destruct Hm as [Hm | (entries & Hm & Hser)]; [discriminate|].
  injection Hm as ->. split; [exact Hser | reflexivity].
Qed.

Lemma max_rowid_bound (l : list DatabaseRow.t) (r : DatabaseRow.t) :
  In r l -> DatabaseRow.id r <= max_rowid l.
Proof.
  induction l as [|x l IH]; simpl; [tauto|].
  intros [->|Hin]; [lia | specialize (IH Hin); lia].
Qed.

Lemma find_last {A} (g : A -> bool) (l : list A) (x : A) :
  (forall y, In y l -> g y = false) -> g x = true ->
  List.find g (l ++ [x]) = Some x.
Proof.
  intros Hold Hx. induction l as [|y l IH]; simpl.
  - now rewrite Hx.
  - rewrite (Hold y) by (now left). apply IH. intros z Hz. apply Hold. now right.
Qed.

Lemma find_fresh_id (f : DatabaseRow.t -> bool) (db : Database) (row : DatabaseRow.t) :
  DatabaseRow.id row = next_rowid db ->
  f row = true ->
  List.find (fun r => (DatabaseRow.id r =? next_rowid db) && f r)%bool (rows db ++ [row]) =
  Some row.
Proof.
  intros Hid Hf. apply find_last.
  - intros r Hin. pose proof (max_rowid_bound _ _ Hin) as Hb.
    unfold next_rowid. apply andb_false_intro1. apply Z.eqb_neq. lia.
  - now rewrite Hid, Z.eqb_refl, Hf.
Qed.

(** C4 (as amended). Round trip of tags and metadata: for every memory of a
    recognized type whose tags are a list of strings or absent and whose
    metadata is a JSON-serializable mapping or absent, and which [add]
    stores within the instance's own scope (the instance is global, or the
    call names no other project than the instance's), [get(add(m))] returns
    a memory whose tags and metadata equal the originals, tags in the same
    order; what is absent is stored as NULL and read back absent, what is
    present -- the empty list and the empty mapping included -- is stored as
    its JSON text and read back present. *)
Theorem tags_metadata_round_trip (this : MemoryStore) (now : string)
    (memory : Memory.t) (db : Database) :
  In (Memory.type memory) memory_types ->
  tag_list (Memory.tags memory) ->
  metadata_mapping (Memory.metadata memory) ->
  (globalMode this = true \/ Memory.projectId memory = None \/
   Memory.projectId memory = Some "" \/ Memory.projectId memory = projectId this) ->
  exists (id : Z) (row : DatabaseRow.t) (found : Memory.t),
    add this now memory db = (Returns id, {| rows := rows db ++ [row]; seq := id |}) /\
    DatabaseRow.tags row = option_map JSON_stringify (Memory.tags memory) /\
    DatabaseRow.metadata row = option_map JSON_stringify (Memory.metadata memory) /\
    get this id {| rows := rows db ++ [row]; seq := id |} = Returns (Some found) /\
    Memory.tags found = Memory.tags memory /\
    Memory.metadata found = Memory.metadata memory.
Proof.
  intros Hty Htags Hmeta Hscope.
  apply type_check_spec in Hty. unfold add. rewrite Hty.
  set (row := {|
    DatabaseRow.id := next_rowid db;
    DatabaseRow.project_id := or_string (Memory.projectId memory) (projectId this);
    DatabaseRow.content := Memory.content memory;
    DatabaseRow.type := Memory.type memory;
    DatabaseRow.source := Memory.source memory;
    DatabaseRow.tags := stringify_or_null (Memory.tags memory);
    DatabaseRow.metadata := stringify_or_null (Memory.metadata memory);
    DatabaseRow.created_at := now;
    DatabaseRow.updated_at := now |}).
  assert (Hin : in_scope this row = true).
  { unfold in_scope. destruct (isolation this) as [p|] eqn:Hi; [|reflexivity].
    apply isolation_projectId in Hi as (Hp & Hne & Hg).
    assert (Hproj : or_string (Memory.projectId memory) (projectId this) = Some p).
    { rewrite Hp. destruct Hscope as [Hglobal | [-> | [-> | ->]]]; try reflexivity.
      - congruence.
      - rewrite Hp. simpl. unfold truthy_string.
        destruct (String.eqb_spec p ""); [contradiction | reflexivity]. }
    simpl. rewrite Hproj. simpl. apply String.eqb_refl. }
  assert (Hrow : rowToMemory row = Returns {|
      Memory.id := Some (next_rowid db);
      Memory.projectId := or_string (Memory.projectId memory) (projectId this);
      Memory.content := Memory.content memory;
      Memory.type := Memory.type memory;
      Memory.source := Memory.source memory;
      Memory.tags := Memory.tags memory;
      Memory.metadata := Memory.metadata memory;
      Memory.createdAt := Some now;
      Memory.updatedAt := Some now |}).
  { unfold rowToMemory. simpl.
    now rewrite (tag_list_round_trip _ Htags), (metadata_round_trip _ Hmeta). }
  eexists (next_rowid db), row, _.
  split; [reflexivity|].
  split.
  { simpl. destruct Htags as [-> | (l & ->)]; reflexivity. }
  split.
  { simpl. destruct Hmeta as [-> | (e & -> & _)]; reflexivity. }
  split.
  { unfold get. cbn [rows].
    rewrite (find_fresh_id (in_scope this) db row eq_refl Hin).
    rewrite Hrow. reflexivity. }
  split; reflexivity.
Qed.

Lemma tags_metadata_round_trip_witness :
  let memory :=
    with_tags (Some (JArr [JStr "a"; JStr "b"])) (Some (JObj [("k", JNum 1)]))
      (sample_memory "Complex memory" "code") in
  let this := store_of "test-project-1" in
  exists (id : Z) (row : DatabaseRow.t) (found : Memory.t),
    add this "2025-12-01 10:00:00" memory empty_db =
      (Returns id, {| rows := rows empty_db ++ [row]; seq := id |}) /\
    DatabaseRow.tags row = option_map JSON_stringify (Memory.tags memory) /\
    DatabaseRow.metadata row = option_map JSON_stringify (Memory.metadata memory) /\
    get this id {| rows := rows empty_db ++ [row]; seq := id |} = Returns (Some found) /\
    Memory.tags found = Some (JArr [JStr "a"; JStr "b"]) /\
    Memory.metadata found = Some (JObj [("k", JNum 1)]).
Proof.
  cbv zeta.
  apply (tags_metadata_round_trip (store_of "test-project-1") "2025-12-01 10:00:00"
           (with_tags (Some (JArr [JStr "a"; JStr "b"])) (Some (JObj [("k", JNum 1)]))
              (sample_memory "Complex memory" "code"))
           empty_db).
  - simpl. auto.
  - right. exists ["a"; "b"]. reflexivity.
  - right. exists [("k", JNum 1)]. split; reflexivity.
  - right. left. reflexivity.
Defined.

(** C4 (as stated) fails: a memory with tags and metadata that the call
    files under another project than the instance's is stored, but [get]
    through the same instance does not return it. *)
Lemma round_trip_counterexample :
  let memory :=
    with_projectId "project-2"
      (with_tags (Some (JArr [JStr "a"; JStr "b"])) (Some (JObj [("k", JNum 1)]))
         (sample_memory "Fixture" "fact")) in
  let this := store_of "project-1" in
  fst (add this "2025-12-01 10:00:00" memory empty_db) = Returns 1 /\
  get this 1 (snd (add this "2025-12-01 10:00:00" memory empty_db)) = Returns None.
Proof. split; reflexivity. Qed.

(** Absent and empty are told apart. *)
Lemma absent_is_not_empty :
  let absent := sample_memory "No tags" "note" in
  let empty := with_tags (Some (JArr [])) (Some (JObj [])) (sample_memory "Empty tags" "note") in
  let this := store_of "test-project-1" in
  let db := after_adds [(this, "2025-12-01 10:00:00", absent);
                        (this, "2025-12-01 10:00:01", empty)] empty_db in
  List.map DatabaseRow.tags (rows db) = [None; Some "[]"] /\
  List.map DatabaseRow.metadata (rows db) = [None; Some "{}"] /\
  omap (option_map Memory.tags) (get this 1 db) = Returns (Some None) /\
  omap (option_map Memory.tags) (get this 2 db) = Returns (Some (Some (JArr []))) /\
  omap (option_map Memory.metadata) (get this 1 db) = Returns (Some None) /\
  omap (option_map Memory.metadata) (get this 2 db) = Returns (Some (Some (JObj []))).
Proof. vm_compute. repeat split. Qed.

(** * Further facts about the resolver and the constructor *)

Lemma normalize_char_idempotent (c : ascii) :
  let f (c : ascii) :=
    (fun c => if Ascii.eqb c backslash then slash else c) (lower_char c) in
  f (f c) = f c.
Proof. destruct c as [[] [] [] [] [] [] [] []]; reflexivity. Qed.

Lemma map_string_compose (f g : ascii -> ascii) (s : string) :
  map_string f (map_string g s) = map_string (fun c => f (g c)) s.
Proof. induction s as [|c s IH]; simpl; [reflexivity | now rewrite IH]. Qed.

Lemma map_string_ext (f g : ascii -> ascii) (s : string) :
  (forall c, f c = g c) -> map_string f s = map_string g s.
Proof. intros Hfg. induction s as [|c s IH]; simpl; [reflexivity | now rewrite Hfg, IH]. Qed.

(** Lower-casing and replacing backslashes is a normal form: doing it twice
    changes nothing. *)
Lemma path_normal_form (s : string) :
  replace_backslashes (toLowerCase (replace_backslashes (toLowerCase s))) =
  replace_backslashes (toLowerCase s).
Proof.
  unfold replace_backslashes, toLowerCase. rewrite !map_string_compose.
  apply map_string_ext. intros c. apply (normalize_char_idempotent c).
Qed.

Section OutcomeFacts.
Context `{Process}.

(** Strategies 1 and 3 hash a string in normal form. *)
Lemma input_normalized_without_manifest (fs : gmap string fsnode) (cwd s : string) :
  detectProjectId_input fs cwd = Returns s ->
  findGitRoot fs cwd <> Returns None \/ findPackageJson fs cwd = Returns None ->
  replace_backslashes (toLowerCase s) = s.
Proof.
  unfold detectProjectId_input. intros Hs Hcase.
  destruct (findGitRoot fs cwd) as [g| |] eqn:Hg; simpl in Hs; try discriminate.
  destruct (truthy_path g) as [g'|] eqn:Hg'.
  - injection Hs as <-. apply path_normal_form.
  - destruct Hcase as [Hcase|Hcase].
    + destruct g as [g0|]; [|contradiction].
      rewrite findGitRoot_ancestors in Hg. injection Hg as Hg.
      apply find_some in Hg as [Hin _].
      destruct (ancestors_rendered cwd g0 Hin) as (segs & _ & ->).
      discriminate.
    + rewrite Hcase in Hs. simpl in Hs. injection Hs as <-. apply path_normal_form.
Qed.

(** The conversion of a value to a string comes back. *)
Lemma js_to_string_comes_back (v : json) : js_to_string v <> Diverges.
Proof.
  induction v as [ | b | z | x | s | items IH | entries IH] using json_nested_ind;
    simpl; try discriminate.
  - now destruct b.
  - assert (Hitems : omapM (fun x => match x with
                                     | JNull => Returns ""
                                     | _ => js_to_string x
                                     end) items <> Diverges).
    { induction IH as [|x items Hx _ IHitems]; simpl; [discriminate|].
      assert (Hfx : match x with JNull => Returns "" | _ => js_to_string x end <> Diverges)
        by (destruct x; solve [discriminate | exact Hx]).
      destruct (match x with JNull => Returns "" | _ => js_to_string x end);
        simpl; [|discriminate|contradiction].
      destruct (omapM _ items); simpl; [discriminate | discriminate | contradiction]. }
    destruct (omapM _ items); simpl; [discriminate | discriminate | contradiction].
  - destruct (existsb _ entries); discriminate.
Qed.

Lemma name_or_comes_back (dflt : string) (name : option json) : name_or dflt name <> Diverges.
Proof.
  unfold name_or. destruct name as [v|]; [|discriminate].
  destruct (truthy v); [apply js_to_string_comes_back | discriminate].
Qed.

(** [detectProjectId] never loops; it returns an identifier of sixteen
    characters, or throws, and it throws only on the manifest route. *)
Lemma detectProjectId_outcome (fs : gmap string fsnode) (cwd : string) :
  (exists id, detectProjectId fs cwd = Returns id /\ String.length id = 16%nat) \/
  (exists e manifest,
     detectProjectId fs cwd = Throws e /\
     findGitRoot fs cwd = Returns None /\
     findPackageJson fs cwd = Returns (Some manifest)).
Proof.
  unfold detectProjectId.
  destruct (findGitRoot fs cwd) as [g| |] eqn:Hg;
    try (rewrite findGitRoot_ancestors in Hg; discriminate).
  simpl obind. destruct (truthy_path g) as [g'|] eqn:Hg'.
  { left. eexists. split; [reflexivity|]. apply hashString_16_hex. }
  assert (Hnone : g = None).
  { destruct g as [g0|]; [|reflexivity].
    rewrite findGitRoot_ancestors in Hg. injection Hg as Hg.
    apply find_some in Hg as [Hin _].
    destruct (ancestors_rendered cwd g0 Hin) as (segs & _ & ->). discriminate. }
  subst g.
  destruct (findPackageJson fs cwd) as [p| |] eqn:Hp;
    try (rewrite findPackageJson_ancestors in Hp; discriminate).
  simpl obind. destruct (truthy_path p) as [p'|] eqn:Hp'.
  - assert (p = Some p').
    { destruct p as [p0|]; [|discriminate]. simpl in Hp'.
      destruct (truthy_string p0); congruence. }
    subst p.
    destruct (readFileSync fs p') as [text| |] eqn:Hr; simpl obind.
    + destruct (JSON_parse text) as [v| |] eqn:Hv; simpl obind.
      * destruct (get_property v "name") as [n| |] eqn:Hn; simpl obind.
        -- destruct (name_or "unknown" n) as [shown| |] eqn:Hshown; simpl obind.
           ++ left. eexists. split; [reflexivity|]. apply hashString_16_hex.
           ++ right. eauto.
           ++ now apply name_or_comes_back in Hshown.
        -- right. eauto.
        -- destruct v; discriminate.
      * right. eauto.
      * unfold JSON_parse in Hv.
        destruct (parse_value _ _) as [[? r]|]; [destruct (skip_ws r)|]; discriminate.
    + right. eauto.
    + unfold readFileSync in Hr. destruct (fs !! p') as [[]|]; discriminate.
  - left. eexists. split; [reflexivity|]. apply hashString_16_hex.
Qed.

Lemma getProjectId_truthy (cache : gmap string string) (fs : gmap string fsnode)
    (cwd : option string) (id : string) (cache' : gmap string string) :
  getProjectId cache fs cwd = Returns (id, cache') -> truthy_string id = true.
Proof.
  unfold getProjectId.
  destruct (truthy_path (cache !! default process_cwd cwd)) as [cached|] eqn:Hc.
  - intros [= <- <-]. unfold truthy_path in Hc.
    destruct (cache !! default process_cwd cwd) as [v|]; [|discriminate].
    destruct (truthy_string v) eqn:Hv; congruence.
  - destruct (detectProjectId_outcome fs (default process_cwd cwd))
      as [(i & Hi & Hlen) | (e & m & He & _)]; rewrite ?Hi, ?He; simpl; [|discriminate].
    intros [= <- <-]. destruct i; [discriminate | reflexivity].
Qed.

(** Every instance the constructor makes is either global, with no project
    id, or filters on a project id. *)
Lemma new_MemoryStore_modes (cache : gmap string string) (fs : gmap string fsnode)
    (file : option Database) (arg : constructor_arg)
    (this : MemoryStore) (db : Database) (cache' : gmap string string) :
  new_MemoryStore cache fs file arg = Returns (this, db, cache') ->
  db = initialize file /\
  ((globalMode this = true /\ projectId this = None) \/
   (exists p, globalMode this = false /\ isolation this = Some p)).
Proof.
  unfold new_MemoryStore.
  set (opts := match arg with
               | LegacyPath p => _
               | Options o => o
               | NoArg => _
               end).
  destruct (default false (opt_globalMode opts)) eqn:Hg; simpl.
  - intros [= <- <- <-]. auto.
  - destruct (or_string (opt_projectId opts) None) as [p|] eqn:Hp; simpl.
    + intros [= <- <- <-]. split; [reflexivity|]. right. exists p.
      split; [reflexivity|]. unfold isolation. simpl.
      unfold or_string in Hp. destruct (opt_projectId opts) as [q|]; [|discriminate].
      destruct (truthy_string q) eqn:Hq; [|discriminate]. injection Hp as <-.
      now rewrite Hq.
    + destruct (getProjectId cache fs None) as [[p c]| |] eqn:Hid; simpl; try discriminate.
      intros [= <- <- <-]. split; [reflexivity|]. right. exists p.
      split; [reflexivity|]. unfold isolation. simpl.
      now rewrite (getProjectId_truthy _ _ _ _ _ Hid).
Qed.

End OutcomeFacts.

(** The instances of the tests are what the constructor makes. *)
Lemma new_MemoryStore_samples :
  @new_MemoryStore sample_process ∅ ∅ None
     (Options {| opt_dbPath := Some "/tmp/cortex-test.db";
                 opt_projectId := Some "test-project-1";
                 opt_globalMode := None |}) =
    Returns (store_of "test-project-1", empty_db, ∅) /\
  @new_MemoryStore sample_process ∅ ∅ None
     (Options {| opt_dbPath := Some "/tmp/cortex-test.db";
                 opt_projectId := None;
                 opt_globalMode := Some true |}) =
    Returns (global_store, empty_db, ∅) /\
  omap (fun r => fst (fst r))
    (@new_MemoryStore sample_process ∅ ∅ None (LegacyPath "/tmp/cortex-test.db")) =
    Returns (store_of (@hashPath sample_process "/home/user")).
Proof. vm_compute. repeat split. Qed.

(** * The tests of the repository, replayed on the model *)

Example test_search_by_content :
  omap (List.map Memory.content)
    (search (store_of "test-project-1") "TypeScript" no_options test_search_db) =
  Returns ["Use TypeScript for type safety"; "TypeScript is awesome"].
Proof. reflexivity. Qed.

Example test_search_case_insensitive :
  omap (@length Memory.t)
    (search (store_of "test-project-1") "typescript" no_options test_search_db) =
  Returns 2%nat.
Proof. reflexivity. Qed.

Example test_search_by_type :
  omap (List.map Memory.content)
    (search (store_of "test-project-1") "TypeScript"
       {| opt_type := Some "fact"; opt_limit := None |} test_search_db) =
  Returns ["TypeScript is awesome"].
Proof. reflexivity. Qed.

Example test_search_limit :
  omap (@length Memory.t)
    (search (store_of "test-project-1") ""
       {| opt_type := None; opt_limit := Some 2 |} test_search_db) =
  Returns 2%nat.
Proof. reflexivity. Qed.

Example test_search_no_match :
  search (store_of "test-project-1") "Rust" no_options test_search_db = Returns [].
Proof. reflexivity. Qed.

Example test_stats :
  omap (fun s => (total s, byType s !! "fact", byType s !! "decision", stats_projectId s))
    (stats (store_of "test-project-1") test_search_db) =
  Returns (3%nat, Some 2%nat, Some 1%nat, Some "test-project-1").
Proof. vm_compute. reflexivity. Qed.

Example test_getAllProjects :
  getAllProjects test_search_db = [("test-project-1", 3%nat); ("test-project-2", 1%nat)].
Proof. reflexivity. Qed.

(** Projects with as many memories each come by ascending id. *)
Example test_getAllProjects_equal_counts :
  getAllProjects
    (after_adds
       [ (store_of "project-b", "2025-12-01 10:00:00", sample_memory "B1" "fact");
         (store_of "project-c", "2025-12-01 10:00:01", sample_memory "C1" "fact");
         (store_of "project-a", "2025-12-01 10:00:02", sample_memory "A1" "fact");
         (store_of "project-c", "2025-12-01 10:00:03", sample_memory "C2" "fact") ]
       empty_db) =
  [("project-c", 2%nat); ("project-a", 1%nat); ("project-b", 1%nat)].
Proof. reflexivity. Qed.

(** Clear scoping: [clear()] under A returns 2 and leaves the memory of B. *)
Example test_clear_scoping :
  fst (clear (store_of "project-A") test_clear_db) = Returns 2%nat /\
  omap (List.map Memory.content)
    (list_ (store_of "project-B") no_options
       (snd (clear (store_of "project-A") test_clear_db))) = Returns ["B1"] /\
  list_ (store_of "project-A") no_options
    (snd (clear (store_of "project-A") test_clear_db)) = Returns [].
Proof. repeat split. Qed.

Example test_delete_other_project :
  let db := snd (delete (store_of "project-A") 2 test_clear_db) in
  omap (option_map Memory.content) (get (store_of "project-B") 2 db) = Returns (Some "B1").
Proof. reflexivity. Qed.

Example test_delete_own :
  let db := snd (delete (store_of "project-A") 1 test_clear_db) in
  get (store_of "project-A") 1 db = Returns None.
Proof. reflexivity. Qed.

Example test_manifest_in_parent_directory :
  omap fst (@getProjectId sample_process ∅ nested_project (Some "/tmp/cortex-test")) =
  omap fst (@getProjectId sample_process ∅ nested_project
              (Some "/tmp/cortex-test/deeply/nested/folder")) /\
  @detectProjectId_input sample_process nested_project
     "/tmp/cortex-test/deeply/nested/folder" =
    Returns "parent-project:/tmp/cortex-test/package.json".
Proof. vm_compute. split; reflexivity. Qed.

Example test_project_name :
  @getProjectName sample_process nested_project (Some "/tmp/cortex-test/deeply") =
    Returns (JStr "parent-project") /\
  @getProjectName sample_process monorepo (Some "/repo/src") = Returns (JStr "repo") /\
  @getProjectName sample_process ∅ (Some "/tmp/cortex-test-1") =
    Returns (JStr "cortex-test-1").
Proof. vm_compute. repeat split. Qed.

Example sha256_test_vectors :
  SHA256.hex "" = "e3b0c44298fc1c149afbf4c8996fb92427ae41e4649b934ca495991b7852b855" /\
  SHA256.hex "abc" = "ba7816bf8f01cfea414140de5dae2223b00361a396177a9cb410ff61f20015ad".
Proof. vm_compute. split; reflexivity. Qed.

(** * The order and the size of a result *)

(** [String.ltb] is the strict part of a total order. *)
Lemma ltb_lt (a b : string) :
  String.ltb a b = true <-> OrderedTypeEx.String_as_OT.lt a b.
Proof.
  unfold String.ltb. rewrite <- OrderedTypeEx.String_as_OT.cmp_lt.
  unfold OrderedTypeEx.String_as_OT.cmp.
  destruct (String.compare a b); split; intros; congruence.
Qed.

Lemma ltb_ge (a b : string) :
  String.ltb a b = false <-> a = b \/ OrderedTypeEx.String_as_OT.lt b a.
Proof.
  unfold String.ltb.
  rewrite <- OrderedTypeEx.String_as_OT.cmp_lt.
  unfold OrderedTypeEx.String_as_OT.cmp.
  rewrite (String.compare_antisym b a).
  destruct (String.compare a b) eqn:E; simpl.
  - split; [|reflexivity]. intros _. left. now apply String.compare_eq_iff.
  - split; [discriminate|]. intros [-> | Hx]; [|discriminate].
    pose proof (String.compare_antisym b b) as Ha. rewrite E in Ha. discriminate.
  - split; [|reflexivity]. intros _. now right.
Qed.

Lemma ltb_asym (a b : string) : String.ltb a b = true -> String.ltb b a = false.
Proof. intros Hab. apply ltb_ge. right. now apply ltb_lt. Qed.

Lemma ltb_le_lt (x y r : string) :
  String.ltb x y = false -> String.ltb x r = true -> String.ltb y r = true.
Proof.
  intros Hxy Hxr. apply ltb_ge in Hxy. apply ltb_lt in Hxr. apply ltb_lt.
  destruct Hxy as [-> | Hyx]; [exact Hxr|].
  eapply OrderedTypeEx.String_as_OT.lt_trans; eauto.
Qed.

Lemma insert_desc_sorted (r : DatabaseRow.t) (l : list DatabaseRow.t) :
  StronglySorted newer_or_equal l -> StronglySorted newer_or_equal (insert_desc r l).
Proof.
  induction l as [|x xs IH]; intros Hs; simpl.
  - repeat constructor.
  - apply StronglySorted_inv in Hs as [Hxs Hx].
    destruct (String.ltb (DatabaseRow.created_at x) (DatabaseRow.created_at r)) eqn:Hlt.
    + constructor; [constructor; assumption|].
      constructor; [now apply ltb_asym|].
      eapply Forall_impl; [exact Hx|]. intros y Hy. unfold newer_or_equal in *.
      destruct (String.ltb (DatabaseRow.created_at r) (DatabaseRow.created_at y)) eqn:Hry;
        [|reflexivity].
      pose proof (ltb_le_lt _ _ _ (ltb_asym _ _ Hlt) Hry). congruence.
    + constructor; [auto|].
      apply List.Forall_forall. intros y Hy. apply insert_desc_In in Hy as [-> | Hy].
      * exact Hlt.
      * rewrite List.Forall_forall in Hx. now apply Hx.
Qed.

Lemma order_by_sorted (l : list DatabaseRow.t) :
  StronglySorted newer_or_equal (order_by_created_at_desc l).
Proof.
  induction l as [|r l IH]; simpl; [constructor | now apply insert_desc_sorted].
Qed.

Lemma firstn_sorted {A} (R : A -> A -> Prop) (n : nat) (l : list A) :
  StronglySorted R l -> StronglySorted R (firstn n l).
Proof.
  revert n. induction l as [|x l IH]; intros [|n] Hs; simpl; try constructor.
  - apply IH. now apply StronglySorted_inv in Hs.
  - apply StronglySorted_inv in Hs as [_ Hx].
    apply List.Forall_forall. intros y Hy. rewrite List.Forall_forall in Hx.
    apply Hx. eapply firstn_incl; eauto.
Qed.

Lemma limit_clause_sorted (o : QueryOptions) (l : list DatabaseRow.t) :
  StronglySorted newer_or_equal l -> StronglySorted newer_or_equal (limit_clause o l).
Proof.
  intros Hs. unfold limit_clause. destruct (opt_limit o) as [n|]; [|assumption].
  destruct (truthy_number n); [|assumption].
  unfold sql_limit. destruct (n <? 0); [assumption | now apply firstn_sorted].
Qed.

(** [xs.map(f)] returns when [f] returns on every element, with the
    results in the order of the elements. *)
Lemma omapM_Forall2 {A B} (f : A -> outcome B) (l : list A) (ys : list B) :
  omapM f l = Returns ys <-> Forall2 (fun x y => f x = Returns y) l ys.
Proof.
  revert ys. induction l as [|x l IH]; intros ys; simpl.
  - split.
    + intros [= <-]. constructor.
    + intros Hf. inversion Hf. reflexivity.
  - split.
    + destruct (f x) as [y| |] eqn:Hfx; simpl; try discriminate.
      destruct (omapM f l) as [ys'| |] eqn:Hl; simpl; try discriminate.
      intros [= <-]. constructor; [assumption | now apply IH].
    + intros Hf. inversion Hf as [|? y ? ys' Hxy Hrest]; subst.
      rewrite Hxy. simpl. apply IH in Hrest. rewrite Hrest. reflexivity.
Qed.

Lemma rowToMemory_createdAt (r : DatabaseRow.t) (m : Memory.t) :
  rowToMemory r = Returns m -> Memory.createdAt m = Some (DatabaseRow.created_at r).
Proof.
  unfold rowToMemory. intros Hm.
  destruct (parse_or_undefined (DatabaseRow.tags r)); simpl in Hm; try discriminate.
  destruct (parse_or_undefined (DatabaseRow.metadata r)); simpl in Hm; try discriminate.
  injection Hm as <-. reflexivity.
Qed.

Lemma memories_newest_first (rs : list DatabaseRow.t) (ms : list Memory.t) :
  StronglySorted newer_or_equal rs ->
  Forall2 (fun r m => rowToMemory r = Returns m) rs ms ->
  newest_first ms.
Proof.
  intros Hs Hf. induction Hf as [|r m rs ms Hrm Hf IH]; [constructor|].
  apply StronglySorted_inv in Hs as [Hrs Hr].
  constructor; [now apply IH|].
  clear IH Hrs. induction Hf as [|r' m' rs ms Hrm' Hf IH]; constructor.
  - apply Forall_inv in Hr. exists (DatabaseRow.created_at r), (DatabaseRow.created_at r').
    repeat split; auto using rowToMemory_createdAt.
  - apply IH. now apply Forall_inv_tail in Hr.
Qed.

(** X1.  [search] and [list] hand out their results newest first: in the
    rows selected, and in the memories returned, no element is older than
    one that comes after it, whatever the query, the type filter and the
    limit. *)
Theorem results_newest_first (this : MemoryStore) (query : string) (o : QueryOptions)
    (db : Database) :
  StronglySorted newer_or_equal (search_rows this query o db) /\
  StronglySorted newer_or_equal (list_rows this o db) /\
  (forall ms, search this query o db = Returns ms -> newest_first ms) /\
  (forall ms, list_ this o db = Returns ms -> newest_first ms).
Proof.
  assert (Hs : StronglySorted newer_or_equal (search_rows this query o db))
    by apply limit_clause_sorted, order_by_sorted.
  assert (Hl : StronglySorted newer_or_equal (list_rows this o db))
    by apply limit_clause_sorted, order_by_sorted.
  split; [exact Hs|]. split; [exact Hl|].
  split; intros ms Hms; apply (proj1 (omapM_Forall2 _ _ _)) in Hms.
  - exact (memories_newest_first _ _ Hs Hms).
  - exact (memories_newest_first _ _ Hl Hms).
Qed.

Lemma omapM_length {A B} (f : A -> outcome B) (l : list A) (ys : list B) :
  omapM f l = Returns ys -> length ys = length l.
Proof.
  intros Hm. apply (proj1 (omapM_Forall2 _ _ _)) in Hm.
  induction Hm; simpl; congruence.
Qed.

Lemma omapM_firstn {A B} (f : A -> outcome B) (n : nat) (l : list A) (ys : list B) :
  omapM f l = Returns ys -> omapM f (firstn n l) = Returns (firstn n ys).
Proof.
  intros Hm. apply (proj1 (omapM_Forall2 _ _ _)) in Hm. apply omapM_Forall2.
  revert n. induction Hm; intros [|n]; simpl; constructor; auto.
Qed.

Lemma limit_clause_positive (t : option string) (n : Z) (l : list DatabaseRow.t) :
  0 < n -> limit_clause {| opt_type := t; opt_limit := Some n |} l = firstn (Z.to_nat n) l.
Proof.
  intros Hn. unfold limit_clause, truthy_number, sql_limit. simpl.
  destruct (Z.eqb_spec n 0); [lia|]. simpl.
  destruct (Z.ltb_spec n 0); [lia | reflexivity].
Qed.

Lemma limit_clause_negative (t : option string) (n : Z) (l : list DatabaseRow.t) :
  n < 0 -> limit_clause {| opt_type := t; opt_limit := Some n |} l = l.
Proof.
  intros Hn. unfold limit_clause, truthy_number, sql_limit. simpl.
  destruct (Z.eqb_spec n 0); [lia|]. simpl.
  destruct (Z.ltb_spec n 0); [reflexivity | lia].
Qed.

Lemma limit_clause_nil (o : QueryOptions) : limit_clause o [] = [].
Proof.
  unfold limit_clause, sql_limit. destruct (opt_limit o) as [n|]; [|reflexivity].
  destruct (truthy_number n); [|reflexivity].
  destruct (n <? 0); [reflexivity | apply firstn_nil].
Qed.

(** X2.  A limit that is not zero is SQLite's LIMIT.  With a positive
    limit [n], [search] and [list] return the first [n] results of the
    same call without a limit: never more than [n] memories, and the
    newest ones.  A negative limit is handed to SQLite as it is, where it
    means no limit: the calls return what they return without one. *)
Theorem limit_bounds_the_result (this : MemoryStore) (query : string)
    (t : option string) (n : Z) (db : Database) :
  let limited := {| opt_type := t; opt_limit := Some n |} in
  let all := {| opt_type := t; opt_limit := None |} in
  (0 < n ->
   search_rows this query limited db =
     firstn (Z.to_nat n) (search_rows this query all db) /\
   list_rows this limited db = firstn (Z.to_nat n) (list_rows this all db) /\
   (forall ms, search this query limited db = Returns ms -> Z.of_nat (length ms) <= n) /\
   (forall ms, list_ this limited db = Returns ms -> Z.of_nat (length ms) <= n) /\
   (forall ms, search this query all db = Returns ms ->
      search this query limited db = Returns (firstn (Z.to_nat n) ms)) /\
   (forall ms, list_ this all db = Returns ms ->
      list_ this limited db = Returns (firstn (Z.to_nat n) ms))) /\
  (n < 0 ->
   search this query limited db = search this query all db /\
   list_ this limited db = list_ this all db).
Proof.
  intros limited all. subst limited all. split.
  - intros Hn.
    assert (Hs : search_rows this query {| opt_type := t; opt_limit := Some n |} db =
                 firstn (Z.to_nat n)
                   (search_rows this query {| opt_type := t; opt_limit := None |} db))
      by (unfold search_rows; now rewrite limit_clause_positive).
    assert (Hl : list_rows this {| opt_type := t; opt_limit := Some n |} db =
                 firstn (Z.to_nat n)
                   (list_rows this {| opt_type := t; opt_limit := None |} db))
      by (unfold list_rows; now rewrite limit_clause_positive).
    split; [exact Hs|]. split; [exact Hl|].
    unfold search, list_. rewrite Hs, Hl.
    repeat split; intros ms Hms.
    + apply omapM_length in Hms. rewrite Hms, length_firstn. lia.
    + apply omapM_length in Hms. rewrite Hms, length_firstn. lia.
    + now apply omapM_firstn.
    + now apply omapM_firstn.
  - intros Hn. unfold search, list_, search_rows, list_rows.
    now rewrite !limit_clause_negative.
Qed.

(** Of the three memories of the search tests that hold "script", a limit
    of two gives the two newest, and a limit of [-1] all three. *)
Lemma limit_bounds_the_result_witness :
  omap (List.map Memory.content)
    (search (store_of "test-project-1") "script"
       {| opt_type := None; opt_limit := Some 2 |} test_search_db) =
  Returns ["JavaScript is flexible"; "Use TypeScript for type safety"] /\
  omap (@length Memory.t)
    (search (store_of "test-project-1") "script"
       {| opt_type := None; opt_limit := Some (-1) |} test_search_db) = Returns 3%nat.
Proof.
  split.
  - destruct (limit_bounds_the_result (store_of "test-project-1") "script" None 2
                test_search_db) as [Hpos _].
    destruct (Hpos ltac:(lia)) as (_ & _ & _ & _ & H & _).
    rewrite (H _ eq_refl). reflexivity.
  - destruct (limit_bounds_the_result (store_of "test-project-1") "script" None (-1)
                test_search_db) as [_ Hneg].
    rewrite (proj1 (Hneg ltac:(lia))). reflexivity.
Defined.

Lemma like_any (s : string) : like "%%" s = true.
Proof.
  change "%%" with (String "%" "%"). rewrite like_percent.
  now apply at_some_character_end.
Qed.

Lemma filter_ext_all {A} (f g : A -> bool) (l : list A) :
  (forall x, f x = g x) -> List.filter f l = List.filter g l.
Proof. intros Hfg. induction l as [|x l IH]; simpl; [reflexivity | now rewrite Hfg, IH]. Qed.

(** X3.  A search for the empty string is the listing: [search("", o)]
    and [list(o)] select the same rows and return the same outcome, for
    every instance, type filter and limit. *)
Theorem search_of_empty_query_is_list (this : MemoryStore) (o : QueryOptions)
    (db : Database) :
  search_rows this "" o db = list_rows this o db /\
  search this "" o db = list_ this o db.
Proof.
  assert (Hr : search_rows this "" o db = list_rows this o db).
  { unfold search_rows, list_rows. do 2 f_equal.
    apply filter_ext_all. intros r.
    change ("%" +:+ "" +:+ "%") with "%%". now rewrite like_any. }
  split; [exact Hr|]. unfold search, list_. now rewrite Hr.
Qed.

Lemma insert_desc_front (r : DatabaseRow.t) (l : list DatabaseRow.t) :
  Forall (fun y => String.ltb (DatabaseRow.created_at y) (DatabaseRow.created_at r) = true) l ->
  insert_desc r l = r :: l.
Proof.
  destruct l as [|x xs]; [reflexivity|]. intros Hall. apply Forall_inv in Hall.
  simpl. now rewrite Hall.
Qed.

(** Selecting commutes with ordering. *)
Lemma filter_insert_desc (f : DatabaseRow.t -> bool) (r : DatabaseRow.t)
    (l : list DatabaseRow.t) :
  StronglySorted newer_or_equal l ->
  List.filter f (insert_desc r l) =
  if f r then insert_desc r (List.filter f l) else List.filter f l.
Proof.
  induction l as [|x xs IH]; intros Hs.
  - simpl. destruct (f r); reflexivity.
  - apply StronglySorted_inv in Hs as [Hxs Hx]. specialize (IH Hxs).
    cbn [insert_desc].
    destruct (String.ltb (DatabaseRow.created_at x) (DatabaseRow.created_at r)) eqn:Hlt.
    + cbn [List.filter]. destruct (f r) eqn:Hr; [|reflexivity].
      destruct (f x) eqn:Hfx.
      * cbn [insert_desc]. now rewrite Hlt.
      * rewrite insert_desc_front; [reflexivity|].
        apply List.Forall_forall. intros y Hy. apply filter_In in Hy as [Hy _].
        rewrite List.Forall_forall in Hx. specialize (Hx y Hy).
        unfold newer_or_equal in Hx. eapply ltb_le_lt; eauto.
    + cbn [List.filter]. rewrite IH. destruct (f x) eqn:Hfx, (f r) eqn:Hr; try reflexivity.
      cbn [insert_desc]. now rewrite Hlt.
Qed.

Lemma filter_order_by (f : DatabaseRow.t -> bool) (l : list DatabaseRow.t) :
  List.filter f (order_by_created_at_desc l) = order_by_created_at_desc (List.filter f l).
Proof.
  induction l as [|r l IH]; [reflexivity|].
  change (order_by_created_at_desc (r :: l))
    with (insert_desc r (order_by_created_at_desc l)).
  rewrite filter_insert_desc by apply order_by_sorted.
  cbn [List.filter]. destruct (f r); rewrite IH; reflexivity.
Qed.

Lemma filter_and {A} (f g : A -> bool) (l : list A) :
  List.filter f (List.filter g l) = List.filter (fun x => g x && f x)%bool l.
Proof.
  induction l as [|x l IH]; simpl; [reflexivity|].
  destruct (g x); simpl; [destruct (f x)|]; now rewrite IH.
Qed.

Lemma omapM_filter {A B} (f : A -> outcome B) (p : A -> bool) (q : B -> bool)
    (l : list A) (ys : list B) :
  (forall x y, f x = Returns y -> q y = p x) ->
  omapM f l = Returns ys -> omapM f (List.filter p l) = Returns (List.filter q ys).
Proof.
  intros Hpq Hm. apply (proj1 (omapM_Forall2 _ _ _)) in Hm. apply omapM_Forall2.
  induction Hm as [|x y l ys Hxy Hm IH]; simpl; [constructor|].
  rewrite (Hpq x y Hxy). destruct (p x); [constructor|]; auto.
Qed.

(** X4.  Without a limit, [search] returns the memories that [list]
    returns under the same type filter, with those left out whose content
    does not match the LIKE pattern, and the others in the order of the
    listing. *)
Theorem search_is_list_filtered (this : MemoryStore) (query : string)
    (t : option string) (db : Database) :
  let all := {| opt_type := t; opt_limit := None |} in
  let pattern := "%" +:+ query +:+ "%" in
  search_rows this query all db =
    List.filter (fun r => like pattern (DatabaseRow.content r)) (list_rows this all db) /\
  (forall ms, list_ this all db = Returns ms ->
     search this query all db =
       Returns (List.filter (fun m => like pattern (Memory.content m)) ms)).
Proof.
  intros all pattern. subst all pattern.
  assert (Hr : search_rows this query {| opt_type := t; opt_limit := None |} db =
               List.filter (fun r => like ("%" +:+ query +:+ "%") (DatabaseRow.content r))
                 (list_rows this {| opt_type := t; opt_limit := None |} db)).
  { unfold search_rows, list_rows, limit_clause. cbn [opt_limit].
    rewrite filter_order_by, filter_and. f_equal. apply filter_ext_all. intros r.
    destruct (like _ _), (in_scope this r), (type_clause _ r); reflexivity. }
  split; [exact Hr|]. intros ms Hms. unfold search. rewrite Hr.
  apply omapM_filter with (2 := Hms). intros r m Hrm.
  apply rowToMemory_fields in Hrm as (_ & _ & -> & _). reflexivity.
Qed.

(** * Writes: [delete] and [clear] *)

Lemma filter_absorb {A} (f g : A -> bool) (l : list A) :
  (forall x, f x = true -> g x = true) ->
  List.filter f (List.filter g l) = List.filter f l.
Proof.
  intros Hfg. induction l as [|x l IH]; simpl; [reflexivity|].
  destruct (g x) eqn:Hg; simpl.
  - destruct (f x); now rewrite IH.
  - destruct (f x) eqn:Hf; [|exact IH]. apply Hfg in Hf. congruence.
Qed.

Lemma find_absorb {A} (f g : A -> bool) (l : list A) :
  (forall x, f x = true -> g x = true) ->
  List.find f (List.filter g l) = List.find f l.
Proof.
  intros Hfg. induction l as [|x l IH]; simpl; [reflexivity|].
  destruct (g x) eqn:Hg; simpl.
  - destruct (f x); [reflexivity | exact IH].
  - destruct (f x) eqn:Hf; [|exact IH]. apply Hfg in Hf. congruence.
Qed.

Lemma filter_none {A} (f g : A -> bool) (l : list A) :
  (forall x, f x = true -> g x = false) ->
  List.filter f (List.filter g l) = [].
Proof.
  intros Hfg. induction l as [|x l IH]; simpl; [reflexivity|].
  destruct (g x) eqn:Hg; simpl; [|exact IH].
  destruct (f x) eqn:Hf; [|exact IH]. apply Hfg in Hf. congruence.
Qed.

Lemma find_filter_none {A} (f g : A -> bool) (l : list A) :
  (forall x, f x = true -> g x = false) -> List.find f (List.filter g l) = None.
Proof.
  intros Hfg. induction l as [|x l IH]; simpl; [reflexivity|].
  destruct (g x) eqn:Hg; simpl; [|exact IH].
  destruct (f x) eqn:Hf; [|exact IH]. apply Hfg in Hf. congruence.
Qed.

Lemma filter_all {A} (g : A -> bool) (l : list A) :
  (forall x, In x l -> g x = true) -> List.filter g l = l.
Proof.
  induction l as [|x l IH]; intros Hg; simpl; [reflexivity|].
  rewrite (Hg x (or_introl eq_refl)). f_equal. apply IH. intros y Hy. apply Hg. now right.
Qed.

Lemma separate_scopes (this that : MemoryStore) (r : DatabaseRow.t) :
  separate this that -> in_scope that r = true -> in_scope this r = false.
Proof.
  intros (p & q & Hp & Hq & Hpq).
  rewrite (in_scope_isolated _ _ _ Hp), (in_scope_isolated _ _ _ Hq).
  destruct (DatabaseRow.project_id r) as [x|]; simpl; [|discriminate].
  intros Hx. apply String.eqb_eq in Hx. subst x. now apply String.eqb_neq.
Qed.

(** Dropping rows that an instance does not select changes nothing of what
    it observes. *)
Lemma same_view_kept (that : MemoryStore) (keep : DatabaseRow.t -> bool) (db : Database) :
  (forall r, in_scope that r = true -> keep r = true) ->
  same_view that db {| rows := List.filter keep (rows db); seq := seq db |}.
Proof.
  intros Hkeep. unfold same_view, get, search, list_, stats, search_rows, list_rows.
  cbn [rows].
  repeat split; intros.
  - rewrite find_absorb; [reflexivity|].
    intros r Hr. apply andb_true_iff in Hr as [_ Hr]. auto.
  - rewrite filter_absorb; [reflexivity|].
    intros r Hr. apply andb_true_iff in Hr as [Hr _]. apply andb_true_iff in Hr as [_ Hr]. auto.
  - rewrite filter_absorb; [reflexivity|].
    intros r Hr. apply andb_true_iff in Hr as [Hr _]. auto.
  - rewrite filter_absorb; [reflexivity|]. auto.
Qed.

(** X5.  What one project deletes or clears, another project does not
    notice: after [delete(id)] or [clear()] through an instance scoped to
    one project, [get], [search], [list] and [stats] through an instance
    scoped to a different project return what they returned before. *)
Theorem foreign_writes_unobservable (this that : MemoryStore) (id : Z) (db : Database) :
  separate this that ->
  same_view that db (snd (delete this id db)) /\
  same_view that db (snd (clear this db)).
Proof.
  intros Hsep. split; apply same_view_kept; intros r Hr;
    rewrite (separate_scopes _ _ _ Hsep Hr); [now rewrite andb_false_r | reflexivity].
Qed.

(** Project A deletes the id of B's memory, then clears; B sees what it
    saw. *)
Lemma foreign_writes_unobservable_witness :
  separate (store_of "project-A") (store_of "project-B") /\
  same_view (store_of "project-B") test_clear_db
    (snd (delete (store_of "project-A") 2 test_clear_db)) /\
  same_view (store_of "project-B") test_clear_db
    (snd (clear (store_of "project-A") test_clear_db)).
Proof.
  assert (Hsep : separate (store_of "project-A") (store_of "project-B")).
  { exists "project-A", "project-B". repeat split. discriminate. }
  split; [exact Hsep|].
  exact (foreign_writes_unobservable _ _ 2 test_clear_db Hsep).
Defined.

(** X6.  After [delete(id)] the instance that deleted finds nothing under
    [id]; every other id is found as before, by every instance; the rows
    that remain are those that do not carry [id] or lie outside the scope
    of the instance; the AUTOINCREMENT counter is untouched; and a second
    [delete(id)] changes nothing more. *)
Theorem delete_removes_the_visible_row (this : MemoryStore) (id : Z) (db : Database) :
  let db' := snd (delete this id db) in
  get this id db' = Returns None /\
  (forall (that : MemoryStore) (other : Z),
     other <> id -> get that other db' = get that other db) /\
  (forall (r : DatabaseRow.t),
     In r (rows db') <->
     In r (rows db) /\ (DatabaseRow.id r = id -> in_scope this r = false)) /\
  seq db' = seq db /\
  delete this id db' = (Returns true, db').
Proof.
  intros db'. subst db'. unfold delete, get. cbn [snd rows seq].
  split; [|split; [|split; [|split]]].
  - rewrite find_filter_none; [reflexivity|]. intros r ->. reflexivity.
  - intros that other Hne. rewrite find_absorb; [reflexivity|].
    intros r Hr. apply andb_true_iff in Hr as [Hr _]. apply Z.eqb_eq in Hr.
    destruct (Z.eqb_spec (DatabaseRow.id r) id); [congruence | reflexivity].
  - intros r. rewrite filter_In. split; intros [Hin Hr]; (split; [exact Hin|]).
    + cbv beta in Hr. intros Hid. rewrite Hid, Z.eqb_refl in Hr.
      now apply negb_true_iff in Hr.
    + cbv beta. destruct (Z.eqb_spec (DatabaseRow.id r) id) as [e|]; [|reflexivity].
      simpl. now rewrite (Hr e).
  - reflexivity.
  - f_equal. f_equal. rewrite filter_absorb; [reflexivity|]. auto.
Qed.

(** X7.  Deleting an id under which the instance finds nothing (no such
    row, or a row of another project) leaves the database exactly as it
    was; the call returns [true] all the same. *)
Theorem delete_of_invisible_id_changes_nothing (this : MemoryStore) (id : Z)
    (db : Database) :
  get this id db = Returns None ->
  delete this id db = (Returns true, db).
Proof.
  unfold get, delete. intros Hget. f_equal.
  destruct (List.find _ (rows db)) as [row|] eqn:Hfind.
  - destruct (rowToMemory row); discriminate.
  - destruct db as [rs sq]. cbn [rows seq] in *. f_equal.
    apply filter_all. intros r Hr.
    pose proof (find_none _ _ Hfind r Hr) as Hnone. cbv beta in Hnone. now rewrite Hnone.
Qed.

(** Memory 2 belongs to project B; project A deletes it to no effect. *)
Lemma delete_of_invisible_id_changes_nothing_witness :
  get (store_of "project-A") 2 test_clear_db = Returns None /\
  delete (store_of "project-A") 2 test_clear_db = (Returns true, test_clear_db).
Proof.
  split; [reflexivity|].
  apply (delete_of_invisible_id_changes_nothing (store_of "project-A") 2 test_clear_db).
  reflexivity.
Defined.

(** X8.  [clear()] returns the total that [stats()] reported before it.
    Afterwards the instance finds nothing: [search] and [list] return the
    empty list, [get] returns null, [stats] counts zero, and a second
    [clear()] returns [0] and changes nothing.  The rows that remain are
    those outside the scope of the instance; the AUTOINCREMENT counter is
    untouched. *)
Theorem clear_empties_the_view (this : MemoryStore) (db : Database) :
  let db' := snd (clear this db) in
  fst (clear this db) = omap total (stats this db) /\
  (forall q o, search this q o db' = Returns []) /\
  (forall o, list_ this o db' = Returns []) /\
  (forall i, get this i db' = Returns None) /\
  omap total (stats this db') = Returns 0%nat /\
  clear this db' = (Returns 0%nat, db') /\
  (forall r, In r (rows db') <-> In r (rows db) /\ in_scope this r = false) /\
  seq db' = seq db.
Proof.
  intros db'. subst db'. unfold clear, stats, search, list_, get, search_rows, list_rows.
  cbn [fst snd rows seq omap obind total].
  split; [reflexivity|].
  split; [|split; [|split; [|split; [|split; [|split]]]]].
  - intros q o. rewrite filter_none;
      [cbn [order_by_created_at_desc fold_right]; now rewrite limit_clause_nil | ].
    intros r Hr. apply andb_true_iff in Hr as [Hr _]. apply andb_true_iff in Hr as [_ ->].
    reflexivity.
  - intros o. rewrite filter_none;
      [cbn [order_by_created_at_desc fold_right]; now rewrite limit_clause_nil | ].
    intros r Hr. apply andb_true_iff in Hr as [-> _]. reflexivity.
  - intros i. rewrite find_filter_none; [reflexivity|].
    intros r Hr. apply andb_true_iff in Hr as [_ ->]. reflexivity.
  - rewrite filter_none; [reflexivity|]. intros r ->. reflexivity.
  - rewrite filter_none by (intros r ->; reflexivity). cbn [length].
    do 2 f_equal. rewrite filter_absorb; [reflexivity | auto].
  - intros r. rewrite filter_In, negb_true_iff. reflexivity.
  - reflexivity.
Qed.

(** * Counting: [stats] and [getAllProjects] *)

Lemma count_by_type_lookup (l : list DatabaseRow.t) (t : string) :
  count_by_type l !! t =
  match rows_of_type t l with O => None | n => Some n end.
Proof.
  induction l as [|r l IH]; [reflexivity|].
  unfold rows_of_type in *. cbn [count_by_type fold_right List.filter].
  fold (count_by_type l).
  destruct (String.eqb_spec (DatabaseRow.type r) t) as [e|ne].
  - rewrite e, lookup_insert_eq, IH. cbn [length].
    now destruct (length _).
  - rewrite lookup_insert_ne by assumption. exact IH.
Qed.

Lemma sum_of_counts_insert (m : gmap string nat) (k : string) :
  sum_of_counts (<[k := S (default O (m !! k))]> m) = S (sum_of_counts m).
Proof.
  unfold sum_of_counts.
  destruct (m !! k) as [n|] eqn:Hk; cbn [default].
  - rewrite <- (insert_delete_id m k n Hk) at 2.
    rewrite <- (insert_delete_eq m k (S n)).
    rewrite !map_fold_insert_L; try (intros; lia); try apply lookup_delete_eq.
  - rewrite map_fold_insert_L; try (intros; lia); auto.
Qed.

Lemma sum_of_counts_count_by_type (l : list DatabaseRow.t) :
  sum_of_counts (count_by_type l) = length l.
Proof.
  induction l as [|r l IH]; [reflexivity|].
  cbn [count_by_type fold_right length]. fold (count_by_type l).
  now rewrite sum_of_counts_insert, IH.
Qed.

(** X9.  [stats()] always returns.  Its [byType] has an entry exactly for
    the types that occur among the rows the instance sees, and the entry
    is the number of those rows; a type that does not occur has no entry
    (not a zero).  [total] is the sum of the entries and the number of
    rows the instance sees. *)
Theorem stats_counts_by_type (this : MemoryStore) (db : Database) :
  exists s : Stats,
    stats this db = Returns s /\
    (forall t : string,
       byType s !! t =
       match rows_of_type t (List.filter (in_scope this) (rows db)) with
       | O => None
       | n => Some n
       end) /\
    total s = sum_of_counts (byType s) /\
    total s = length (List.filter (in_scope this) (rows db)).
Proof.
  eexists. split; [reflexivity|]. cbn [byType total].
  split; [intros t; apply count_by_type_lookup|].
  split; [now rewrite sum_of_counts_count_by_type | reflexivity].
Qed.

Lemma bump_count_of (p q : string) (l : list (string * nat)) :
  count_of q (bump p l) = if String.eqb q p then S (count_of q l) else count_of q l.
Proof.
  induction l as [|[k n] l IH]; simpl.
  - destruct (String.eqb q p); reflexivity.
  - destruct (String.eqb_spec p k) as [->|Hpk]; simpl.
    + destruct (String.eqb q k); reflexivity.
    + destruct (String.eqb_spec q k) as [->|Hqk].
      * destruct (String.eqb_spec k p); [congruence | reflexivity].
      * exact IH.
Qed.

Lemma bump_NoDup (p : string) (l : list (string * nat)) :
  List.NoDup (List.map fst l) -> List.NoDup (List.map fst (bump p l)).
Proof.
  induction l as [|[k n] l IH]; simpl; intros Hnd.
  - constructor; [intros [] | constructor].
  - apply List.NoDup_cons_iff in Hnd as [Hk Hnd].
    destruct (String.eqb_spec p k) as [->|Hpk]; simpl.
    + now constructor.
    + constructor; [|auto]. intros Hin. apply bump_keys in Hin as [-> | Hin]; auto.
Qed.

Lemma bump_positive (p : string) (l : list (string * nat)) :
  Forall (fun e => (0 < snd e)%nat) l -> Forall (fun e => (0 < snd e)%nat) (bump p l).
Proof.
  induction l as [|[k n] l IH]; simpl; intros Hpos.
  - repeat constructor.
  - destruct (String.eqb p k); constructor; simpl.
    + lia.
    + now apply Forall_inv_tail in Hpos.
    + now apply Forall_inv in Hpos.
    + apply IH. now apply Forall_inv_tail in Hpos.
Qed.

Lemma bump_sum (p : string) (l : list (string * nat)) :
  list_sum (List.map snd (bump p l)) = S (list_sum (List.map snd l)).
Proof.
  induction l as [|[k n] l IH]; simpl; [reflexivity|].
  destruct (String.eqb p k); simpl; [reflexivity | rewrite IH; lia].
Qed.

Lemma count_of_In (q : string) (n : nat) (l : list (string * nat)) :
  List.NoDup (List.map fst l) -> In (q, n) l -> count_of q l = n.
Proof.
  induction l as [|[k m] l IH]; simpl; intros Hnd Hin; [contradiction|].
  apply List.NoDup_cons_iff in Hnd as [Hk Hnd].
  destruct Hin as [[= -> ->] | Hin].
  - now rewrite String.eqb_refl.
  - destruct (String.eqb_spec q k) as [->|]; [|auto].
    exfalso. apply Hk. apply in_map_iff. now exists (k, n).
Qed.

Lemma In_count_of (q : string) (l : list (string * nat)) :
  (0 < count_of q l)%nat -> In (q, count_of q l) l.
Proof.
  induction l as [|[k m] l IH]; simpl; intros Hpos; [lia|].
  destruct (String.eqb_spec q k) as [->|]; [now left | right; auto].
Qed.

(** The groups of [GROUP BY project_id]: one per project id, with the
    number of its rows. *)
Lemma groups_spec (l : list DatabaseRow.t) (acc : list (string * nat)) :
  let groups :=
    fold_left
      (fun acc r =>
         match DatabaseRow.project_id r with
         | Some p => bump p acc
         | None => acc
         end) l acc in
  List.NoDup (List.map fst acc) ->
  Forall (fun e => (0 < snd e)%nat) acc ->
  List.NoDup (List.map fst groups) /\
  Forall (fun e => (0 < snd e)%nat) groups /\
  (forall q, count_of q groups = (count_of q acc + rows_of_project q l)%nat) /\
  list_sum (List.map snd groups) =
    (list_sum (List.map snd acc) + length (List.filter has_project l))%nat.
Proof.
  revert acc. induction l as [|r l IH]; intros acc groups Hnd Hpos; subst groups.
  - simpl. repeat split; auto; intros; unfold rows_of_project; simpl; lia.
  - cbn [fold_left]. unfold rows_of_project, has_project in *. cbn [List.filter].
    destruct (DatabaseRow.project_id r) as [p|] eqn:Hp.
    + destruct (IH (bump p acc) (bump_NoDup _ _ Hnd) (bump_positive _ _ Hpos))
        as (H1 & H2 & H3 & H4).
      split; [exact H1|]. split; [exact H2|]. split.
      * intros q. rewrite H3, bump_count_of. cbn [sql_eq].
        rewrite (String.eqb_sym p q). destruct (String.eqb q p); cbn [length]; lia.
      * rewrite H4, bump_sum. cbn [length]. lia.
    + destruct (IH acc Hnd Hpos) as (H1 & H2 & H3 & H4).
      split; [exact H1|]. split; [exact H2|]. split.
      * intros q. rewrite H3. reflexivity.
      * rewrite H4. reflexivity.
Qed.

Lemma insert_by_count_perm (e : string * nat) (l : list (string * nat)) :
  Permutation (insert_by_count e l) (e :: l).
Proof.
  induction l as [|x xs IH]; simpl; [reflexivity|].
  destruct (outranks e x); [reflexivity|].
  rewrite IH. apply perm_swap.
Qed.

Lemma sort_by_count_perm (l : list (string * nat)) :
  Permutation (fold_right insert_by_count [] l) l.
Proof.
  induction l as [|x xs IH]; simpl; [reflexivity|].
  rewrite insert_by_count_perm. now constructor.
Qed.

Lemma insert_by_count_sorted (e : string * nat) (l : list (string * nat)) :
  StronglySorted by_count_desc l -> StronglySorted by_count_desc (insert_by_count e l).
Proof.
  induction l as [|x xs IH]; intros Hs; simpl.
  - repeat constructor.
  - apply StronglySorted_inv in Hs as [Hxs Hx].
    assert (Hrank : if outranks e x then (snd x <= snd e)%nat else (snd e <= snd x)%nat).
    { unfold outranks. destruct (Nat.ltb_spec (snd x) (snd e)); simpl; [lia|].
      destruct (Nat.eqb_spec (snd x) (snd e)); simpl; [|lia].
      destruct (String.ltb (fst e) (fst x)); lia. }
    destruct (outranks e x).
    + constructor; [now constructor|].
      constructor; [unfold by_count_desc; lia|].
      eapply Forall_impl; [exact Hx|]. unfold by_count_desc. intros; simpl in *; lia.
    + constructor; [auto|].
      apply List.Forall_forall. intros y Hy. apply insert_by_count_In in Hy as [-> | Hy].
      * unfold by_count_desc; lia.
      * rewrite List.Forall_forall in Hx. now apply Hx.
Qed.

Lemma sort_by_count_sorted (l : list (string * nat)) :
  StronglySorted by_count_desc (fold_right insert_by_count [] l).
Proof.
  induction l as [|x xs IH]; simpl; [constructor | now apply insert_by_count_sorted].
Qed.

(** X10.  [getAllProjects()] lists every project id once; the pair
    [(p, n)] is listed exactly when [n] rows carry the project id [p] and
    [n] is not zero; the pairs come with the largest count first; rows
    without a project id are counted nowhere, so the counts add up to the
    number of rows that have one. *)
Theorem getAllProjects_counts_rows (db : Database) :
  List.NoDup (List.map fst (getAllProjects db)) /\
  (forall (p : string) (n : nat),
     In (p, n) (getAllProjects db) <->
     n = rows_of_project p (rows db) /\ (0 < n)%nat) /\
  StronglySorted by_count_desc (getAllProjects db) /\
  list_sum (List.map snd (getAllProjects db)) =
    length (List.filter has_project (rows db)).
Proof.
  unfold getAllProjects.
  destruct (groups_spec (rows db) [] (List.NoDup_nil _) (List.Forall_nil _))
    as (Hnd & Hpos & Hcount & Hsum).
  set (groups := fold_left _ (rows db) []) in *.
  pose proof (sort_by_count_perm groups) as Hperm.
  split; [|split; [|split]].
  - eapply Permutation_NoDup; [|exact Hnd].
    apply Permutation_map, Permutation_sym, Hperm.
  - intros p n. rewrite sort_by_count_In. split.
    + intros Hin. pose proof (count_of_In _ _ _ Hnd Hin) as Hc.
      rewrite Hcount in Hc. simpl in Hc. split; [now rewrite <- Hc|].
      rewrite List.Forall_forall in Hpos. exact (Hpos _ Hin).
    + intros [-> Hpos']. specialize (Hcount p). simpl in Hcount.
      rewrite <- Hcount in *. now apply In_count_of.
  - apply sort_by_count_sorted.
  - rewrite (Permutation_map snd Hperm) at 1. rewrite Hsum. reflexivity.
Qed.

(** * Writes: [add] *)

Lemma add_accepted (this : MemoryStore) (now : string) (memory : Memory.t) (db : Database) :
  type_check (Memory.type memory) = true ->
  add this now memory db =
    (Returns (next_rowid db),
     {| rows := rows db ++ [inserted_row this now memory (next_rowid db)];
        seq := next_rowid db |}).
Proof. intros Ht. unfold add. now rewrite Ht. Qed.

Lemma add_rejected (this : MemoryStore) (now : string) (memory : Memory.t) (db : Database) :
  type_check (Memory.type memory) = false ->
  add this now memory db = (Throws (SQLiteError check_failed), db).
Proof. intros Ht. unfold add. now rewrite Ht. Qed.

Lemma add_returns (this : MemoryStore) (now : string) (memory : Memory.t) (db : Database)
    (id : Z) :
  fst (add this now memory db) = Returns id ->
  type_check (Memory.type memory) = true /\ id = next_rowid db.
Proof.
  destruct (type_check (Memory.type memory)) eqn:Ht.
  - rewrite add_accepted by assumption. intros [= <-]. auto.
  - rewrite add_rejected by assumption. discriminate.
Qed.

Lemma next_rowid_above (db : Database) :
  seq db < next_rowid db /\ Forall (fun r => DatabaseRow.id r < next_rowid db) (rows db).
Proof.
  unfold next_rowid. split; [lia|].
  apply List.Forall_forall. intros r Hr. pose proof (max_rowid_bound _ _ Hr). lia.
Qed.

Lemma run_call_seq (db : Database) (c : call) : seq db <= seq (run_call db c).
Proof.
  destruct c as [this now memory|this id|this]; simpl; try lia.
  destruct (type_check (Memory.type memory)) eqn:Ht.
  - rewrite add_accepted by assumption. simpl. destruct (next_rowid_above db). lia.
  - rewrite add_rejected by assumption. simpl. lia.
Qed.

Lemma run_seq (calls : list call) (db : Database) : seq db <= seq (run calls db).
Proof.
  revert db. induction calls as [|c calls IH]; intros db; simpl; [lia|].
  etransitivity; [apply (run_call_seq db c) | apply IH].
Qed.

(** X11.  An id is never given twice.  If [add] returns [id1], and later,
    after any calls of [add], [delete] and [clear] through any instances,
    [add] returns [id2], then [id1 < id2]; and the id that [add] returns
    is larger than the id of every row in the table at that moment.
    Deleting a memory does not free its id. *)
Theorem add_ids_never_reused (this1 this2 : MemoryStore) (now1 now2 : string)
    (memory1 memory2 : Memory.t) (calls : list call) (db : Database) (id1 id2 : Z) :
  fst (add this1 now1 memory1 db) = Returns id1 ->
  fst (add this2 now2 memory2 (run calls (snd (add this1 now1 memory1 db)))) = Returns id2 ->
  id1 < id2 /\
  Forall (fun r => DatabaseRow.id r < id1) (rows db) /\
  Forall (fun r => DatabaseRow.id r < id2)
    (rows (run calls (snd (add this1 now1 memory1 db)))).
Proof.
  intros H1 H2.
  apply add_returns in H1 as [Ht1 ->]. apply add_returns in H2 as [Ht2 ->].
  rewrite add_accepted by assumption. cbn [snd].
  set (db1 := {| rows := _; seq := next_rowid db |}).
  pose proof (run_seq calls db1) as Hseq. cbn [seq db1] in Hseq.
  destruct (next_rowid_above (run calls db1)) as [Ha Hb].
  destruct (next_rowid_above db) as [_ Hc].
  repeat split; [lia | exact Hc | exact Hb].
Qed.

(** The first memory gets id 1; it is deleted and the table cleared; the
    next memory gets id 2. *)
Lemma add_ids_never_reused_witness :
  let this := store_of "test-project-1" in
  let first := sample_memory "first" "fact" in
  let second := sample_memory "second" "note" in
  fst (add this "2025-12-01 10:00:00" first empty_db) = Returns 1 /\
  fst (add this "2025-12-01 10:00:02" second
         (run [Delete this 1; Clear this]
            (snd (add this "2025-12-01 10:00:00" first empty_db)))) = Returns 2 /\
  1 < 2.
Proof.
  split; [reflexivity|]. split; [reflexivity|].
  exact (proj1 (add_ids_never_reused
                  (store_of "test-project-1") (store_of "test-project-1")
                  "2025-12-01 10:00:00" "2025-12-01 10:00:02"
                  (sample_memory "first" "fact") (sample_memory "second" "note")
                  [Delete (store_of "test-project-1") 1; Clear (store_of "test-project-1")]
                  empty_db 1 2 eq_refl eq_refl)).
Defined.

Lemma stored_value_parses (value : option json) :
  storable value = true ->
  parse_or_undefined (stringify_or_null value) =
    Returns (match value with
             | Some v => if truthy v then Some v else None
             | None => None
             end).
Proof.
  destruct value as [v|]; [|reflexivity]. cbn [storable]. intros Hser.
  unfold stringify_or_null. destruct (truthy v) eqn:Htr; [|reflexivity].
  unfold parse_or_undefined.
  now rewrite (stringify_truthy v Hser), (JSON_roundtrip v Hser).
Qed.

Lemma find_app_fresh {A} (f : A -> bool) (l : list A) (x : A) :
  (forall y, In y l -> f y = false) ->
  List.find f (l ++ [x]) = if f x then Some x else None.
Proof.
  induction l as [|y l IH]; intros Hl; simpl; [reflexivity|].
  rewrite (Hl y (or_introl eq_refl)). apply IH. intros z Hz. apply Hl. now right.
Qed.

Lemma find_app_old {A} (f : A -> bool) (l : list A) (x : A) :
  f x = false -> List.find f (l ++ [x]) = List.find f l.
Proof.
  intros Hx. induction l as [|y l IH]; simpl; [now rewrite Hx|].
  destruct (f y); [reflexivity | exact IH].
Qed.

(** X12.  What [add] stores is what [get] returns.  For a memory of a
    valid type whose tags are a list of strings (or absent) and whose
    metadata is a serializable mapping (or absent), [add] returns an id
    under which every instance that has the new row in its scope gets the
    memory back: the fields given, the id, the project id under which it
    was stored, and the time of the call as [createdAt] and [updatedAt].
    An instance that does not have the row in its scope gets null.  Under
    every other id, every instance gets what it got before. *)
Theorem add_then_get (this : MemoryStore) (now : string) (memory : Memory.t)
    (db : Database) :
  In (Memory.type memory) memory_types ->
  tag_list (Memory.tags memory) ->
  metadata_mapping (Memory.metadata memory) ->
  exists (id : Z) (db' : Database),
    add this now memory db = (Returns id, db') /\
    (forall that : MemoryStore,
       get that id db' =
       Returns (if in_scope that (inserted_row this now memory id)
                then Some (stored_memory this now memory id)
                else None)) /\
    (forall (that : MemoryStore) (other : Z),
       other <> id -> get that other db' = get that other db).
Proof.
  intros Ht Htags Hmeta. apply type_check_spec in Ht.
  eexists _, _. split; [apply add_accepted; exact Ht|].
  destruct (next_rowid_above db) as [_ Hfresh]. rewrite List.Forall_forall in Hfresh.
  split.
  - intros that. unfold get. cbn [rows].
    rewrite find_app_fresh.
    + cbn [inserted_row DatabaseRow.id]. rewrite Z.eqb_refl. cbn [andb].
      fold (inserted_row this now memory (next_rowid db)).
      destruct (in_scope that _); [|reflexivity].
      unfold rowToMemory. cbn [inserted_row DatabaseRow.tags DatabaseRow.metadata].
      rewrite (tag_list_round_trip _ Htags), (metadata_round_trip _ Hmeta).
      reflexivity.
    + intros r Hr. specialize (Hfresh r Hr).
      destruct (Z.eqb_spec (DatabaseRow.id r) (next_rowid db)); [lia | reflexivity].
  - intros that other Hne. unfold get. cbn [rows].
    rewrite find_app_old; [reflexivity|].
    cbn [inserted_row DatabaseRow.id].
    destruct (Z.eqb_spec (next_rowid db) other); [congruence | reflexivity].
Qed.

Lemma add_then_get_witness :
  let this := store_of "project-1" in
  let memory := with_tags (Some (JArr [JStr "a"])) None (sample_memory "kept" "decision") in
  exists (id : Z) (db' : Database),
    add this "2025-12-01 10:00:00" memory test_clear_db = (Returns id, db') /\
    (forall that : MemoryStore,
       get that id db' =
       Returns (if in_scope that (inserted_row this "2025-12-01 10:00:00" memory id)
                then Some (stored_memory this "2025-12-01 10:00:00" memory id)
                else None)) /\
    (forall (that : MemoryStore) (other : Z),
       other <> id -> get that other db' = get that other test_clear_db).
Proof.
  apply (add_then_get (store_of "project-1") "2025-12-01 10:00:00"
           (with_tags (Some (JArr [JStr "a"])) None (sample_memory "kept" "decision"))
           test_clear_db).
  - simpl. tauto.
  - right. exists ["a"]. reflexivity.
  - left. reflexivity.
Defined.

(** X13.  A memory added is counted once.  After a successful [add], the
    table has one row more; the [total] of [stats], and the [byType]
    count of the memory's type, have grown by one for every instance that
    has the new row in its scope, and are unchanged for every other
    instance; the counts of the other types are unchanged for all. *)
Theorem add_counts_once (this that : MemoryStore) (now : string) (memory : Memory.t)
    (db : Database) :
  In (Memory.type memory) memory_types ->
  exists (id : Z) (db' : Database) (s s' : Stats),
    add this now memory db = (Returns id, db') /\
    stats that db = Returns s /\
    stats that db' = Returns s' /\
    let seen := in_scope that (inserted_row this now memory id) in
    total s' = ((if seen then 1 else 0) + total s)%nat /\
    (forall t : string,
       default O (byType s' !! t) =
       ((if (seen && String.eqb (Memory.type memory) t)%bool then 1 else 0) +
        default O (byType s !! t))%nat) /\
    length (rows db') = S (length (rows db)).
Proof.
  intros Ht. apply type_check_spec in Ht.
  eexists _, _, _, _. split; [apply add_accepted; exact Ht|].
  split; [reflexivity|]. split; [reflexivity|].
  cbn [total byType rows]. rewrite List.filter_app. cbn [List.filter].
  set (row := inserted_row this now memory (next_rowid db)).
  split; [|split].
  - rewrite List.length_app. destruct (in_scope that row); simpl; lia.
  - intros t. rewrite !count_by_type_lookup. unfold rows_of_type.
    rewrite List.filter_app, List.length_app.
    destruct (in_scope that row); cbn [List.filter andb].
    + change (DatabaseRow.type row) with (Memory.type memory).
      destruct (String.eqb (Memory.type memory) t); cbn [length app];
        destruct (length _); simpl; lia.
    + cbn [length]. rewrite Nat.add_0_r. destruct (length _); simpl; lia.
  - rewrite List.length_app. simpl. lia.
Qed.

(** Project A holds a fact and a note; a second note makes three
    memories, two of them notes. *)
Lemma add_counts_once_witness :
  exists (id : Z) (db' : Database) (s s' : Stats),
    add (store_of "project-A") "2025-12-01 10:00:05" (sample_memory "A3" "note")
      test_clear_db = (Returns id, db') /\
    stats (store_of "project-A") test_clear_db = Returns s /\
    stats (store_of "project-A") db' = Returns s' /\
    total s = 2%nat /\ total s' = 3%nat /\
    byType s !! "note" = Some 1%nat /\ byType s' !! "note" = Some 2%nat.
Proof.
  destruct (add_counts_once (store_of "project-A") (store_of "project-A")
              "2025-12-01 10:00:05" (sample_memory "A3" "note") test_clear_db)
    as (id & db' & s & s' & Hadd & Hs & Hs' & _).
  { simpl. tauto. }
  exists id, db', s, s'. split; [exact Hadd|]. split; [exact Hs|]. split; [exact Hs'|].
  injection Hadd as <- <-. injection Hs as <-. injection Hs' as <-.
  vm_compute. repeat split.
Defined.

(** * The table that the store writes *)

Lemma run_snoc (calls : list call) (c : call) (db : Database) :
  run (calls ++ [c]) db = run_call (run calls db) c.
Proof. unfold run. now rewrite fold_left_app. Qed.

Lemma filter_strongly_sorted {A} (R : A -> A -> Prop) (f : A -> bool) (l : list A) :
  StronglySorted R l -> StronglySorted R (List.filter f l).
Proof.
  induction l as [|x l IH]; intros Hs; simpl; [constructor|].
  apply StronglySorted_inv in Hs as [Hl Hx].
  destruct (f x); [|auto]. constructor; [auto|].
  apply List.Forall_forall. intros y Hy. apply filter_In in Hy as [Hy _].
  rewrite List.Forall_forall in Hx. auto.
Qed.

Lemma snoc_strongly_sorted {A} (R : A -> A -> Prop) (l : list A) (x : A) :
  StronglySorted R l -> Forall (fun y => R y x) l -> StronglySorted R (l ++ [x]).
Proof.
  induction l as [|y l IH]; intros Hs Hall; simpl; [repeat constructor|].
  apply StronglySorted_inv in Hs as [Hl Hy].
  constructor.
  - apply IH; [assumption | now apply Forall_inv_tail in Hall].
  - apply Forall_app. split; [assumption|]. constructor; [|constructor].
    now apply Forall_inv in Hall.
Qed.

Lemma filter_Forall {A} (P : A -> Prop) (f : A -> bool) (l : list A) :
  Forall P l -> Forall P (List.filter f l).
Proof.
  intros Hl. apply List.Forall_forall. intros x Hx. apply filter_In in Hx as [Hx _].
  rewrite List.Forall_forall in Hl. auto.
Qed.

Lemma written_by_more (calls : list call) (c : call) (r : DatabaseRow.t) :
  written_by calls r -> written_by (calls ++ [c]) r.
Proof.
  intros (this & now & memory & Hin & Ht & Hr). exists this, now, memory.
  repeat split; auto. apply in_or_app. now left.
Qed.

(** What every call keeps true of a table that started empty. *)
Lemma run_invariants (calls : list call) :
  let db := run calls empty_db in
  StronglySorted by_rowid (rows db) /\
  Forall (fun r => 0 < DatabaseRow.id r <= seq db) (rows db) /\
  Forall (written_by calls) (rows db).
Proof.
  induction calls as [|c calls IH] using rev_ind.
  - simpl. repeat split; constructor.
  - cbv zeta in *. rewrite run_snoc. set (db := run calls empty_db) in *.
    destruct IH as (Hsorted & Hids & Hwritten).
    assert (Hmore : Forall (written_by (calls ++ [c])) (rows db)).
    { eapply Forall_impl; [exact Hwritten|]. intros r. apply written_by_more. }
    destruct c as [this now memory|this id|this]; cbn [run_call].
    + destruct (type_check (Memory.type memory)) eqn:Ht.
      * rewrite add_accepted by assumption. cbn [snd rows seq].
        destruct (next_rowid_above db) as [Hseq Hfresh].
        split; [|split].
        -- apply snoc_strongly_sorted; [assumption|].
           eapply Forall_impl; [exact Hfresh|]. intros r Hr. exact Hr.
        -- apply Forall_app. split.
           ++ eapply Forall_impl; [exact Hids|]. intros r Hr. cbv beta in *. lia.
           ++ constructor; [|constructor]. cbn [inserted_row DatabaseRow.id].
              assert (0 <= seq db).
              { pose proof (run_seq calls empty_db) as Hs. simpl in Hs. exact Hs. }
              lia.
        -- apply Forall_app. split; [assumption|]. constructor; [|constructor].
           exists this, now, memory. repeat split; auto.
           apply in_or_app. right. now left.
      * rewrite add_rejected by assumption. cbn [snd]. auto.
    + cbn [delete snd rows seq].
      split; [now apply filter_strongly_sorted|]. split; now apply filter_Forall.
    + cbn [clear snd rows seq].
      split; [now apply filter_strongly_sorted|]. split; now apply filter_Forall.
Qed.

Lemma strongly_sorted_NoDup (l : list DatabaseRow.t) :
  StronglySorted by_rowid l -> List.NoDup (List.map DatabaseRow.id l).
Proof.
  induction l as [|x l IH]; intros Hs; simpl; [constructor|].
  apply StronglySorted_inv in Hs as [Hl Hx]. constructor; [|auto].
  intros Hin. apply in_map_iff in Hin as (y & Hy & Hin).
  rewrite List.Forall_forall in Hx. specialize (Hx y Hin). unfold by_rowid in Hx. lia.
Qed.

(** X14.  The store writes a row once and never changes it.  In a table
    that started empty and was written only by [add], [delete] and
    [clear], through any instances, every row is still the row that one
    of the [add] calls inserted: [updated_at] equals [created_at], the
    type is one of the five, the id is positive and not above the
    AUTOINCREMENT counter; the rows stand in the order of their ids, and
    no id occurs twice. *)
Theorem rows_are_write_once (calls : list call) :
  let db := run calls empty_db in
  Forall (written_by calls) (rows db) /\
  Forall (fun r => DatabaseRow.updated_at r = DatabaseRow.created_at r /\
                   In (DatabaseRow.type r) memory_types /\
                   0 < DatabaseRow.id r <= seq db) (rows db) /\
  StronglySorted by_rowid (rows db) /\
  List.NoDup (List.map DatabaseRow.id (rows db)).
Proof.
  destruct (run_invariants calls) as (Hsorted & Hids & Hwritten). cbv zeta.
  split; [exact Hwritten|]. split; [|split; [exact Hsorted | now apply strongly_sorted_NoDup]].
  apply List.Forall_forall. intros r Hr.
  rewrite List.Forall_forall in Hids, Hwritten.
  destruct (Hwritten r Hr) as (this & now & memory & _ & Ht & Hrow).
  split; [now rewrite Hrow|]. split; [|now apply Hids].
  rewrite Hrow. cbn [inserted_row DatabaseRow.type]. now apply type_check_spec.
Qed.

Lemma omapM_total {A B} (f : A -> outcome B) (l : list A) :
  Forall (fun x => exists y, f x = Returns y) l -> exists ys, omapM f l = Returns ys.
Proof.
  induction l as [|x l IH]; intros Hall; simpl; [now eexists|].
  destruct (Forall_inv Hall) as (y & ->).
  destruct (IH (Forall_inv_tail Hall)) as (ys & ->). simpl. now eexists.
Qed.

Lemma written_row_parses (calls : list call) (r : DatabaseRow.t) :
  forallb well_shaped calls = true -> written_by calls r ->
  exists m, rowToMemory r = Returns m.
Proof.
  intros Hshape (this & now & memory & Hin & _ & ->).
  rewrite forallb_forall in Hshape. specialize (Hshape _ Hin).
  cbn [well_shaped] in Hshape. apply andb_true_iff in Hshape as [Htags Hmeta].
  unfold rowToMemory. cbn [inserted_row DatabaseRow.tags DatabaseRow.metadata].
  rewrite (stored_value_parses _ Htags), (stored_value_parses _ Hmeta).
  simpl. now eexists.
Qed.

(** X15.  On a table that only the store has written, what is stored
    can be read.  If the table started empty and every memory added had
    tags and metadata that are JSON values with integers for numbers (or
    none), then the text that [add] stored parses: [rowToMemory] returns for every row of the table.
    So [get] returns for every id, through every instance, and [search] and
    [list] return for all arguments that SQLite accepts: a limit that is an
    integer of 64 bits and a pattern of at most 50000 bytes. *)
Theorem reads_never_throw (calls : list call) (that : MemoryStore) :
  forallb well_shaped calls = true ->
  let db := run calls empty_db in
  (forall r, In r (rows db) -> exists m, rowToMemory r = Returns m) /\
  (forall i, exists m, get that i db = Returns m) /\
  (forall q o, accepted_query q = true -> accepted_limit o = true ->
     exists ms, search that q o db = Returns ms) /\
  (forall o, accepted_limit o = true -> exists ms, list_ that o db = Returns ms).
Proof.
  intros Hshape db.
  assert (Hrows : forall r, In r (rows db) -> exists m, rowToMemory r = Returns m).
  { intros r Hr. destruct (run_invariants calls) as (_ & _ & Hw).
    rewrite List.Forall_forall in Hw. eapply written_row_parses; eauto. }
  split; [exact Hrows|]. split; [|split].
  - intros i. unfold get.
    destruct (List.find _ (rows db)) as [row|] eqn:Hfind; [|now eexists].
    apply find_some in Hfind as [Hin _]. destruct (Hrows row Hin) as (m & ->).
    simpl. now eexists.
  - intros q o _ _. apply omapM_total. apply List.Forall_forall. intros r Hr.
    apply search_rows_in_scope in Hr as [Hr _]. auto.
  - intros o _. apply omapM_total. apply List.Forall_forall. intros r Hr.
    apply list_rows_in_scope in Hr as [Hr _]. auto.
Qed.

Lemma reads_never_throw_witness :
  let this := store_of "test-project-1" in
  let calls :=
    [ Add this "2025-12-01 10:00:00"
        (with_tags (Some (JArr [JStr "a"; JStr "b"])) (Some (JObj [("k", JNum 1)]))
           (sample_memory "Complex memory" "code"));
      Add this "2025-12-01 10:00:01" (sample_memory "Plain" "note");
      Delete this 1 ] in
  forallb well_shaped calls = true /\
  accepted_query "plain" = true /\
  accepted_limit {| opt_type := None; opt_limit := Some 5 |} = true /\
  exists ms, search global_store "plain" {| opt_type := None; opt_limit := Some 5 |}
               (run calls empty_db) = Returns ms.
Proof.
  cbv zeta. split; [reflexivity|]. split; [reflexivity|]. split; [reflexivity|].
  refine (proj1 (proj2 (proj2 (reads_never_throw _ global_store _))) "plain"
            {| opt_type := None; opt_limit := Some 5 |} _ _); reflexivity.
Defined.

Lemma rowToMemory_comes_back (r : DatabaseRow.t) : rowToMemory r <> Diverges.
Proof.
  unfold rowToMemory, parse_or_undefined, JSON_parse.
  destruct (DatabaseRow.tags r) as [s|]; [destruct (truthy_string s)|];
    destruct (DatabaseRow.metadata r) as [s'|]; try destruct (truthy_string s');
    repeat match goal with
      | |- context [match ?x with _ => _ end] => destruct x
      end; simpl; discriminate.
Qed.

Lemma omapM_throws {A B} (f : A -> outcome B) (l : list A) (x : A) (e : js_error) :
  (forall y, f y <> Diverges) -> In x l -> f x = Throws e ->
  exists e', omapM f l = Throws e'.
Proof.
  intros Hback. induction l as [|y l IH]; intros Hin Hx; [contradiction|].
  simpl. destruct (f y) as [b|e'|] eqn:Hy; simpl.
  - destruct Hin as [-> | Hin]; [congruence|].
    destruct (IH Hin Hx) as (e' & ->). simpl. now eexists.
  - now eexists.
  - now apply Hback in Hy.
Qed.

(** X16.  One row that does not parse fails the whole call.  If the
    [tags] or [metadata] text of a row makes [rowToMemory] throw, then
    every [search] and every [list] that selects the row throws, whatever
    else it selects, and [get] throws the same error when the row is the
    one it finds: the store does not skip the row. *)
Theorem corrupt_row_fails_the_call (this : MemoryStore) (db : Database)
    (r : DatabaseRow.t) (e : js_error) :
  rowToMemory r = Throws e ->
  (forall q o, In r (search_rows this q o db) -> exists e', search this q o db = Throws e') /\
  (forall o, In r (list_rows this o db) -> exists e', list_ this o db = Throws e') /\
  (forall i, List.find (fun x => (DatabaseRow.id x =? i) && in_scope this x)%bool (rows db)
             = Some r ->
             get this i db = Throws e).
Proof.
  intros Hr. split; [|split].
  - intros q o Hin. eapply omapM_throws; eauto using rowToMemory_comes_back.
  - intros o Hin. eapply omapM_throws; eauto using rowToMemory_comes_back.
  - intros i Hfind. unfold get. rewrite Hfind, Hr. reflexivity.
Qed.

(** The second row of [foreign_table] holds the tags [a,b], which is not
    JSON: listing the project throws, although the first row is sound. *)
Lemma corrupt_row_fails_the_call_witness :
  exists (r : DatabaseRow.t),
    nth_error (rows foreign_table) 1 = Some r /\
    rowToMemory r = Throws SyntaxError /\
    list_ (store_of "test-project-1") no_options foreign_table = Throws SyntaxError /\
    get (store_of "test-project-1") 2 foreign_table = Throws SyntaxError /\
    omap (option_map Memory.content) (get (store_of "test-project-1") 1 foreign_table) =
      Returns (Some "written by the store").
Proof.
  eexists. split; [reflexivity|].
  assert (Hr : rowToMemory
                 {| DatabaseRow.id := 2;
                    DatabaseRow.project_id := Some "test-project-1";
                    DatabaseRow.content := "written by hand";
                    DatabaseRow.type := "note";
                    DatabaseRow.source := "sqlite3";
                    DatabaseRow.tags := Some "a,b";
                    DatabaseRow.metadata := None;
                    DatabaseRow.created_at := "2025-12-01 10:00:01";
                    DatabaseRow.updated_at := "2025-12-01 10:00:01" |} = Throws SyntaxError)
    by reflexivity.
  split; [exact Hr|].
  destruct (corrupt_row_fails_the_call (store_of "test-project-1") foreign_table _ _ Hr)
    as (_ & _ & Hget).
  split; [reflexivity|]. split; [apply Hget; reflexivity | reflexivity].
Defined.

(** * More about the resolver *)

Lemma join_with_inj (a b : list string) :
  Forall clean a -> Forall clean b -> join_with "/" a = join_with "/" b -> a = b.
Proof.
  intros Ha Hb E. pose proof (split_join a Ha) as Sa. pose proof (split_join b Hb) as Sb.
  rewrite E in Sa. rewrite Sa in Sb.
  destruct a as [|x a], b as [|y b]; try reflexivity; try assumption.
  - injection Sb as <- _. apply Forall_inv in Hb. destruct Hb as (_ & Hne & _). congruence.
  - injection Sb as -> _. apply Forall_inv in Ha. destruct Ha as (_ & Hne & _). congruence.
Qed.

Lemma render_inj (a b : list string) :
  Forall clean a -> Forall clean b -> render a = render b -> a = b.
Proof.
  intros Ha Hb E. rewrite !render_cons in E. injection E as E. now apply join_with_inj.
Qed.

Lemma clean_segment (s : string) :
  no_slash s = true -> String.eqb s "" = false -> String.eqb s "." = false ->
  String.eqb s ".." = false -> clean s.
Proof.
  intros H1 H2 H3 H4. repeat split; [exact H1 | | |]; now apply String.eqb_neq.
Qed.



Section ContextFacts.
Context `{Process}.

Lemma resolved_segments_rendered (segs : list string) :
  Forall clean segs -> resolved_segments [render segs] = segs.
Proof.
  intros Hc. apply render_inj; [apply resolved_segments_clean | exact Hc|].
  rewrite <- resolve_render. now apply resolve_rendered.
Qed.

Lemma resolve_idempotent (args : list string) : resolve [resolve args] = resolve args.
Proof. rewrite (resolve_render args). apply resolve_rendered, resolved_segments_clean. Qed.

Lemma ancestors_resolved (start : string) : ancestors (resolve [start]) = ancestors start.
Proof.
  unfold ancestors. rewrite (resolve_render [start]).
  now rewrite resolved_segments_rendered by apply resolved_segments_clean.
Qed.

Lemma ancestors_rendered_snoc (segs : list string) (x : string) :
  Forall clean segs -> clean x ->
  ancestors (render (segs ++ [x])) = render (segs ++ [x]) :: ancestors (render segs).
Proof.
  intros Hc Hx. unfold ancestors.
  rewrite !resolved_segments_rendered; auto.
  - rewrite rev_app_distr. cbn [rev app ancestors_of_stack].
    now rewrite rev_involutive.
  - apply Forall_app. split; [exact Hc | now constructor].
Qed.

Lemma hashPath_resolved (p : string) : hashPath (resolve [p]) = hashPath p.
Proof. unfold hashPath. now rewrite resolve_idempotent. Qed.

Lemma found_is_truthy (start : string) (f : string -> bool) (d : string) :
  List.find f (ancestors start) = Some d -> truthy_path (Some d) = Some d.
Proof.
  intros Hf. apply find_some in Hf as [Hin _].
  destruct (ancestors_rendered start d Hin) as (segs & _ & ->). reflexivity.
Qed.

Lemma manifest_is_truthy (start : string) (f : string -> bool) (d : string) :
  List.find f (ancestors start) = Some d ->
  truthy_path (Some (join [d; "package.json"])) = Some (join [d; "package.json"]).
Proof.
  intros Hf. apply find_some in Hf as [Hin _].
  destruct (ancestors_rendered start d Hin) as (segs & Hcl & ->).
  rewrite join_rendered; [reflexivity | exact Hcl|].
  apply clean_segment; reflexivity.
Qed.

(** X17.  Detection looks at the starting directory only through
    [path.resolve]: the two walks and [detectProjectId] give for a
    directory what they give for its resolved path, so that on an empty
    cache [getProjectId] returns the same identifier for both, whether the
    directory was written with a trailing slash, with [.] and [..]
    segments, or relative to the working directory. *)
Theorem detection_resolves_first (fs : gmap string fsnode) (cwd : string) :
  findGitRoot fs (resolve [cwd]) = findGitRoot fs cwd /\
  findPackageJson fs (resolve [cwd]) = findPackageJson fs cwd /\
  detectProjectId fs (resolve [cwd]) = detectProjectId fs cwd /\
  omap fst (getProjectId ∅ fs (Some (resolve [cwd]))) =
    omap fst (getProjectId ∅ fs (Some cwd)).
Proof.
  assert (Hg : findGitRoot fs (resolve [cwd]) = findGitRoot fs cwd)
    by now rewrite !findGitRoot_ancestors, ancestors_resolved.
  assert (Hp : findPackageJson fs (resolve [cwd]) = findPackageJson fs cwd)
    by now rewrite !findPackageJson_ancestors, ancestors_resolved.
  assert (Hd : detectProjectId fs (resolve [cwd]) = detectProjectId fs cwd)
    by (unfold detectProjectId; now rewrite Hg, Hp, resolve_idempotent).
  repeat split; try assumption.
  unfold getProjectId. cbn [default from_option Datatypes.id].
  rewrite !lookup_empty. cbn [truthy_path].
  rewrite Hd. now destruct (detectProjectId fs cwd).
Qed.

(** X18.  [getProjectId] is memoized per argument.  Once a call has
    returned an identifier, every later call with the same argument
    returns that identifier and leaves the cache as it is, whatever the
    file system has become; the call has changed the cache at most under
    its own argument; and after [clearProjectCache] the next call runs the
    detection again, on the file system of that moment. *)
Theorem getProjectId_is_memoized (cache : gmap string string) (fs : gmap string fsnode)
    (cwd : option string) (id : string) (cache' : gmap string string) :
  getProjectId cache fs cwd = Returns (id, cache') ->
  (forall fs' : gmap string fsnode, getProjectId cache' fs' cwd = Returns (id, cache')) /\
  cache' !! default process_cwd cwd = Some id /\
  (forall other : string,
     other <> default process_cwd cwd -> cache' !! other = cache !! other) /\
  (forall fs' : gmap string fsnode,
     getProjectId (clearProjectCache cache') fs' cwd =
       omap (fun id' => (id', {[ default process_cwd cwd := id' ]}))
         (detectProjectId fs' (default process_cwd cwd))).
Proof.
  intros Hcall. pose proof (getProjectId_truthy _ _ _ _ _ Hcall) as Htruthy.
  assert (Hlookup : cache' !! default process_cwd cwd = Some id /\
                    forall other, other <> default process_cwd cwd ->
                                  cache' !! other = cache !! other).
  { unfold getProjectId in Hcall.
    destruct (truthy_path (cache !! default process_cwd cwd)) as [cached|] eqn:Hc.
    - injection Hcall as <- <-. split; [|reflexivity].
      unfold truthy_path in Hc.
      destruct (cache !! default process_cwd cwd) as [v|]; [|discriminate].
      destruct (truthy_string v); congruence.
    - destruct (detectProjectId fs (default process_cwd cwd)); simpl in Hcall;
        try discriminate.
      injection Hcall as <- <-. split; [apply lookup_insert_eq|].
      intros other Hne. now apply lookup_insert_ne. }
  destruct Hlookup as [Hhit Hrest].
  split; [|split; [exact Hhit | split; [exact Hrest|]]].
  - intros fs'. unfold getProjectId. rewrite Hhit. cbn [truthy_path]. now rewrite Htruthy.
  - intros fs'. unfold getProjectId, clearProjectCache. rewrite lookup_empty.
    cbn [truthy_path].
    destruct (detectProjectId fs' (default process_cwd cwd)); reflexivity.
Qed.


(** X20.  A directory that holds neither [.git] nor [package.json] is
    resolved like its parent.  For a directory [/s1/.../sn/x] without the
    two markers, both walks find what they find from [/s1/.../sn], and
    [detectProjectId] gives the same outcome for the two directories,
    unless no marker is found at all: then each directory gets the hash of
    its own path. *)
Theorem marker_free_directory_inherits (fs : gmap string fsnode)
    (segs : list string) (x : string) :
  Forall clean segs -> clean x ->
  existsSync fs (join [render (segs ++ [x]); ".git"]) = false ->
  existsSync fs (join [render (segs ++ [x]); "package.json"]) = false ->
  findGitRoot fs (render (segs ++ [x])) = findGitRoot fs (render segs) /\
  findPackageJson fs (render (segs ++ [x])) = findPackageJson fs (render segs) /\
  (detectProjectId fs (render (segs ++ [x])) = detectProjectId fs (render segs) \/
   (findGitRoot fs (render segs) = Returns None /\
    findPackageJson fs (render segs) = Returns None /\
    detectProjectId fs (render (segs ++ [x])) = Returns (hashPath (render (segs ++ [x]))) /\
    detectProjectId fs (render segs) = Returns (hashPath (render segs)))).
Proof.
  intros Hc Hx Hgit Hpkg.
  assert (Hg : findGitRoot fs (render (segs ++ [x])) = findGitRoot fs (render segs)).
  { rewrite !findGitRoot_ancestors, ancestors_rendered_snoc by assumption.
    cbn [List.find]. now rewrite Hgit. }
  assert (Hp : findPackageJson fs (render (segs ++ [x])) = findPackageJson fs (render segs)).
  { rewrite !findPackageJson_ancestors, ancestors_rendered_snoc by assumption.
    cbn [List.find]. now rewrite Hpkg. }
  split; [exact Hg|]. split; [exact Hp|].
  unfold detectProjectId. rewrite Hg, Hp.
  rewrite findGitRoot_ancestors. cbn [obind].
  destruct (List.find _ (ancestors (render segs))) as [g|] eqn:Hfg.
  { left. now rewrite (found_is_truthy _ _ _ Hfg). }
  cbn [truthy_path]. rewrite findPackageJson_ancestors. cbn [obind].
  destruct (List.find (fun a => existsSync fs (join [a; "package.json"]))
              (ancestors (render segs))) as [d|] eqn:Hfp.
  { left. cbn [option_map]. now rewrite (manifest_is_truthy _ _ _ Hfp). }
  right. cbn [option_map truthy_path]. rewrite !hashPath_resolved. auto.
Qed.


(** X22.  Every instance that the constructor makes either sees all rows
    (global mode, with no project id of its own) or filters on one
    non-empty project id: a row is in its scope exactly when it carries
    that id, so rows without a project id and rows of other projects are
    outside.  There is no instance that is not global and does not
    filter.  The database it works on is the file as it was found. *)
Theorem constructed_store_filters (cache : gmap string string) (fs : gmap string fsnode)
    (file : option Database) (arg : constructor_arg)
    (this : MemoryStore) (db : Database) (cache' : gmap string string) :
  new_MemoryStore cache fs file arg = Returns (this, db, cache') ->
  db = initialize file /\
  ((globalMode this = true /\ projectId this = None /\
    forall r, in_scope this r = true) \/
   (globalMode this = false /\
    exists p, p <> "" /\ projectId this = Some p /\
      forall r, in_scope this r = sql_eq (DatabaseRow.project_id r) p)).
Proof.
  intros Hnew. destruct (new_MemoryStore_modes _ _ _ _ _ _ _ Hnew) as [Hdb Hmode].
  split; [exact Hdb|].
  destruct Hmode as [[Hg Hp] | (p & Hg & Hi)].
  - left. repeat split; auto. intros r. unfold in_scope, isolation. now rewrite Hg.
  - right. split; [exact Hg|]. exists p.
    destruct (isolation_projectId _ _ Hi) as (Hp & Hne & _).
    repeat split; auto. intros r. now apply in_scope_isolated.
Qed.

End ContextFacts.

(** The identifier of [/repo/packages/web] in the monorepo, asked for
    again after every file has gone. *)
Lemma getProjectId_is_memoized_witness :
  exists cache' : gmap string string,
    @getProjectId sample_process ∅ monorepo (Some "/repo/packages/web") =
      Returns ("816fc349d3faebf8", cache') /\
    @getProjectId sample_process cache' ∅ (Some "/repo/packages/web") =
      Returns ("816fc349d3faebf8", cache').
Proof.
  exists (<["/repo/packages/web" := "816fc349d3faebf8"]> ∅).
  assert (E : @getProjectId sample_process ∅ monorepo (Some "/repo/packages/web") =
              Returns ("816fc349d3faebf8", <["/repo/packages/web" := "816fc349d3faebf8"]> ∅))
    by (vm_compute; reflexivity).
  split; [exact E|].
  exact (proj1 (@getProjectId_is_memoized sample_process _ _ _ _ _ E) ∅).
Defined.

(** [/tmp/cortex-test/deeply] holds no marker of its own and is resolved
    like [/tmp/cortex-test], which holds the manifest. *)
Lemma marker_free_directory_inherits_witness :
  Forall clean ["tmp"; "cortex-test"] /\ clean "deeply" /\
  @detectProjectId sample_process nested_project "/tmp/cortex-test/deeply" =
    @detectProjectId sample_process nested_project "/tmp/cortex-test".
Proof.
  assert (Hc : Forall clean ["tmp"; "cortex-test"])
    by (repeat constructor; apply clean_segment; reflexivity).
  assert (Hx : clean "deeply") by (apply clean_segment; reflexivity).
  split; [exact Hc|]. split; [exact Hx|].
  destruct (@marker_free_directory_inherits sample_process nested_project
              ["tmp"; "cortex-test"] "deeply" Hc Hx eq_refl eq_refl)
    as (_ & _ & [Hsame | (_ & Hnone & _)]).
  - exact Hsame.
  - vm_compute in Hnone. discriminate.
Defined.

(** The instance of the tests: made for the project id [test-project-1],
    it filters on that id. *)
Lemma constructed_store_filters_witness :
  exists (this : MemoryStore) (db : Database) (cache' : gmap string string),
    @new_MemoryStore sample_process ∅ ∅ None
      (Options {| opt_dbPath := Some "/tmp/cortex-test.db";
                  opt_projectId := Some "test-project-1";
                  opt_globalMode := None |}) = Returns (this, db, cache') /\
    globalMode this = false /\
    db = empty_db.
Proof.
  exists (store_of "test-project-1"), empty_db, ∅.
  assert (E : @new_MemoryStore sample_process ∅ ∅ None
                (Options {| opt_dbPath := Some "/tmp/cortex-test.db";
                            opt_projectId := Some "test-project-1";
                            opt_globalMode := None |}) =
              Returns (store_of "test-project-1", empty_db, ∅)) by reflexivity.
  split; [exact E|]. split; [reflexivity|].
  exact (proj1 (@constructed_store_filters sample_process _ _ _ _ _ _ _ E)).
Defined.

(** A manifest whose name is an object with a key [toString]: the file is
    read and parsed and has a name, and the template literal throws. *)
Example test_name_object :
  manifest_name name_object_project "/obj/package.json" =
    Returns (Some (JObj [("toString", JNum 1)])) /\
  @getProjectId sample_process ∅ name_object_project (Some "/obj") = Throws TypeError.
Proof. split; reflexivity. Qed.

(** * The MCP server *)

Lemma omapM_comes_back {A B} (f : A -> outcome B) (l : list A) :
  (forall x, f x <> Diverges) -> omapM f l <> Diverges.
Proof.
  intros Hback. induction l as [|x l IH]; simpl; [discriminate|].
  destruct (f x) eqn:Hx; simpl; [|discriminate|now apply Hback in Hx].
  destruct (omapM f l); simpl; [discriminate | discriminate | contradiction].
Qed.

Lemma number_or_truthy (n : option Z) (dflt : Z) : dflt <> 0 -> number_or n dflt <> 0.
Proof.
  intros Hd. unfold number_or, truthy_number. destruct n as [n|]; [|exact Hd].
  destruct (Z.eqb_spec n 0); simpl; assumption.
Qed.

Lemma search_within_limit (this : MemoryStore) (q : string) (t : option string) (n : Z)
    (db : Database) (ms : list Memory.t) :
  0 < n ->
  search this q {| opt_type := t; opt_limit := Some n |} db = Returns ms ->
  Z.of_nat (length ms) <= n.
Proof.
  intros Hn Hms. unfold search, search_rows in Hms.
  rewrite limit_clause_positive in Hms by assumption.
  apply omapM_length in Hms. rewrite Hms, length_firstn. lia.
Qed.

Lemma list_within_limit (this : MemoryStore) (t : option string) (n : Z)
    (db : Database) (ms : list Memory.t) :
  0 < n ->
  list_ this {| opt_type := t; opt_limit := Some n |} db = Returns ms ->
  Z.of_nat (length ms) <= n.
Proof.
  intros Hn Hms. unfold list_, list_rows in Hms.
  rewrite limit_clause_positive in Hms by assumption.
  apply omapM_length in Hms. rewrite Hms, length_firstn. lia.
Qed.

Section McpServerFacts.
Variable message : js_error -> string.

Lemma attempt_answers {A} (call : outcome A) (text : A -> string) :
  attempt message call text =
  match omap text call with
  | Returns shown => Returns (text_result shown)
  | Throws e => Returns (error_result message (StoreError e))
  | Diverges => Diverges
  end.
Proof. destruct call; reflexivity. Qed.

Lemma store_call_comes_back (this : MemoryStore) (now : string)
    (request : CallToolRequest) (db : Database) :
  store_call this now request db <> Some Diverges.
Proof.
  destruct request as [[args|]|[args|]|args| |name]; cbn [store_call]; try discriminate.
  - pose proof (omapM_comes_back rowToMemory
                  (search_rows this (search_query args) (search_options args) db)
                  rowToMemory_comes_back) as Hback.
    unfold search. destruct (omapM _ _); simpl; congruence.
  - destruct (type_check (Memory.type (add_memory args))) eqn:Ht.
    + rewrite add_accepted by assumption. discriminate.
    + rewrite add_rejected by assumption. discriminate.
  - pose proof (omapM_comes_back rowToMemory (list_rows this (list_options args) db)
                  rowToMemory_comes_back) as Hback.
    unfold list_. destruct (omapM _ _); simpl; congruence.
Qed.

(** X23.  The tool handler always answers.  For every request it returns
    a result and never throws.  A request that names no tool of the
    server, or lacks the arguments that [cortex_search] and [cortex_add]
    need, is turned down with the text [Error: Unknown tool: ] and the
    name, or [Error: Missing arguments]; an exception of the store ends in
    the text [Error: ] and its message; these results have [isError] set,
    and no other result has.  A request that ends in an error leaves the
    table as it was, and the only request that changes the table is a
    [cortex_add] that succeeds. *)
Theorem tool_call_always_answers (this : MemoryStore) (now : string)
    (request : CallToolRequest) (db : Database) :
  exists (result : CallToolResult) (db' : Database),
    CallTool message this now request db = (Returns result, db') /\
    match store_call this now request db with
    | None =>
        db' = db /\
        exists m : string,
          result = {| result_text := "Error: " +:+ m; isError := true |} /\
          (forall name, request = Call_other name -> m = "Unknown tool: " +:+ name) /\
          (request = Call_cortex_search None \/ request = Call_cortex_add None ->
           m = "Missing arguments")
    | Some (Throws e) =>
        db' = db /\
        result = {| result_text := "Error: " +:+ message e; isError := true |}
    | Some (Returns shown) =>
        result = {| result_text := shown; isError := false |}
    | Some Diverges => False
    end /\
    (db' = db \/
     exists (args : AddArguments) (id : Z),
       request = Call_cortex_add (Some args) /\
       result = text_result (add_text id) /\
       length (rows db') = S (length (rows db))).
Proof.
  destruct request as [[args|]|[args|]|args| |name]; cbn [CallTool store_call].
  - pose proof (store_call_comes_back this now (Call_cortex_search (Some args)) db) as Hback.
    cbn [store_call] in Hback. rewrite attempt_answers.
    destruct (omap search_text _) as [shown|e|]; [| |congruence];
      eexists _, db; (split; [reflexivity|]); split; auto.
  - eexists _, db. split; [reflexivity|]. split; [|now left].
    split; [reflexivity|]. exists "Missing arguments".
    split; [reflexivity|]. split; [discriminate | reflexivity].
  - destruct (type_check (Memory.type (add_memory args))) eqn:Ht.
    + rewrite add_accepted by assumption. cbn [attempt fst omap obind].
      eexists _, _. split; [reflexivity|]. split; [reflexivity|].
      right. exists args, (next_rowid db). split; [reflexivity|]. split; [reflexivity|].
      cbn [rows]. rewrite List.length_app. simpl. lia.
    + rewrite add_rejected by assumption. cbn [attempt fst omap obind].
      eexists _, db. split; [reflexivity|]. split; [|now left]. split; reflexivity.
  - eexists _, db. split; [reflexivity|]. split; [|now left].
    split; [reflexivity|]. exists "Missing arguments".
    split; [reflexivity|]. split; [discriminate | reflexivity].
  - pose proof (store_call_comes_back this now (Call_cortex_list args) db) as Hback.
    cbn [store_call] in Hback. rewrite attempt_answers.
    destruct (omap list_text _) as [shown|e|]; [| |congruence];
      eexists _, db; (split; [reflexivity|]); split; auto.
  - eexists _, db. split; [reflexivity|]. split; [reflexivity | now left].
  - eexists _, db. split; [reflexivity|]. split; [|now left].
    split; [reflexivity|]. exists ("Unknown tool: " +:+ name).
    split; [reflexivity|]. split; [now intros ? [= ->] | intros [|]; discriminate].
Qed.

(** X24.  The limit that a tool hands to the store.  [cortex_search]
    hands on the limit of the request, and 10 in its place when the
    request gives none or gives 0; [cortex_list] does the same with 20.
    So the limit handed on is never 0, and the store's rule that 0 means
    no limit cannot be reached through a tool.  When the limit handed on
    is positive, the text of the result is made from at most that many
    memories; a negative limit of the request is handed on as it is, and
    the store then answers as it does without a limit. *)
Theorem tool_limits_default (this : MemoryStore) (now : string) (db : Database) :
  (forall args : SearchArguments,
     let limit := number_or (search_limit args) 10 in
     limit <> 0 /\
     (search_limit args = None \/ search_limit args = Some 0 -> limit = 10) /\
     (forall n, search_limit args = Some n -> n <> 0 -> limit = n) /\
     (limit < 0 ->
      search this (search_query args) (search_options args) db =
      search this (search_query args)
        {| opt_type := search_type args; opt_limit := None |} db) /\
     forall results : list Memory.t,
       search this (search_query args) (search_options args) db = Returns results ->
       CallTool message this now (Call_cortex_search (Some args)) db =
         (Returns (text_result (search_text results)), db) /\
       (0 < limit -> Z.of_nat (length results) <= limit)) /\
  (forall args : option ListArguments,
     let limit := number_or (args ≫= list_limit) 20 in
     limit <> 0 /\
     (args ≫= list_limit = None \/ args ≫= list_limit = Some 0 -> limit = 20) /\
     (forall n, args ≫= list_limit = Some n -> n <> 0 -> limit = n) /\
     (limit < 0 ->
      list_ this (list_options args) db =
      list_ this {| opt_type := args ≫= list_type; opt_limit := None |} db) /\
     forall memories : list Memory.t,
       list_ this (list_options args) db = Returns memories ->
       CallTool message this now (Call_cortex_list args) db =
         (Returns (text_result (list_text memories)), db) /\
       (0 < limit -> Z.of_nat (length memories) <= limit)).
Proof.
  assert (Hkept : forall (given : option Z) (dflt n : Z),
            given = Some n -> n <> 0 -> number_or given dflt = n).
  { intros given dflt n -> Hn. unfold number_or, truthy_number.
    destruct (Z.eqb_spec n 0); [contradiction | reflexivity]. }
  split.
  - intros args limit. subst limit.
    split; [apply number_or_truthy; lia|].
    split; [intros [-> | ->]; reflexivity|].
    split; [intros n; apply Hkept|].
    split.
    + intros Hneg. unfold search, search_rows, search_options.
      now rewrite limit_clause_negative.
    + intros results Hres. cbn [CallTool]. rewrite Hres. split; [reflexivity|].
      intros Hpos. eapply search_within_limit; eauto.
  - intros args limit. subst limit.
    split; [apply number_or_truthy; lia|].
    split; [intros [-> | ->]; reflexivity|].
    split; [intros n; apply Hkept|].
    split.
    + intros Hneg. unfold list_, list_rows, list_options.
      now rewrite limit_clause_negative.
    + intros memories Hres. cbn [CallTool]. rewrite Hres. split; [reflexivity|].
      intros Hpos. eapply list_within_limit; eauto.
Qed.

(** A request for the newest memories with the limit [-1]: the text lists
    all three memories of the project. *)
Example test_tool_negative_limit :
  omap (@length Memory.t)
    (list_ (store_of "test-project-1")
       (list_options (Some {| list_type := None; list_limit := Some (-1) |}))
       test_search_db) = Returns 3%nat.
Proof. reflexivity. Qed.

End McpServerFacts.

(** A search for "script" through the tool, with the limit 0: the result
    is that of the limit 10, here the three memories of the project,
    newest first. *)
Example test_tool_search :
  CallTool (fun _ => "") (store_of "test-project-1") "2025-12-01 10:00:09"
    (Call_cortex_search
       (Some {| search_query := "script"; search_type := None; search_limit := Some 0 |}))
    test_search_db =
  (Returns
     {| result_text :=
          "Found 3 memories:" +:+ newline +:+ newline +:+
          "1. [fact] JavaScript is flexible" +:+ newline +:+
          "   Source: test" +:+ newline +:+
          "   Created: 2025-12-01 10:00:02" +:+ newline +:+ newline +:+
          "2. [decision] Use TypeScript for type safety" +:+ newline +:+
          "   Source: test" +:+ newline +:+
          "   Created: 2025-12-01 10:00:01" +:+ newline +:+ newline +:+
          "3. [fact] TypeScript is awesome" +:+ newline +:+
          "   Source: test" +:+ newline +:+
          "   Created: 2025-12-01 10:00:00";
        isError := false |},
   test_search_db).
Proof. vm_compute. reflexivity. Qed.

Example test_tool_stats :
  fst (CallTool (fun _ => "") (store_of "test-project-1") "2025-12-01 10:00:09"
         Call_cortex_stats test_search_db) =
  Returns
    {| result_text :=
         "📊 Cortex Memory Statistics" +:+ newline +:+ newline +:+
         "Total memories: 3" +:+ newline +:+ newline +:+
         "By type:" +:+ newline +:+
         "  decision: 1" +:+ newline +:+
         "  fact: 2";
       isError := false |}.
Proof. vm_compute. reflexivity. Qed.

(** * The tool scanner *)

Lemma span_target_spec (s : string) :
  let '(run, rest) := span_target s in
  s = run +:+ rest /\ all_target_chars run = true /\
  match rest with
  | EmptyString => True
  | String c _ => target_char c = false
  end.
Proof.
  induction s as [|c s IH]; [simpl; auto|].
  cbn [span_target]. destruct (target_char c) eqn:Hc.
  - destruct (span_target s) as [run rest]. destruct IH as (-> & Hall & Hrest).
    repeat split; [|exact Hrest]. cbn [all_target_chars]. now rewrite Hc, Hall.
  - repeat split. exact Hc.
Qed.

Lemma span_target_run (name rest : string) :
  all_target_chars name = true ->
  match rest with EmptyString => True | String c _ => target_char c = false end ->
  span_target (name +:+ rest) = (name, rest).
Proof.
  intros Hall Hrest. induction name as [|c name IH].
  - rewrite append_empty_l. destruct rest as [|d rest]; [reflexivity|].
    cbn [span_target]. now rewrite Hrest.
  - cbn [all_target_chars] in Hall. apply andb_true_iff in Hall as [Hc Hall].
    rewrite append_cons. cbn [span_target]. rewrite Hc, (IH Hall). reflexivity.
Qed.

Lemma target_start_char (c : ascii) : target_start c = true -> target_char c = true.
Proof.
  unfold target_start, target_char. intros Hc.
  apply orb_true_iff in Hc as [-> | ->]; [reflexivity|].
  now rewrite !orb_true_r.
Qed.

Lemma match_target_spec (line name : string) :
  match_target line = Some name <->
  target_name name = true /\ exists rest, line = name +:+ ":" +:+ rest.
Proof.
  split.
  - destruct line as [|c line]; [discriminate|]. unfold match_target.
    destruct (target_start c) eqn:Hstart; [|discriminate].
    pose proof (span_target_spec (String c line)) as Hspan.
    destruct (span_target (String c line)) as [run rest].
    destruct Hspan as (Hline & Hall & _).
    unfold startsWith. destruct rest as [|d rest]; [discriminate|].
    cbn [strip_prefix]. destruct (Ascii.eqb_spec ":" d) as [<-|]; [|discriminate].
    intros [= <-]. split; [|exists rest; exact Hline].
    destruct run as [|r run].
    + rewrite append_empty_l in Hline. injection Hline as -> _. discriminate.
    + rewrite append_cons in Hline. injection Hline as <- _.
      cbn [target_name all_target_chars] in *. apply andb_true_iff in Hall as [_ ->].
      now rewrite Hstart.
  - intros [Hname (rest & ->)]. destruct name as [|c name]; [discriminate|].
    cbn [target_name] in Hname. apply andb_true_iff in Hname as [Hstart Hall].
    rewrite append_cons. unfold match_target. rewrite Hstart.
    rewrite <- append_cons.
    rewrite (span_target_run (String c name) (":" +:+ rest)).
    + reflexivity.
    + cbn [all_target_chars]. now rewrite (target_start_char c Hstart), Hall.
    + reflexivity.
Qed.

Lemma flat_map_map {A B C} (f : A -> list B) (g : B -> C) (l : list A) :
  List.map g (flat_map f l) = flat_map (fun x => List.map g (f x)) l.
Proof.
  induction l as [|x l IH]; simpl; [reflexivity|]. now rewrite List.map_app, IH.
Qed.

Lemma flat_map_ext_all {A B} (f g : A -> list B) (l : list A) :
  (forall x, f x = g x) -> flat_map f l = flat_map g l.
Proof. intros Hfg. induction l as [|x l IH]; simpl; [reflexivity | now rewrite Hfg, IH]. Qed.

Lemma Forall_flat_map_intro {A B} (P : B -> Prop) (f : A -> list B) (l : list A) :
  (forall x, Forall P (f x)) -> Forall P (flat_map f l).
Proof.
  intros Hf. induction l as [|x l IH]; simpl; [constructor|].
  apply Forall_app. split; [apply Hf | exact IH].
Qed.

(** X25.  What [scanMakefile] takes for a target.  A line names a target
    exactly when it starts with a letter or an underscore, goes on with
    letters, digits, underscores and hyphens, and a colon follows at
    once: whatever comes after the colon, so that an assignment [CC:=gcc]
    counts as a target, and a name followed by a blank does not.  Such a
    name never starts with a dot, so the test for internal targets never
    fires.  The tools of a readable Makefile are the targets of its lines
    in order, each with the command [make] and the target; without a
    readable Makefile there are none. *)
Theorem makefile_targets (fs : gmap string fsnode) (workspacePath : string)
    (scanPath : option string) :
  (forall line name : string,
     match_target line = Some name <->
     target_name name = true /\ exists rest, line = name +:+ ":" +:+ rest) /\
  (forall line name : string,
     match_target line = Some name -> startsWith name "." = false) /\
  let found := scanMakefile fs workspacePath scanPath in
  match readFileSync fs (join [path_or scanPath workspacePath; "Makefile"]) with
  | Returns content => List.map Tool.name found = targets_of content
  | _ => found = []
  end /\
  Forall (fun tool =>
            Tool.command tool = "make " +:+ Tool.name tool /\
            Tool.category tool = "make" /\ Tool.source tool = "Makefile") found.
Proof.
  assert (Hdot : forall line name, match_target line = Some name ->
                                   startsWith name "." = false).
  { intros line name Hm. apply match_target_spec in Hm as [Hname _].
    destruct name as [|c name]; [discriminate|].
    cbn [target_name] in Hname. apply andb_true_iff in Hname as [Hstart _].
    unfold startsWith. cbn [strip_prefix].
    destruct (Ascii.eqb_spec "." c) as [<-|]; [discriminate | reflexivity]. }
  split; [apply match_target_spec|]. split; [exact Hdot|].
  cbv zeta. unfold scanMakefile, existsSync, readFileSync.
  destruct (fs !! join [path_or scanPath workspacePath; "Makefile"]) as [[|content|]|];
    cbn [negb]; split; try reflexivity; try constructor.
  - unfold targets_of. rewrite flat_map_map. apply flat_map_ext_all. intros line.
    destruct (match_target line) as [name|] eqn:Hm; [|reflexivity].
    now rewrite (Hdot line name Hm).
  - apply Forall_flat_map_intro. intros line.
    destruct (match_target line) as [name|]; [|constructor].
    destruct (startsWith name "."); repeat constructor.
Qed.

Lemma categories_push_list (tool : Tool.t) (key : string)
    (categories : list (string * list Tool.t)) :
  category_list key (categories_push tool categories) =
  category_list key categories ++ (if of_category key tool then [tool] else []).
Proof.
  unfold of_category. induction categories as [|[k l] rest IH]; cbn [categories_push category_list].
  - destruct (String.eqb (Tool.category tool) key); reflexivity.
  - destruct (String.eqb_spec k (Tool.category tool)) as [->|Hk]; cbn [category_list].
    + destruct (String.eqb (Tool.category tool) key); [reflexivity | now rewrite app_nil_r].
    + destruct (String.eqb_spec k key) as [->|Hkey]; [|exact IH].
      destruct (String.eqb_spec (Tool.category tool) key); [congruence|].
      now rewrite app_nil_r.
Qed.

Lemma categories_push_keys (tool : Tool.t) (key : string)
    (categories : list (string * list Tool.t)) :
  In key (List.map fst (categories_push tool categories)) <->
  key = Tool.category tool \/ In key (List.map fst categories).
Proof.
  induction categories as [|[k l] rest IH]; cbn [categories_push].
  - simpl. intuition.
  - destruct (String.eqb_spec k (Tool.category tool)) as [->|Hk]; simpl.
    + intuition.
    + rewrite IH. intuition.
Qed.

Lemma categories_push_NoDup (tool : Tool.t) (categories : list (string * list Tool.t)) :
  List.NoDup (List.map fst categories) ->
  List.NoDup (List.map fst (categories_push tool categories)).
Proof.
  induction categories as [|[k l] rest IH]; cbn [categories_push]; intros Hnd.
  - simpl. constructor; [intros [] | constructor].
  - apply List.NoDup_cons_iff in Hnd as [Hk Hnd].
    destruct (String.eqb_spec k (Tool.category tool)) as [->|Hne]; simpl.
    + now constructor.
    + constructor; [|auto]. intros Hin.
      apply categories_push_keys in Hin as [-> | Hin]; [congruence | auto].
Qed.

Lemma categories_push_nonempty (tool : Tool.t) (categories : list (string * list Tool.t)) :
  Forall (fun e => snd e <> []) categories ->
  Forall (fun e => snd e <> []) (categories_push tool categories).
Proof.
  induction categories as [|[k l] rest IH]; cbn [categories_push]; intros Hne.
  - repeat constructor. discriminate.
  - destruct (String.eqb k (Tool.category tool)); constructor; simpl.
    + intros E. now apply app_eq_nil in E as [_ E].
    + now apply Forall_inv_tail in Hne.
    + now apply Forall_inv in Hne.
    + apply IH. now apply Forall_inv_tail in Hne.
Qed.

Lemma categories_push_total (tool : Tool.t) (categories : list (string * list Tool.t)) :
  list_sum (List.map (fun e => length (snd e)) (categories_push tool categories)) =
  S (list_sum (List.map (fun e => length (snd e)) categories)).
Proof.
  induction categories as [|[k l] rest IH]; cbn [categories_push]; [reflexivity|].
  destruct (String.eqb k (Tool.category tool)); simpl.
  - rewrite List.length_app. simpl. lia.
  - rewrite IH. lia.
Qed.

(** What grouping keeps true, from any [Map] on. *)
Lemma grouping_spec (l : list Tool.t) (acc : list (string * list Tool.t)) :
  let grouped := fold_left (fun categories tool => categories_push tool categories) l acc in
  List.NoDup (List.map fst acc) ->
  Forall (fun e => snd e <> []) acc ->
  List.NoDup (List.map fst grouped) /\
  Forall (fun e => snd e <> []) grouped /\
  (forall key, category_list key grouped =
               category_list key acc ++ List.filter (of_category key) l) /\
  list_sum (List.map (fun e => length (snd e)) grouped) =
    (list_sum (List.map (fun e => length (snd e)) acc) + length l)%nat.
Proof.
  revert acc. induction l as [|tool l IH]; intros acc grouped Hnd Hne; subst grouped.
  - simpl. split; [exact Hnd|]. split; [exact Hne|]. split; [|lia].
    intros key. now rewrite app_nil_r.
  - cbn [fold_left].
    destruct (IH (categories_push tool acc) (categories_push_NoDup _ _ Hnd)
                (categories_push_nonempty _ _ Hne)) as (H1 & H2 & H3 & H4).
    split; [exact H1|]. split; [exact H2|]. split.
    + intros key. rewrite H3, categories_push_list, <- app_assoc. f_equal.
      cbn [List.filter]. now destruct (of_category key tool).
    + rewrite H4, categories_push_total. simpl. lia.
Qed.

Lemma category_list_In (key : string) (l : list Tool.t)
    (categories : list (string * list Tool.t)) :
  List.NoDup (List.map fst categories) ->
  In (key, l) categories -> category_list key categories = l.
Proof.
  induction categories as [|[k l'] rest IH]; simpl; intros Hnd Hin; [contradiction|].
  apply List.NoDup_cons_iff in Hnd as [Hk Hnd].
  destruct Hin as [[= -> ->] | Hin].
  - now rewrite String.eqb_refl.
  - destruct (String.eqb_spec k key) as [->|]; [|auto].
    exfalso. apply Hk. apply in_map_iff. now exists (key, l).
Qed.

Lemma In_category_list (key : string) (categories : list (string * list Tool.t)) :
  category_list key categories <> [] -> In (key, category_list key categories) categories.
Proof.
  induction categories as [|[k l] rest IH]; simpl; intros Hne; [congruence|].
  destruct (String.eqb_spec k key) as [->|]; [now left | right; auto].
Qed.

Lemma scanNpmScripts_category (fs : gmap string fsnode) (workspacePath : string)
    (scanPath prefix : option string) :
  Forall (fun tool => Tool.category tool = "npm")
    (scanNpmScripts fs workspacePath scanPath prefix).
Proof.
  unfold scanNpmScripts. destruct (negb _); [constructor|].
  destruct (readFileSync _ _); cbn [obind]; try constructor.
  destruct (JSON_parse _); cbn [obind]; try constructor.
  destruct (get_property _ _) as [[scripts|]| |]; cbn [obind]; try constructor.
  destruct (truthy scripts && is_object scripts)%bool; [|constructor].
  apply Forall_flat_map_intro. intros [name script].
  destruct script; repeat constructor.
Qed.

Lemma scanMakefile_category (fs : gmap string fsnode) (workspacePath : string)
    (scanPath : option string) :
  Forall (fun tool => Tool.category tool = "make") (scanMakefile fs workspacePath scanPath).
Proof.
  unfold scanMakefile. destruct (negb _); [constructor|].
  destruct (readFileSync _ _); try constructor.
  apply Forall_flat_map_intro. intros line.
  destruct (match_target line) as [name|]; [|constructor].
  destruct (negb _); repeat constructor.
Qed.

Lemma scanDockerCompose_category (fs : gmap string fsnode) (workspacePath : string)
    (scanPath : option string) :
  Forall (fun tool => Tool.category tool = "docker")
    (scanDockerCompose fs workspacePath scanPath).
Proof. unfold scanDockerCompose. destruct (truthy_path _); repeat constructor. Qed.

Lemma scanScripts_category (fs : gmap string fsnode) (platform workspacePath : string)
    (scanPath : option string) :
  Forall (fun tool => Tool.category tool = "script")
    (scanScripts fs platform workspacePath scanPath).
Proof.
  unfold scanScripts. apply Forall_flat_map_intro. intros dir.
  destruct (negb _); [constructor|]. destruct (readdirSync _ _); try constructor.
  apply Forall_flat_map_intro. intros file. unfold script_tool.
  destruct (truthy_path _); repeat constructor.
Qed.

(** X26.  [scan] files every tool under its category.  The [Map] of
    categories has each key once; the list under a key is never empty and
    holds the tools of that category in the order in which [tools] has
    them; a category without tools has no key; and the lengths of the
    lists add up to the number of tools.  Every tool has one of the four
    categories. *)
Theorem scan_groups_by_category (fs : gmap string fsnode) (platform workspacePath : string) :
  let result := scan fs platform workspacePath in
  List.NoDup (List.map fst (categories result)) /\
  (forall (key : string) (l : list Tool.t),
     In (key, l) (categories result) <->
     l = List.filter (of_category key) (tools result) /\ l <> []) /\
  list_sum (List.map (fun e => length (snd e)) (categories result)) =
    length (tools result) /\
  Forall (fun tool => In (Tool.category tool) ["npm"; "make"; "docker"; "script"])
    (tools result).
Proof.
  cbv zeta. unfold scan. cbn [tools categories].
  set (all := _ ++ _).
  destruct (grouping_spec all [] (List.NoDup_nil _) (List.Forall_nil _))
    as (Hnd & Hne & Hlist & Hsum).
  set (grouped := fold_left _ all []) in *.
  split; [exact Hnd|]. split; [|split; [exact Hsum|]].
  - intros key l. split.
    + intros Hin. pose proof (category_list_In _ _ _ Hnd Hin) as Hl.
      rewrite Hlist in Hl. simpl in Hl. split; [now rewrite Hl|].
      rewrite List.Forall_forall in Hne. exact (Hne _ Hin).
    + intros [-> Hl]. specialize (Hlist key). simpl in Hlist. rewrite <- Hlist in *.
      now apply In_category_list.
  - subst all.
    apply Forall_app; split; [|apply Forall_app; split;
      [|apply Forall_app; split; [|apply Forall_app; split]]].
    + eapply Forall_impl; [apply scanNpmScripts_category|].
      cbv beta. intros tool ->. simpl. tauto.
    + eapply Forall_impl; [apply scanMakefile_category|].
      cbv beta. intros tool ->. simpl. tauto.
    + eapply Forall_impl; [apply scanDockerCompose_category|].
      cbv beta. intros tool ->. simpl. tauto.
    + eapply Forall_impl; [apply scanScripts_category|].
      cbv beta. intros tool ->. simpl. tauto.
    + apply Forall_flat_map_intro. intros subDir.
      eapply Forall_impl; [apply scanNpmScripts_category|].
      cbv beta. intros tool ->. simpl. tauto.
Qed.

Lemma strip_prefix_self (p r : string) : strip_prefix p (p +:+ r) = Some r.
Proof.
  induction p as [|c p IH]; [reflexivity|].
  rewrite append_cons. cbn [strip_prefix]. now rewrite Ascii.eqb_refl.
Qed.

Lemma endsWith_append (a p : string) : endsWith (a +:+ p) p = true.
Proof.
  induction a as [|c a IH].
  - rewrite append_empty_l. destruct p; cbn [endsWith]; now rewrite String.eqb_refl.
  - rewrite append_cons. cbn [endsWith]. rewrite IH. apply orb_true_r.
Qed.

Lemma last_char_append (a p : string) : p <> "" -> last_char (a +:+ p) = last_char p.
Proof.
  intros Hp. induction a as [|c a IH]; [reflexivity|].
  rewrite append_cons. cbn [last_char]. rewrite IH.
  destruct (a +:+ p) eqn:E; [|reflexivity].
  destruct a; [|discriminate]. rewrite append_empty_l in E. contradiction.
Qed.

Lemma endsWith_last_char (s p : string) :
  endsWith s p = true -> p <> "" -> last_char s = last_char p.
Proof.
  intros He Hp. induction s as [|c s IH].
  - cbn [endsWith] in He. rewrite orb_false_r in He. apply String.eqb_eq in He. congruence.
  - cbn [endsWith] in He. apply orb_true_iff in He as [He | He].
    + apply String.eqb_eq in He. congruence.
    + specialize (IH He). cbn [last_char]. rewrite IH.
      destruct s; [|reflexivity]. cbn [endsWith] in He. rewrite orb_false_r in He.
      apply String.eqb_eq in He. congruence.
Qed.

Lemma replace_first_at_end (stem p : string) :
  indexOf (stem +:+ p) p = Some (String.length stem) ->
  replace_first p (stem +:+ p) = stem.
Proof.
  induction stem as [|c stem IH]; intros Hi.
  - rewrite append_empty_l. destruct p as [|d p]; [reflexivity|].
    cbn [replace_first].
    rewrite <- (append_empty_r (String d p)) at 2. now rewrite strip_prefix_self.
  - rewrite append_cons in *. cbn [indexOf replace_first] in *.
    destruct (strip_prefix p (String c (stem +:+ p))); [discriminate|].
    f_equal. apply IH. destruct (indexOf (stem +:+ p) p); [|discriminate].
    simpl in Hi. now injection Hi as ->.
Qed.

(** X27.  The name of a script tool.  A file of a script directory
    becomes a tool exactly when its name ends in [.sh], [.ps1], [.bat] or
    [.cmd], and the name of the tool is the file name with the first
    occurrence of that extension removed.  When the extension occurs in
    the file name only at its end, the tool is named by the stem; its
    source is the path below the workspace, and its command is that path
    after [powershell -File] for [.ps1], after [bash] for [.sh] outside
    Windows, and plain otherwise. *)
Theorem script_name_is_the_stem (platform dir stem ext : string) :
  In ext [".sh"; ".ps1"; ".bat"; ".cmd"] ->
  indexOf (stem +:+ ext) ext = Some (String.length stem) ->
  script_tool platform dir (stem +:+ ext) =
    Some {| Tool.name := stem;
            Tool.command := interpreter platform ext +:+ dir +:+ "/" +:+ stem +:+ ext;
            Tool.category := "script";
            Tool.source := dir +:+ "/" +:+ stem +:+ ext |} /\
  (forall (file : string) (tool : Tool.t),
     script_tool platform dir file = Some tool ->
     exists e, In e [".sh"; ".ps1"; ".bat"; ".cmd"] /\ endsWith file e = true /\
               Tool.name tool = replace_first e file /\
               Tool.source tool = dir +:+ "/" +:+ file) /\
  (forall file : string,
     script_tool platform dir file = None <->
     forall e, In e [".sh"; ".ps1"; ".bat"; ".cmd"] -> endsWith file e = false).
Proof.
  intros Hext Hindex.
  assert (Hfind : List.find (endsWith (stem +:+ ext)) [".sh"; ".ps1"; ".bat"; ".cmd"]
                  = Some ext).
  { assert (Hother : forall e, e <> "" -> last_char e <> last_char ext ->
                               endsWith (stem +:+ ext) e = false).
    { intros e He Hlast. destruct (endsWith (stem +:+ ext) e) eqn:E; [|reflexivity].
      apply endsWith_last_char in E; [|exact He].
      rewrite last_char_append in E; [congruence|].
      simpl in Hext. intuition (subst; discriminate). }
    cbn [List.find]. simpl in Hext.
    destruct Hext as [<- | [<- | [<- | [<- | []]]]];
      rewrite ?endsWith_append, ?Hother by (simpl; congruence); reflexivity. }
  split; [|split].
  - unfold script_tool. rewrite Hfind.
    assert (Htruthy : truthy_path (Some ext) = Some ext).
    { simpl in Hext. intuition (subst; reflexivity). }
    rewrite Htruthy, (replace_first_at_end _ _ Hindex). reflexivity.
  - intros file tool. unfold script_tool.
    destruct (List.find (endsWith file) _) as [e|] eqn:Hf; [|discriminate].
    apply find_some in Hf as [Hin He]. cbn [truthy_path].
    destruct (truthy_string e); [|discriminate].
    intros [= <-]. exists e. repeat split; assumption.
  - intros file. unfold script_tool. split.
    + destruct (List.find (endsWith file) _) as [e|] eqn:Hf.
      * apply find_some in Hf as [Hin He]. cbn [truthy_path].
        assert (truthy_string e = true) as -> by (simpl in Hin; intuition (subst; reflexivity)).
        discriminate.
      * intros _ e Hin. exact (find_none _ _ Hf e Hin).
    + intros Hnone.
      destruct (List.find (endsWith file) _) as [e|] eqn:Hf; [|reflexivity].
      apply find_some in Hf as [Hin He]. rewrite (Hnone e Hin) in He. discriminate.
Qed.

(** [deploy.sh] is run by [bash] under the name [deploy]. *)
Lemma script_name_is_the_stem_witness :
  In ".sh" [".sh"; ".ps1"; ".bat"; ".cmd"] /\
  indexOf "deploy.sh" ".sh" = Some 6%nat /\
  script_tool "linux" "scripts" "deploy.sh" =
    Some {| Tool.name := "deploy";
            Tool.command := "bash scripts/deploy.sh";
            Tool.category := "script";
            Tool.source := "scripts/deploy.sh" |}.
Proof.
  split; [simpl; tauto|]. split; [reflexivity|].
  exact (proj1 (script_name_is_the_stem "linux" "scripts" "deploy" ".sh"
                  ltac:(simpl; tauto) eq_refl)).
Defined.

(** The extension is looked for from the left: in [my.shell.sh] it is
    found inside the stem, and that occurrence is the one removed. *)
Example test_script_name_first_occurrence :
  option_map Tool.name (script_tool "linux" "scripts" "my.shell.sh") = Some "myell.sh".
Proof. reflexivity. Qed.

(** The tests of toolScanner.test.ts on [tool_workspace]: the four
    categories are there, the sub-package is scanned under its name, the
    package manager is the one of the workspace root, and the ignored
    directory is not scanned. *)
Example test_scan_workspace :
  let result := scan tool_workspace "linux" "/ws" in
  List.map fst (categories result) = ["npm"; "make"; "docker"; "script"] /\
  List.map Tool.name (category_list "npm" (categories result)) = ["build"; "[web] dev"] /\
  List.map Tool.command (category_list "npm" (categories result)) =
    ["yarn run build"; "cd web && yarn run dev"] /\
  List.map Tool.name (category_list "make" (categories result)) = ["all"; "CC"] /\
  List.map Tool.source (category_list "docker" (categories result)) =
    ["docker-compose.yml"; "docker-compose.yml"; "docker-compose.yml"; "docker-compose.yml"] /\
  length (tools result) = 10%nat /\
  scan ∅ "linux" "/ws" = {| tools := []; categories := [] |}.
Proof. vm_compute. repeat split. Qed.

(** ** The webview: [escapeHtml] *)

Lemma escape_map_cases (c : ascii) :
  (escape_map c = None /\ c <> "&"%char /\ markup_char c = false) \/
  c = "&"%char \/ c = "<"%char \/ c = ">"%char \/ c = dquote \/ c = apostrophe.
Proof.
  unfold escape_map, markup_char.
  destruct (Ascii.eqb_spec c "&"); [auto|].
  destruct (Ascii.eqb_spec c "<"); [auto|].
  destruct (Ascii.eqb_spec c ">"); [auto|].
  destruct (Ascii.eqb_spec c dquote); [auto 6|].
  destruct (Ascii.eqb_spec c apostrophe); [auto 6|].
  left. auto.
Qed.

Lemma escapeHtml_cons (c : ascii) (rest : string) :
  escapeHtml (String c rest) = default (String c "") (escape_map c) +:+ escapeHtml rest.
Proof. reflexivity. Qed.

Lemma escapeHtml_plain (c : ascii) (rest : string) :
  escape_map c = None -> escapeHtml (String c rest) = String c (escapeHtml rest).
Proof. intros Hc. rewrite escapeHtml_cons, Hc. reflexivity. Qed.

Ltac escape_cases c H :=
  destruct (escape_map_cases c) as [(H & ? & ?) | [-> | [-> | [-> | [-> | ->]]]]].

Lemma escapeHtml_safe (text : string) :
  all_chars (fun c => markup_char c = false) (escapeHtml text).
Proof.
  induction text as [|c rest IH]; [exact I|].
  escape_cases c Hc.
  - rewrite escapeHtml_plain by exact Hc. split; assumption.
  - rewrite escapeHtml_cons. cbn. repeat split; exact IH.
  - rewrite escapeHtml_cons. cbn. repeat split; exact IH.
  - rewrite escapeHtml_cons. cbn. repeat split; exact IH.
  - rewrite escapeHtml_cons. cbn. repeat split; exact IH.
  - rewrite escapeHtml_cons. cbn. repeat split; exact IH.
Qed.

Lemma escapeHtml_nonempty (c : ascii) (rest : string) : escapeHtml (String c rest) <> "".
Proof.
  escape_cases c Hc; [rewrite escapeHtml_plain by exact Hc|..]; discriminate.
Qed.

Lemma escapeHtml_inj (a b : string) : escapeHtml a = escapeHtml b -> a = b.
Proof.
  revert b. induction a as [|c a IH]; intros [|d b] Heq.
  - reflexivity.
  - symmetry in Heq. now apply escapeHtml_nonempty in Heq.
  - now apply escapeHtml_nonempty in Heq.
  - escape_cases c Hc; escape_cases d Hd;
      rewrite ?(escapeHtml_plain c) in Heq by exact Hc;
      rewrite ?(escapeHtml_plain d) in Heq by exact Hd;
      rewrite ?escapeHtml_cons in Heq; cbn in Heq;
      try discriminate Heq;
      try (injection Heq as Heq; f_equal; now apply IH);
      try (injection Heq as -> Heq; f_equal; now apply IH);
      try (injection Heq as -> _; congruence);
      try (injection Heq as <- _; congruence).
Qed.

Lemma escape_map_quotes :
  escape_map dquote = Some "&quot;" /\ escape_map apostrophe = Some "&#039;".
Proof. split; reflexivity. Qed.

Lemma escapeHtml_length (text : string) :
  (String.length text <= String.length (escapeHtml text))%nat.
Proof.
  induction text as [|c rest IH]; [reflexivity|].
  escape_cases c Hc; [rewrite escapeHtml_plain by exact Hc|..];
    rewrite ?escapeHtml_cons, ?length_append,
      ?(proj1 escape_map_quotes), ?(proj2 escape_map_quotes); cbn; lia.
Qed.

Lemma escapeHtml_unchanged (text : string) :
  escapeHtml text = text <-> all_chars plain_char text.
Proof.
  induction text as [|c rest IH]; [easy|].
  split.
  - intros Heq. escape_cases c Hc.
    + rewrite escapeHtml_plain in Heq by exact Hc. injection Heq as Heq.
      split; [exact Hc | now apply IH].
    + rewrite escapeHtml_cons in Heq. cbn in Heq. injection Heq as Heq.
      pose proof (escapeHtml_length rest) as Hlen.
      apply (f_equal String.length) in Heq. rewrite length_append in Heq.
      cbn in Heq. lia.
    + pose proof (escapeHtml_safe (String "<" rest)) as Hs. rewrite Heq in Hs.
      destruct Hs as [Hs _]. discriminate Hs.
    + pose proof (escapeHtml_safe (String ">" rest)) as Hs. rewrite Heq in Hs.
      destruct Hs as [Hs _]. discriminate Hs.
    + pose proof (escapeHtml_safe (String dquote rest)) as Hs. rewrite Heq in Hs.
      destruct Hs as [Hs _]. discriminate Hs.
    + pose proof (escapeHtml_safe (String apostrophe rest)) as Hs. rewrite Heq in Hs.
      destruct Hs as [Hs _]. discriminate Hs.
  - intros [Hc Hrest]. rewrite escapeHtml_plain by exact Hc. f_equal. now apply IH.
Qed.

Lemma escapeHtml_app (a b : string) :
  escapeHtml (a +:+ b) = escapeHtml a +:+ escapeHtml b.
Proof.
  induction a as [|c a IH]; [reflexivity|].
  rewrite append_cons, !escapeHtml_cons, IH. now rewrite append_assoc.
Qed.

(** X28.  [escapeHtml] leaves no character that could open or close
    markup: its result holds no angle bracket, no double quote and no
    apostrophe, whatever the text.  It loses nothing: two texts with the
    same result are the same text.  It works piece by piece, so a text put
    together from parts is escaped as its parts are; and it returns the
    text as it is exactly when the text holds none of the five
    characters. *)
Theorem escapeHtml_leaves_no_markup (text : string) :
  all_chars (fun c => markup_char c = false) (escapeHtml text) /\
  (forall other, escapeHtml text = escapeHtml other -> text = other) /\
  (forall more, escapeHtml (text +:+ more) = escapeHtml text +:+ escapeHtml more) /\
  (escapeHtml text = text <-> all_chars plain_char text).
Proof.
  split; [apply escapeHtml_safe|].
  split; [intros other; apply escapeHtml_inj|].
  split; [intros more; apply escapeHtml_app|].
  apply escapeHtml_unchanged.
Qed.

(** A text with all five characters; an ampersand that is already part of
    an entity is escaped once more. *)
Example test_escapeHtml :
  escapeHtml ("<a href=" +:+ String dquote "x" +:+ String dquote ">Tom & Jerry" +:+
              String apostrophe "s</a>") =
    "&lt;a href=&quot;x&quot;&gt;Tom &amp; Jerry&#039;s&lt;/a&gt;" /\
  escapeHtml "&amp;" = "&amp;amp;".
Proof. split; reflexivity. Qed.

(** ** The store of the extension *)

Lemma extension_rowToMemory (row : DatabaseRow.t) :
  Extension.rowToMemory row = omap without_projectId (rowToMemory row).
Proof.
  unfold Extension.rowToMemory, rowToMemory, omap.
  destruct (parse_or_undefined (DatabaseRow.tags row)); simpl; [|reflexivity..].
  destruct (parse_or_undefined (DatabaseRow.metadata row)); reflexivity.
Qed.

Lemma omapM_omap {A B C} (f : A -> outcome B) (g : B -> C) (l : list A) :
  omapM (fun x => omap g (f x)) l = omap (List.map g) (omapM f l).
Proof.
  induction l as [|x l IH]; [reflexivity|]. simpl. rewrite IH.
  destruct (f x); simpl; [|reflexivity..].
  destruct (omapM f l); reflexivity.
Qed.

Lemma omapM_ext {A B} (f g : A -> outcome B) (l : list A) :
  (forall x, f x = g x) -> omapM f l = omapM g l.
Proof. intros Hfg. induction l as [|x l IH]; simpl; [reflexivity | now rewrite Hfg, IH]. Qed.

Lemma find_ext {A} (f g : A -> bool) (l : list A) :
  (forall x, f x = g x) -> List.find f l = List.find g l.
Proof. intros Hfg. induction l as [|x l IH]; simpl; [reflexivity | now rewrite Hfg, IH]. Qed.

Lemma filter_nothing {A} (g : A -> bool) (l : list A) :
  (forall x, g x = false) -> List.filter g l = [].
Proof. intros Hg. induction l as [|x l IH]; simpl; [reflexivity | now rewrite Hg]. Qed.

Lemma extension_rows (l : list DatabaseRow.t) :
  omapM Extension.rowToMemory l = omap (List.map without_projectId) (omapM rowToMemory l).
Proof.
  rewrite <- omapM_omap. apply omapM_ext, extension_rowToMemory.
Qed.

Lemma inserted_row_global (now : string) (memory : Memory.t) (id : Z) :
  inserted_row global_store now (without_projectId memory) id =
  {| DatabaseRow.id := id;
     DatabaseRow.project_id := None;
     DatabaseRow.content := Memory.content memory;
     DatabaseRow.type := Memory.type memory;
     DatabaseRow.source := Memory.source memory;
     DatabaseRow.tags := stringify_or_null (Memory.tags memory);
     DatabaseRow.metadata := stringify_or_null (Memory.metadata memory);
     DatabaseRow.created_at := now;
     DatabaseRow.updated_at := now |}.
Proof. reflexivity. Qed.

(** X29.  The store of the extension knows no projects.  On the same table
    it answers as the core store in global mode does, its memories without
    [projectId]: [search], [list], [get] and [stats] give the same result,
    [delete] and [clear] leave the same table, and [add] inserts the row
    that the global store inserts for a memory without a project.  So its
    [clear] removes the memories of every project, and a memory that it
    adds has no project: no store that is scoped to a project finds it. *)
Theorem extension_store_is_global (d : Database) (query : string) (o : QueryOptions)
    (id : Z) (now : string) (memory : Memory.t) (file : option Database) :
  let this := {| Extension.db := Some d |} in
  let added := add global_store now (without_projectId memory) d in
  Extension.search this query o =
    settle (omap (List.map without_projectId) (search global_store query o d)) /\
  Extension.list_ this o =
    settle (omap (List.map without_projectId) (list_ global_store o d)) /\
  Extension.get this id =
    settle (omap (option_map without_projectId) (get global_store id d)) /\
  Extension.stats this =
    settle (omap (fun s => (total s, byType s)) (stats global_store d)) /\
  Extension.delete this id file =
    (settle (fst (delete global_store id d)),
     {| Extension.db := Some (snd (delete global_store id d)) |},
     Some (snd (delete global_store id d))) /\
  Extension.clear this file =
    (settle (fst (clear global_store d)),
     {| Extension.db := Some (snd (clear global_store d)) |},
     Some (snd (clear global_store d))) /\
  rows (snd (clear global_store d)) = [] /\
  Extension.add this now memory file =
    (settle (fst added), {| Extension.db := Some (snd added) |},
     if type_check (Memory.type memory) then Some (snd added) else file) /\
  (forall (that : MemoryStore) (p : string),
     isolation that = Some p -> type_check (Memory.type memory) = true ->
     fst added = Returns (next_rowid d) /\
     get that (next_rowid d) (snd added) = Returns None).
Proof.
  intros this added. subst this added.
  assert (Hscope : forall (f : DatabaseRow.t -> bool) (l : list DatabaseRow.t),
            List.filter (fun r => in_scope global_store r && f r)%bool l = List.filter f l)
    by (intros f l; apply filter_ext_all; intros r; reflexivity).
  repeat split.
  - unfold Extension.search, search, search_rows. cbn [Extension.ensureInitialized Extension.db].
    rewrite extension_rows. do 3 f_equal.
    apply f_equal. apply f_equal. apply filter_ext_all. intros r.
    change (in_scope global_store r) with true. now rewrite andb_true_r.
  - unfold Extension.list_, list_, list_rows. cbn [Extension.ensureInitialized Extension.db].
    rewrite extension_rows. now rewrite Hscope.
  - unfold Extension.get, get. cbn [Extension.ensureInitialized Extension.db].
    rewrite (find_ext (fun r => DatabaseRow.id r =? id)
               (fun r => (DatabaseRow.id r =? id) && in_scope global_store r)%bool)
      by (intros r; change (in_scope global_store r) with true; now rewrite andb_true_r).
    destruct (List.find _ (rows d)) as [row|]; [|reflexivity].
    rewrite extension_rowToMemory. destruct (rowToMemory row); reflexivity.
  - unfold Extension.stats, stats. cbn [Extension.ensureInitialized Extension.db settle omap obind].
    rewrite (filter_all (in_scope global_store)) by (intros; reflexivity). reflexivity.
  - unfold Extension.delete, delete.
    cbn [Extension.ensureInitialized Extension.db Extension.saveToFile settle fst snd].
    rewrite (filter_ext_all (fun r => negb (DatabaseRow.id r =? id))
               (fun r => negb ((DatabaseRow.id r =? id) && in_scope global_store r)))
      by (intros r; change (in_scope global_store r) with true; now rewrite andb_true_r).
    reflexivity.
  - unfold Extension.clear, clear.
    cbn [Extension.ensureInitialized Extension.db Extension.saveToFile settle fst snd].
    rewrite (filter_all (in_scope global_store)) by (intros; reflexivity).
    rewrite (filter_nothing (fun r => negb (in_scope global_store r)))
      by (intros; reflexivity).
    reflexivity.
  - unfold clear. cbn [snd rows]. apply filter_nothing. intros; reflexivity.
  - unfold Extension.add. cbn [Extension.ensureInitialized Extension.db].
    destruct (type_check (Memory.type memory)) eqn:Ht.
    + rewrite add_accepted by exact Ht. rewrite inserted_row_global. reflexivity.
    + rewrite add_rejected by exact Ht. reflexivity.
  - rewrite add_accepted by assumption. reflexivity.
  - rewrite add_accepted by assumption. cbn [snd]. unfold get. cbn [rows].
    rewrite find_app_fresh.
    + rewrite inserted_row_global. cbn [DatabaseRow.id]. rewrite Z.eqb_refl.
      rewrite (in_scope_isolated that p) by assumption. reflexivity.
    + intros y Hy. destruct (next_rowid_above d) as [_ Hall].
      rewrite List.Forall_forall in Hall. specialize (Hall y Hy). cbv beta in Hall.
      destruct (Z.eqb_spec (DatabaseRow.id y) (next_rowid d)); [lia | reflexivity].
Qed.

(** All four memories of the search tests, whatever their project, are in
    the listing of the extension; the store of the first project lists
    three. *)
Example test_extension_list :
  Extension.list_ (fst (Extension.new_MemoryStore (Some test_search_db))) no_options =
    settle (omap (List.map without_projectId) (list_ global_store no_options test_search_db)) /\
  omap (@length Memory.t) (list_ global_store no_options test_search_db) = Returns 4%nat /\
  omap (@length Memory.t) (list_ (store_of "test-project-1") no_options test_search_db) =
    Returns 3%nat.
Proof.
  split; [|split; reflexivity].
  exact (proj1 (proj2 (extension_store_is_global test_search_db "script" no_options 1
                         "2025-12-02 09:00:00" (sample_memory "abc" "fact") None))).
Qed.

Lemma older_rows_not_found (that : MemoryStore) (id : Z) (l : list DatabaseRow.t) :
  Forall (fun r => DatabaseRow.id r < id) l ->
  List.find (fun r => (DatabaseRow.id r =? id) && in_scope that r)%bool l = None.
Proof.
  induction 1 as [|r l Hr _ IH]; [reflexivity|]. simpl.
  destruct (Z.eqb_spec (DatabaseRow.id r) id); [lia | exact IH].
Qed.

Lemma older_rows_filter (f : DatabaseRow.t -> bool) (id : Z) (l : list DatabaseRow.t) :
  Forall (fun r => DatabaseRow.id r < id) l ->
  Forall (fun r => DatabaseRow.id r < id) (List.filter f l).
Proof.
  rewrite !List.Forall_forall. intros Hall r Hr. apply filter_In in Hr as [Hr _].
  now apply Hall.
Qed.

Lemma older_rows_exclude (row : DatabaseRow.t) (l : list DatabaseRow.t) :
  Forall (fun r => DatabaseRow.id r < DatabaseRow.id row) l -> ~ In row l.
Proof.
  rewrite List.Forall_forall. intros Hall Hin. specialize (Hall row Hin). cbv beta in Hall. lia.
Qed.

(** X30.  The extension writes back its own copy.  The store of the
    extension is opened on a file; then a core store that is scoped to a
    project adds a memory to the file and gets its id, and finds the memory
    under it.  The next change that the extension makes (an [add] that is
    accepted, a [delete], a [clear] or [close]) puts the copy of the
    extension in place of the file: the row of that memory is not in it,
    and the core store finds nothing under the id.  If the change is an
    [add], the extension hands out the very id that the core store had
    given. *)
Theorem extension_write_drops_later_rows (that : MemoryStore) (p now : string)
    (memory : Memory.t) (d0 file1 : Database) (id : Z) (w : write) :
  isolation that = Some p ->
  Memory.projectId memory = None ->
  add that now memory d0 = (Returns id, file1) ->
  accepted w = true ->
  let this := fst (Extension.new_MemoryStore (Some d0)) in
  get that id file1 = omap Some (rowToMemory (inserted_row that now memory id)) /\
  In (inserted_row that now memory id) (rows file1) /\
  (exists d2 : Database,
     snd (run_write this w (Some file1)) = Some d2 /\
     ~ In (inserted_row that now memory id) (rows d2) /\
     get that id d2 = Returns None) /\
  (forall (now' : string) (memory' : Memory.t),
     w = WriteAdd now' memory' ->
     fst (fst (Extension.add this now' memory' (Some file1))) = Resolved id).
Proof.
  intros Hiso Hproject Hadd Hw this. subst this.
  destruct (isolation_projectId that p Hiso) as (Hp & Hne & _).
  assert (Ht : type_check (Memory.type memory) = true).
  { destruct (type_check (Memory.type memory)) eqn:Ht; [reflexivity|].
    rewrite add_rejected in Hadd by exact Ht. discriminate. }
  rewrite add_accepted in Hadd by exact Ht. injection Hadd as <- <-.
  destruct (next_rowid_above d0) as [_ Hold].
  set (row := inserted_row that now memory (next_rowid d0)).
  assert (Hrow : DatabaseRow.project_id row = Some p).
  { subst row. cbn [inserted_row DatabaseRow.project_id]. rewrite Hproject, Hp. reflexivity. }
  assert (Hvisible : in_scope that row = true).
  { rewrite (in_scope_isolated that p) by exact Hiso. rewrite Hrow. simpl.
    apply String.eqb_refl. }
  assert (Hfresh : ~ In row (rows d0)) by (apply older_rows_exclude; exact Hold).
  split; [|split; [|split]].
  - unfold get. cbn [rows]. rewrite find_app_fresh.
    + cbn [inserted_row DatabaseRow.id]. fold row.
      change (DatabaseRow.id row) with (next_rowid d0).
      now rewrite Z.eqb_refl, Hvisible.
    + intros y Hy. rewrite List.Forall_forall in Hold. specialize (Hold y Hy).
      cbv beta in Hold. destruct (Z.eqb_spec (DatabaseRow.id y) (next_rowid d0)); [lia|].
      reflexivity.
  - cbn [rows]. apply in_or_app. right. now left.
  - destruct w as [now' memory'| id' | |]; cbn [accepted] in Hw.
    + eexists. unfold run_write, Extension.add.
      cbn [Extension.new_MemoryStore Extension.ensureInitialized Extension.db
           Extension.saveToFile fst snd].
      rewrite Hw. cbn [snd].
      split; [reflexivity|]. cbn [rows]. split.
      * intros Hin. apply in_app_or in Hin as [Hin | [Heq | []]]; [now apply Hfresh|].
        apply (f_equal DatabaseRow.project_id) in Heq. rewrite Hrow in Heq.
        discriminate Heq.
      * unfold get. cbn [rows]. rewrite find_app_fresh.
        -- cbn [DatabaseRow.id]. rewrite Z.eqb_refl.
           rewrite (in_scope_isolated that p) by exact Hiso. reflexivity.
        -- intros y Hy. rewrite List.Forall_forall in Hold. specialize (Hold y Hy).
           cbv beta in Hold.
           destruct (Z.eqb_spec (DatabaseRow.id y) (next_rowid d0)); [lia | reflexivity].
    + eexists. split; [reflexivity|]. cbn [rows]. split.
      * intros Hin. apply filter_In in Hin as [Hin _]. now apply Hfresh.
      * unfold get. cbn [rows].
        now rewrite older_rows_not_found by (apply older_rows_filter, Hold).
    + eexists. split; [reflexivity|]. cbn [rows]. split; [intros []|reflexivity].
    + exists d0. split; [reflexivity|]. split; [exact Hfresh|].
      unfold get. now rewrite older_rows_not_found by exact Hold.
  - intros now' memory' ->. cbn [accepted] in Hw. unfold Extension.add.
    cbn [Extension.new_MemoryStore Extension.ensureInitialized Extension.db fst].
    now rewrite Hw.
Qed.

(** A memory saved through the store of the first project while the
    extension is open, and gone after the extension saves one of its
    own. *)
Lemma extension_write_drops_later_rows_witness :
  omap (option_map Memory.content)
    (get (store_of "test-project-1") 5
       (snd (add (store_of "test-project-1") "2025-12-02 09:00:00"
               (sample_memory "Saved from the command line" "note") test_search_db))) =
    Returns (Some "Saved from the command line") /\
  exists d2 : Database,
    snd (run_write (fst (Extension.new_MemoryStore (Some test_search_db)))
           (WriteAdd "2025-12-02 09:00:01" (sample_memory "Saved in the editor" "fact"))
           (Some (snd (add (store_of "test-project-1") "2025-12-02 09:00:00"
                         (sample_memory "Saved from the command line" "note")
                         test_search_db)))) = Some d2 /\
    get (store_of "test-project-1") 5 d2 = Returns None.
Proof.
  destruct (extension_write_drops_later_rows (store_of "test-project-1") "test-project-1"
              "2025-12-02 09:00:00" (sample_memory "Saved from the command line" "note")
              test_search_db
              (snd (add (store_of "test-project-1") "2025-12-02 09:00:00"
                      (sample_memory "Saved from the command line" "note") test_search_db))
              5 (WriteAdd "2025-12-02 09:00:01" (sample_memory "Saved in the editor" "fact"))
              eq_refl eq_refl eq_refl eq_refl)
    as (Hget & _ & (d2 & Hwrite & _ & Hnone) & _).
  split.
  - rewrite Hget. reflexivity.
  - exists d2. split; [exact Hwrite | exact Hnone].
Defined.
